(** * Scrambler tool: scoring, practice summary, accounts, timers, exports

    A shallow embedding of [app.js]: the scoring and aggregation code
    ([num], [round2], [avgOfTimes], [computeScore], [approxEq], [trackKey],
    [setupKey], [renderPracticeSummary], [meetRunScore], [renderMeet],
    [exportMeetCSV]), the account functions ([bytesToB64], [b64ToBytes],
    [createUser], [verifyUser]), the count-down timers ([createTimer],
    [fmtMMSS]), the CSV writer and the exports ([toCSV],
    [exportPracticeSummaryCSV], [exportMeetCSV]) and the functions that
    change the stored runs and the meet table ([readPracticeForm],
    [saveRun], [deleteRun], [clearMyRuns], [addMeetTeam], [clearMeet], the
    Remove button), together with the JavaScript built-ins they call.

    JavaScript numbers are IEEE 754 binary64 values; they are modelled by
    Rocq's primitive [float], whose operations are the same binary64
    operations (round to nearest, ties to even).  JavaScript strings are
    modelled by [string], read as the bytes of their UTF-8 encoding; an
    object is the list of its own properties in the order of its keys.
    What a function throws is part of its result. *)

From Stdlib Require Import ZArith List String Ascii Bool Lia Floats.
From Stdlib Require Import DecimalString DecimalN DecimalPos Sorted Permutation.
Import ListNotations.

Set Warnings "-inexact-float".

Open Scope string_scope.

(* ================================================================= *)
(** ** JavaScript numbers *)

(** The binary64 value nearest to an integer (ties to even). *)
Definition Z2Prim (n : Z) : float :=
  SF2Prim (binary_normalize prec emax n 0 false).

(** The binary64 value nearest to [n * 10^k], for [0 <= n]; [neg] is the
    sign.  This is the rounding ECMAScript applies to a decimal literal. *)
Definition decToFloat (neg : bool) (n : Z) (k : Z) : float :=
  if (n =? 0)%Z then (if neg then neg_zero else zero)
  else if (0 <=? k)%Z then
    SF2Prim (binary_normalize prec emax (cond_Zopp neg (n * 10 ^ k)) 0 false)
  else
    let '(q, e, l) := SFdiv_core_binary prec emax n 0 (10 ^ (- k)) 0 in
    SF2Prim (binary_round_aux prec emax neg q e l).

(** [Math.round]: the nearest integer, ties towards +Infinity; NaN, the
    zeros and the infinities are returned unchanged, and a negative
    argument that rounds to zero gives -0. *)
Definition Math_round (x : float) : float :=
  match Prim2SF x with
  | S754_finite s m e =>
      if (0 <=? e)%Z then x
      else
        let v := cond_Zopp s (Zpos m) in
        let n := ((2 * v + 2 ^ (- e)) / 2 ^ (1 - e))%Z in
        if (n =? 0)%Z then (if s then neg_zero else zero) else Z2Prim n
  | _ => x
  end.

Definition Math_abs (x : float) : float := abs x.

(** [Math.min] of two numbers: NaN if either is NaN, and -0 is below +0. *)
Definition Math_min2 (a b : float) : float :=
  if is_nan a || is_nan b then nan
  else if (a <? b)%float then a
  else if (b <? a)%float then b
  else if get_sign a then a else b.

(** [Math.min(...xs)]; with no argument it is +Infinity. *)
Definition Math_min (xs : list float) : float :=
  fold_left Math_min2 xs infinity.

(** [xs.reduce((p,c) => p + c, 0)]. *)
Definition arraySum (xs : list float) : float :=
  fold_left (fun p c => (p + c)%float) xs zero.

(* ================================================================= *)
(** ** Strings: trimming, parsing and printing numbers *)

(** The white space and the line terminators of ECMAScript, each as the
    bytes of its UTF-8 encoding: TAB, LF, VT, FF, CR and the space; the
    no-break space U+00A0; the space separators U+1680, U+2000 to U+200A,
    U+202F, U+205F and U+3000; the line and paragraph separators U+2028
    and U+2029; and the byte order mark U+FEFF. *)
Definition isWhiteSpace (s : string) : bool :=
  match s with
  | String c EmptyString =>
      let n := nat_of_ascii c in
      ((n =? 32) || ((9 <=? n) && (n <=? 13)))%nat
  | String c (String d EmptyString) =>
      ((nat_of_ascii c =? 194) && (nat_of_ascii d =? 160))%nat
  | String c (String d (String e EmptyString)) =>
      let a := nat_of_ascii c in
      let b := nat_of_ascii d in
      let n := nat_of_ascii e in
      (((a =? 225) && (b =? 154) && (n =? 128))
       || ((a =? 226) && (b =? 128)
           && (((128 <=? n) && (n <=? 138)) || (n =? 168) || (n =? 169) || (n =? 175)))
       || ((a =? 226) && (b =? 129) && (n =? 159))
       || ((a =? 227) && (b =? 128) && (n =? 128))
       || ((a =? 239) && (b =? 187) && (n =? 191)))%nat
  | _ => false
  end.

(** [String.prototype.trimStart]: the white space at the start goes, one
    code point of one, two or three bytes at a time. *)
Fixpoint trimStart (s : string) : string :=
  match s with
  | EmptyString => EmptyString
  | String c r =>
      if isWhiteSpace (String c EmptyString) then trimStart r
      else
        match r with
        | EmptyString => s
        | String d r2 =>
            if isWhiteSpace (String c (String d EmptyString)) then trimStart r2
            else
              match r2 with
              | EmptyString => s
              | String e r3 =>
                  if isWhiteSpace (String c (String d (String e EmptyString)))
                  then trimStart r3
                  else s
              end
        end
  end.

(** [String.prototype.trimEnd]: once what follows a byte is trimmed, the
    byte stays unless it and what is left make up one white-space code
    point. *)
Fixpoint trimEnd (s : string) : string :=
  match s with
  | EmptyString => EmptyString
  | String c r =>
      let t := String c (trimEnd r) in
      if isWhiteSpace t then EmptyString else t
  end.

(** [String.prototype.trim]. *)
Definition trim (s : string) : string := trimEnd (trimStart s).

Definition isDigit (c : ascii) : bool :=
  let n := nat_of_ascii c in ((48 <=? n) && (n <=? 57))%nat.

Definition digitVal (c : ascii) : Z := (Z.of_nat (nat_of_ascii c) - 48)%Z.

Fixpoint spanDigits (s : string) : string * string :=
  match s with
  | String c r =>
      if isDigit c then let '(d, t) := spanDigits r in (String c d, t)
      else (EmptyString, s)
  | EmptyString => (EmptyString, EmptyString)
  end.

Fixpoint digitsValue (acc : Z) (s : string) : Z :=
  match s with
  | EmptyString => acc
  | String c r => digitsValue (10 * acc + digitVal c)%Z r
  end.

(** The value of a digit in the given radix (2, 8 or 16), if it is one. *)
Definition radixDigit (radix : Z) (c : ascii) : option Z :=
  let n := Z.of_nat (nat_of_ascii c) in
  let v := (if (48 <=? n) && (n <=? 57) then n - 48
            else if (97 <=? n) && (n <=? 102) then n - 87
            else if (65 <=? n) && (n <=? 70) then n - 55
            else radix)%Z in
  if (v <? radix)%Z then Some v else None.

Fixpoint radixValue (radix : Z) (acc : Z) (s : string) : option Z :=
  match s with
  | EmptyString => Some acc
  | String c r =>
      match radixDigit radix c with
      | Some v => radixValue radix (radix * acc + v)%Z r
      | None => None
      end
  end.

(** [0x..], [0o..], [0b..] literals (either case of the letter). *)
Definition parseNonDecimal (s : string) : option Z :=
  match s with
  | String "0" (String c (String d r)) =>
      let body := String d r in
      if (c =? "x")%char || (c =? "X")%char then radixValue 16 0 body
      else if (c =? "o")%char || (c =? "O")%char then radixValue 8 0 body
      else if (c =? "b")%char || (c =? "B")%char then radixValue 2 0 body
      else None
  | _ => None
  end.

(** What follows the mantissa: nothing, or [e]/[E], an optional sign and
    at least one digit, up to the end of the string. *)
Definition parseExponent (s : string) : option Z :=
  match s with
  | EmptyString => Some 0%Z
  | String c r =>
      if (c =? "e")%char || (c =? "E")%char then
        let '(neg, r1) :=
          match r with
          | String "+" r' => (false, r')
          | String "-" r' => (true, r')
          | _ => (false, r)
          end in
        match spanDigits r1 with
        | (String _ _ as d, EmptyString) => Some (cond_Zopp neg (digitsValue 0 d))
        | _ => None
        end
      else None
  end.

(** An unsigned decimal literal [ddd], [ddd.ddd], [ddd.], [.ddd] with an
    optional exponent: the integer made of all its digits, and the power
    of ten it is to be multiplied by. *)
Definition parseUnsignedDecimal (s : string) : option (Z * Z) :=
  let '(ip, r) := spanDigits s in
  let '(fp, r2) :=
    match r with
    | String "." r1 => spanDigits r1
    | _ => (EmptyString, r)
    end in
  match ip ++ fp with
  | EmptyString => None
  | ds =>
      match parseExponent r2 with
      | Some e => Some (digitsValue 0 ds, (e - Z.of_nat (String.length fp))%Z)
      | None => None
      end
  end.

(** An optional sign, and what follows it. *)
Definition splitSign (s : string) : bool * string :=
  match s with
  | String "+" r => (false, r)
  | String "-" r => (true, r)
  | _ => (false, s)
  end.

(** [Number(s)] for a string (ECMAScript's StringToNumber): white space is
    trimmed, the empty string is 0, and what is not a numeric literal is
    NaN. *)
Definition StringToNumber (s : string) : float :=
  match trim s with
  | EmptyString => zero
  | t =>
      match parseNonDecimal t with
      | Some n => Z2Prim n
      | None =>
          let '(neg, u) := splitSign t in
          if (u =? "Infinity") then (if neg then neg_infinity else infinity)
          else
            match parseUnsignedDecimal u with
            | Some (m, e) => decToFloat neg m e
            | None => nan
            end
      end
  end.

Definition digitChar (d : Z) : ascii := ascii_of_nat (48 + Z.to_nat d).

(** Exactly [w] decimal digits of [v], most significant first. *)
Fixpoint fixedDigits (w : nat) (v : Z) : string :=
  match w with
  | O => EmptyString
  | S w' => fixedDigits w' (v / 10) ++ String (digitChar (v mod 10)) EmptyString
  end.

(** The decimal digits of a non-negative integer, ["0"] for zero. *)
Definition natString (n : Z) : string :=
  NilZero.string_of_uint (N.to_uint (Z.to_N n)).

(** [n / 10^f] written with [f] digits after the point. *)
Definition fixedPoint (f : nat) (n : Z) : string :=
  let p := (10 ^ Z.of_nat f)%Z in
  match f with
  | O => natString n
  | _ => natString (n / p) ++ "." ++ fixedDigits f (n mod p)
  end.

(** The integer nearest to [m * 2^e * 10^f], the larger one on a tie. *)
Definition scaledRound (m : positive) (e : Z) (f : nat) : Z :=
  let p := (10 ^ Z.of_nat f)%Z in
  if (0 <=? e)%Z then (Zpos m * 2 ^ e * p)%Z
  else ((2 * Zpos m * p + 2 ^ (- e)) / 2 ^ (1 - e))%Z.

(** The shortest decimal digits that denote the float [x], whose exact
    value is the integer [X] of at least 22 digits: the pair [(s, n)] of
    ECMAScript's Number::toString, [s] having as few digits as possible
    with [s * 10^(n - digits s)] rounding to [x], the nearest such [s],
    the even one on a tie. *)
Definition shortestAt (x : float) (X : Z) (n0 : Z) (k : nat) : option (Z * Z) :=
  let p := (10 ^ (n0 - Z.of_nat k))%Z in
  let lo := (X / p)%Z in
  let hi := (lo + 1)%Z in
  let okLo := Leibniz.eqb (Z2Prim (lo * p)) x in
  let okHi := Leibniz.eqb (Z2Prim (hi * p)) x in
  let pick (s : Z) :=
    if (s =? 10 ^ Z.of_nat k)%Z then Some (1%Z, (n0 + 1)%Z) else Some (s, n0) in
  match okLo, okHi with
  | true, true =>
      let dLo := (X - lo * p)%Z in
      let dHi := (hi * p - X)%Z in
      if (dLo <? dHi)%Z then pick lo
      else if (dHi <? dLo)%Z then pick hi
      else if Z.even lo then pick lo else pick hi
  | true, false => pick lo
  | false, true => pick hi
  | false, false => None
  end.

(** The first number of digits, from [k] on, at which some [s] denotes
    [x]; 17 digits always do. *)
Fixpoint shortestFrom (x : float) (X : Z) (n0 : Z) (k : nat) (fuel : nat) : Z * Z :=
  match fuel with
  | O => ((X / 10 ^ (n0 - Z.of_nat k))%Z, n0)
  | S fuel' =>
      match shortestAt x X n0 k with
      | Some r => r
      | None => shortestFrom x X n0 (S k) fuel'
      end
  end.

(** Number::toString for a finite [x >= 1e21] of exact value [X]: the
    digits of [s], a point after the first one if there are several, and
    the exponent [e+(n-1)]. *)
Definition largeToString (x : float) (X : Z) : string :=
  let n0 := Z.of_nat (String.length (natString X)) in
  let '(s, n) := shortestFrom x X n0 1 17 in
  let e := natString (n - 1) in
  match natString s with
  | String d EmptyString => String d ("e+" ++ e)
  | String d ds => String d ("." ++ ds ++ "e+" ++ e)
  | EmptyString => EmptyString
  end.

(** [Number.prototype.toFixed(f)], for [0 <= f <= 100]. *)
Definition Number_toFixed (f : nat) (x : float) : string :=
  match Prim2SF x with
  | S754_nan => "NaN"
  | S754_infinity s => if s then "-Infinity" else "Infinity"
  | S754_zero _ => fixedPoint f 0
  | S754_finite s m e =>
      (if s then "-" else "") ++
      (if (1e21 <=? abs x)%float then largeToString (abs x) (Zpos m * 2 ^ e)
       else fixedPoint f (scaledRound m e f))
  end.

(* ================================================================= *)
(** ** JavaScript values *)

(** The values the program's records hold: what [JSON.parse] and the form
    fields produce, short of nested objects. *)
Inductive JSValue : Type :=
| JUndefined
| JNull
| JBool (b : bool)
| JNum (x : float)
| JStr (s : string).

(** [Number(v)]. *)
Definition Number (v : JSValue) : float :=
  match v with
  | JUndefined => nan
  | JNull => zero
  | JBool b => if b then one else zero
  | JNum x => x
  | JStr s => StringToNumber s
  end.

(** Truthiness: what [!!v], [v ? a : b] and [v || w] test. *)
Definition ToBoolean (v : JSValue) : bool :=
  match v with
  | JUndefined | JNull => false
  | JBool b => b
  | JNum x => negb (is_nan x || is_zero x)
  | JStr s => negb (s =? "")
  end.

(** [v || w]. *)
Definition JOr (v w : JSValue) : JSValue := if ToBoolean v then v else w.

(** [Number.isFinite(v)]: no coercion, so only a finite number passes. *)
Definition Number_isFinite (v : JSValue) : bool :=
  match v with
  | JNum x => is_finite x
  | _ => false
  end.

(* ================================================================= *)
(** ** Helpers of app.js *)

Definition num (v : JSValue) : float :=
  let n := Number v in
  if Number_isFinite (JNum n) then n else zero.

Definition round2 (x : float) : float := (Math_round (x * 100) / 100)%float.

(* ================================================================= *)
(** ** Time averaging and scoring *)

Definition avgOfTimes (t1 t2 t3 : JSValue) : float :=
  let arr :=
    filter (fun v => Number_isFinite (JNum v) && (0 <=? v)%float)
           (map Number [t1; t2; t3]) in
  match arr with
  | [] => zero
  | _ => (arraySum arr / Z2Prim (Z.of_nat (List.length arr)))%float
  end.

(** The fields of a run object that [computeScore] reads. *)
Record RunInput : Type := {
  failedRun : JSValue;
  vehicleDistanceCm : JSValue;
  time1 : JSValue;
  time2 : JSValue;
  time3 : JSValue;
  bucketBonus : JSValue;
  competitionViolationPoints : JSValue;
  constructionViolationPoints : JSValue
}.

Record Breakdown : Type := {
  distCm : float;
  distanceScore : float;
  b_timeAvg : float;
  bucket : float;
  penalties : float;
  failed : bool
}.

Record ScoreResult : Type := {
  total : float;
  timeAvg : float;
  breakdown : Breakdown
}.

Definition computeScore (inp : RunInput) : ScoreResult :=
  let base := 100%float in
  let failed := ToBoolean (failedRun inp) in
  let distCm := if failed then 2500%float else num (vehicleDistanceCm inp) in
  let timeAvg :=
    if failed then zero else avgOfTimes (time1 inp) (time2 inp) (time3 inp) in
  let distanceScore := (2.0 * distCm)%float in
  let timeScore := timeAvg in
  let bucket := if ToBoolean (bucketBonus inp) then (-100)%float else zero in
  let cv := if ToBoolean (competitionViolationPoints inp) then 150%float else zero in
  let conv := if ToBoolean (constructionViolationPoints inp) then 300%float else zero in
  let total := (base + distanceScore + timeScore + bucket + cv + conv)%float in
  {| total := round2 total;
     timeAvg := round2 timeAvg;
     breakdown := {| distCm := round2 distCm;
                     distanceScore := round2 distanceScore;
                     b_timeAvg := round2 timeAvg;
                     bucket := bucket;
                     penalties := (cv + conv)%float;
                     failed := failed |} |}.

(* ================================================================= *)
(** ** Practice summary *)

Definition approxEq (a b t : float) : bool := (Math_abs (a - b) <=? t)%float.

Definition blank : string := "(blank)".

Definition trackKey (m : JSValue) : string :=
  let mm := Number m in
  if negb (Number_isFinite (JNum mm)) || (mm =? 0)%float then blank
  else Number_toFixed 2 mm.

(** The fields of a stored run that the summary reads. *)
Record Run : Type := {
  runId : string;
  user : string;
  targetDistanceM : JSValue;
  score : JSValue;
  carAngleDeg : JSValue;
  dialTurns : JSValue;
  winds : JSValue
}.

(** The degree sign, as its two UTF-8 bytes. *)
Definition degree : string := String "194" (String "176" EmptyString).

Definition setupKey (r : Run) : string :=
  let a := Number_toFixed 1 (Number (JOr (carAngleDeg r) (JNum 0))) in
  let t := Number_toFixed 2 (Number (JOr (dialTurns r) (JNum 0))) in
  let w := Number_toFixed 0 (Number (JOr (winds r) (JNum 0))) in
  a ++ degree ++ " | " ++ t ++ " turns | " ++ w ++ " winds".

(** A [Map] from strings to arrays of runs: its entries in insertion order. *)
Definition RunMap : Type := list (string * list Run).

(** [if (!m.has(k)) m.set(k, []); m.get(k).push(r)]: a new key goes last,
    an existing key keeps its place and its array grows at the end. *)
Fixpoint pushTo (k : string) (r : Run) (m : RunMap) : RunMap :=
  match m with
  | [] => [(k, [r])]
  | (k', rs) :: m' =>
      if (k' =? k) then (k', (rs ++ [r])%list) :: m' else (k', rs) :: pushTo k r m'
  end.

Definition groupBy (key : Run -> string) (runs : list Run) : RunMap :=
  fold_left (fun m r => pushTo (key r) r m) runs [].

Fixpoint mapGet (k : string) (m : RunMap) : list Run :=
  match m with
  | [] => []
  | (k', rs) :: m' => if (k' =? k) then rs else mapGet k m'
  end.

(** [Array.prototype.sort] with a comparator: the stable sort, an element
    moving behind those the comparator puts it after (a positive result).
    For a consistent comparator this is the order ECMAScript prescribes. *)
Fixpoint insertBy {A : Type} (cmp : A -> A -> float) (x : A) (l : list A) : list A :=
  match l with
  | [] => [x]
  | y :: l' => if (0 <? cmp x y)%float then y :: insertBy cmp x l' else x :: l
  end.

Definition sortBy {A : Type} (cmp : A -> A -> float) (l : list A) : list A :=
  fold_right (insertBy cmp) [] l.

(** The comparator of the track keys. *)
Definition trackCompare (a b : string) : float :=
  if (a =? blank) then 1%float
  else if (b =? blank) then (-1)%float
  else (Number (JStr a) - Number (JStr b))%float.

(** [rs.map(x => Number(x.score)).filter(Number.isFinite)]. *)
Definition finiteScores (rs : list Run) : list float :=
  filter (fun v => Number_isFinite (JNum v)) (map (fun x => Number (score x)) rs).

Definition lengthNum {A : Type} (l : list A) : float := Z2Prim (Z.of_nat (List.length l)).

(** The running best of the loop over the setups of one track group. *)
Record Best : Type := {
  bestSetupAvg : string;
  bestAvgVal : float;
  bestSetupSingle : string;
  bestSingleVal : float
}.

Definition initBest : Best :=
  {| bestSetupAvg := ""; bestAvgVal := infinity;
     bestSetupSingle := ""; bestSingleVal := infinity |}.

Definition avgLabel (sk : string) (sAvg : float) (n : nat) : string :=
  sk ++ " (avg " ++ Number_toFixed 2 (round2 sAvg) ++ "; n=" ++
  natString (Z.of_nat n) ++ ")".

Definition singleLabel (sk : string) (sBest : float) : string :=
  sk ++ " (best " ++ Number_toFixed 2 (round2 sBest) ++ ")".

(** One iteration of [for (const [sk, sRuns] of bySetup.entries())]. *)
Definition setupStep (b : Best) (entry : string * list Run) : Best :=
  let '(sk, sRuns) := entry in
  let ss := finiteScores sRuns in
  match ss with
  | [] => b
  | _ =>
      let sAvg := (arraySum ss / lengthNum ss)%float in
      let sBest := Math_min ss in
      let b1 :=
        if (sAvg <? bestAvgVal b)%float then
          {| bestSetupAvg := avgLabel sk sAvg (List.length ss);
             bestAvgVal := sAvg;
             bestSetupSingle := bestSetupSingle b;
             bestSingleVal := bestSingleVal b |}
        else b in
      if (sBest <? bestSingleVal b1)%float then
        {| bestSetupAvg := bestSetupAvg b1;
           bestAvgVal := bestAvgVal b1;
           bestSetupSingle := singleLabel sk sBest;
           bestSingleVal := sBest |}
      else b1
  end.

Definition rankSetups (bySetup : RunMap) : Best :=
  fold_left setupStep bySetup initBest.

Record SummaryRow : Type := {
  trackGroupM : string;
  runsCount : nat;
  avgScore : JSValue;
  bestScore : JSValue;
  bestSetupByAvg : string;
  bestSetupBySingle : string
}.

(** The body of [for (const k of keys)]: the summary row of track [k],
    and the cells of its table row. *)
Definition trackRow (byTrack : RunMap) (k : string) : SummaryRow * list string :=
  let rs := mapGet k byTrack in
  let scores := finiteScores rs in
  let n := List.length scores in
  let avg := match scores with [] => nan | _ => (arraySum scores / lengthNum scores)%float end in
  let best := match scores with [] => nan | _ => Math_min scores end in
  let bySetup := groupBy setupKey rs in
  let b := rankSetups bySetup in
  let avgOk := Number_isFinite (JNum avg) in
  let bestOk := Number_isFinite (JNum best) in
  ({| trackGroupM := k;
      runsCount := n;
      avgScore := if avgOk then JNum (round2 avg) else JStr "";
      bestScore := if bestOk then JNum (round2 best) else JStr "";
      bestSetupByAvg := bestSetupAvg b;
      bestSetupBySingle := bestSetupSingle b |},
   [ k; natString (Z.of_nat n);
     if avgOk then Number_toFixed 2 (round2 avg) else "";
     if bestOk then Number_toFixed 2 (round2 best) else "";
     bestSetupAvg b; bestSetupSingle b ]).

(** What [renderPracticeSummary] reads: the two filter fields, the
    signed-in user and the stored runs. *)
Record Page : Type := {
  filterTrackM : string;
  filterToleranceM : string;
  currentUser : string;
  storedRuns : list Run
}.

(** What it writes: the message, the table body and
    [window.__practiceSummary]. *)
Record PracticeView : Type := {
  practiceMsg : string;
  practiceTable : list (list string);
  practiceSummary : list SummaryRow
}.

Definition getUserRuns (u : string) (all : list Run) : list Run :=
  filter (fun r => (user r =? u)) all.

Definition nonEmpty (s : string) : bool := negb (s =? "").

(** The runs left by the filter of [renderPracticeSummary]. *)
Definition filterRuns (targetStr tolStr : string) (runs : list Run) : list Run :=
  let tol := if nonEmpty tolStr then Some (num (JStr tolStr)) else None in
  if nonEmpty targetStr then
    let t := num (JStr targetStr) in
    match tol with
    | Some tl =>
        if (0 <? tl)%float then
          filter (fun r => Number_isFinite (targetDistanceM r) &&
                           approxEq (num (targetDistanceM r)) t tl) runs
        else
          filter (fun r => Number_isFinite (targetDistanceM r) &&
                           approxEq (num (targetDistanceM r)) t 0.005) runs
    | None =>
        filter (fun r => Number_isFinite (targetDistanceM r) &&
                         approxEq (num (targetDistanceM r)) t 0.005) runs
    end
  else runs.

Definition noMatchMsg : string := "No runs match this filter.".

Definition showingMsg (n : nat) : string :=
  "Showing " ++ natString (Z.of_nat n) ++ " run(s).".

Definition renderPracticeSummary (pg : Page) : PracticeView :=
  let targetStr := trim (filterTrackM pg) in
  let tolStr := trim (filterToleranceM pg) in
  let runs := filterRuns targetStr tolStr (getUserRuns (currentUser pg) (storedRuns pg)) in
  match runs with
  | [] => {| practiceMsg := noMatchMsg; practiceTable := []; practiceSummary := [] |}
  | _ =>
      let byTrack := groupBy (fun r => trackKey (targetDistanceM r)) runs in
      let keys := sortBy trackCompare (map fst byTrack) in
      let rows := map (trackRow byTrack) keys in
      {| practiceMsg := showingMsg (List.length runs);
         practiceTable := map snd rows;
         practiceSummary := map fst rows |}
  end.





(* ================================================================= *)
(** ** Meet *)

Record MeetRow : Type := {
  team : string;
  notImpounded : JSValue;
  run1 : RunInput;
  run2 : RunInput
}.

Definition meetRunScore (run : RunInput) : float * float :=
  let sc := computeScore run in (total sc, timeAvg sc).

(** What [renderMeet] computes and shows for one row: the two scored runs,
    the best of the two and the final score. *)
Record MeetLine : Type := {
  m_r1 : float * float;
  m_r2 : float * float;
  m_bestOf2 : float;
  m_final : float
}.

Definition impoundPenalty (row : MeetRow) : float :=
  if ToBoolean (notImpounded row) then 5000%float else zero.

Definition renderMeetRow (row : MeetRow) : MeetLine :=
  let r1 := meetRunScore (run1 row) in
  let r2 := meetRunScore (run2 row) in
  let bestOf2 := Math_min [fst r1; fst r2] in
  let final := (bestOf2 + impoundPenalty row)%float in
  {| m_r1 := r1; m_r2 := r2; m_bestOf2 := bestOf2; m_final := final |}.

Definition renderMeet (rows : list MeetRow) : list MeetLine := map renderMeetRow rows.

(* ================================================================= *)
(** * Vocabulary of the properties *)

(** ** Scoring *)

(** A run object with the given distance, times and flags. *)
Definition scoreInput (dist t1 t2 t3 : JSValue) (bucketF cvF convF failedF : bool) : RunInput :=
  {| failedRun := JBool failedF;
     vehicleDistanceCm := dist;
     time1 := t1; time2 := t2; time3 := t3;
     bucketBonus := JBool bucketF;
     competitionViolationPoints := JBool cvF;
     constructionViolationPoints := JBool convF |}.

(** The distance and the time average that enter the score. *)
Definition distanceUsed (inp : RunInput) : float :=
  if ToBoolean (failedRun inp) then 2500%float else num (vehicleDistanceCm inp).

Definition timeAverage (inp : RunInput) : float :=
  if ToBoolean (failedRun inp) then zero
  else avgOfTimes (time1 inp) (time2 inp) (time3 inp).

(** The run object [inp] with other measurements: distance and times. *)
Definition withMeasurements (inp : RunInput) (dist t1 t2 t3 : JSValue) : RunInput :=
  {| failedRun := failedRun inp;
     vehicleDistanceCm := dist;
     time1 := t1; time2 := t2; time3 := t3;
     bucketBonus := bucketBonus inp;
     competitionViolationPoints := competitionViolationPoints inp;
     constructionViolationPoints := constructionViolationPoints inp |}.

(** [k] is the integer nearest to the finite number [y], the larger one
    on a tie: [k - 1/2 <= y < k + 1/2], for [y] of value [v * 2^e]. *)
Definition nearestInteger (y : float) (k : Z) : Prop :=
  match Prim2SF y with
  | S754_zero _ => k = 0%Z
  | S754_finite s m e =>
      let v := cond_Zopp s (Zpos m) in
      if (0 <=? e)%Z then k = (v * 2 ^ e)%Z
      else ((2 * k - 1) * 2 ^ (- e) <= 2 * v < (2 * k + 1) * 2 ^ (- e))%Z
  | _ => False
  end.

(** A distance field is missing when it is [undefined], [null], the empty
    string, or anything that does not convert to a finite number. *)
Definition distanceMissing (v : JSValue) : Prop :=
  v = JUndefined \/ v = JNull \/ v = JStr "" \/ is_finite (Number v) = false.

(** ** Filter and summary *)

(** The tolerance the filter works with: the one typed in when it is a
    number above 0, the default 0.005 otherwise. *)
Definition effectiveTolerance (tolStr : string) : float :=
  if nonEmpty tolStr && (0 <? num (JStr tolStr))%float then num (JStr tolStr)
  else 0.005%float.

(** A run whose [targetDistanceM] is a finite number [x] with
    [-tol <= x - t <= tol]. *)
Definition inTolerance (t tol : float) (r : Run) : bool :=
  match targetDistanceM r with
  | JNum x => is_finite x && (- tol <=? x - t)%float && (x - t <=? tol)%float
  | _ => false
  end.

(** The runs [renderPracticeSummary] works on: those of the signed-in user
    that pass the filter. *)
Definition keptRuns (pg : Page) : list Run :=
  filterRuns (trim (filterTrackM pg)) (trim (filterToleranceM pg))
             (getUserRuns (currentUser pg) (storedRuns pg)).


(** What is shown when no run is left. *)
Definition emptyView : PracticeView :=
  {| practiceMsg := noMatchMsg; practiceTable := []; practiceSummary := [] |}.

(** The page of user [u] with the given filter fields and stored runs. *)
Definition pageOf (tgt tol : string) (runs : list Run) : Page :=
  {| filterTrackM := tgt; filterToleranceM := tol; currentUser := "u"; storedRuns := runs |}.

(** A run of user [u] at target distance [t]. *)
Definition trackRun (i : string) (t : JSValue) : Run :=
  {| runId := i; user := "u"; targetDistanceM := t; score := JNum 700;
     carAngleDeg := JNum 0; dialTurns := JNum 0; winds := JNum 0 |}.

(** A run of user [u] at target 5 with the given score and car angle. *)
Definition scoredRun (i : string) (sc a : float) : Run :=
  {| runId := i; user := "u"; targetDistanceM := JNum 5; score := JNum sc;
     carAngleDeg := JNum a; dialTurns := JNum 0; winds := JNum 0 |}.

(** A run of user [u] with the given setup. *)
Definition setupRun (a t w : float) : Run :=
  {| runId := "r"; user := "u"; targetDistanceM := JNum 5; score := JNum 700;
     carAngleDeg := JNum a; dialTurns := JNum t; winds := JNum w |}.

Definition trackOf (r : Run) : string := trackKey (targetDistanceM r).

(** The track keys of the summary, in its order. *)
Definition summaryKeys (pg : Page) : list string :=
  map trackGroupM (practiceSummary (renderPracticeSummary pg)).

(** [Number(k)] for a key. *)
Definition keyNum (k : string) : float := Number (JStr k).

(** A key is the sentinel or reads as a number. *)
Definition okKey (k : string) : Prop := k = blank \/ is_nan (keyNum k) = false.

(** The order of the summary: the sentinel after every other key, the
    others by the numbers they read as. *)
Definition keyOrder (a b : string) : Prop :=
  a <> blank /\ (b = blank \/ (keyNum a <=? keyNum b)%float = true).

(** The three parts of a setup key. *)
Definition roundedAngle (r : Run) : string :=
  Number_toFixed 1 (Number (JOr (carAngleDeg r) (JNum 0))).
Definition roundedTurns (r : Run) : string :=
  Number_toFixed 2 (Number (JOr (dialTurns r) (JNum 0))).
Definition roundedWinds (r : Run) : string :=
  Number_toFixed 0 (Number (JOr (winds r) (JNum 0))).

(** What [toFixed(f)] rounds a number to, when it prints it in fixed
    notation: the sign it prints and the nearest integer number of
    [10^-f]. *)
Definition roundedValue (f : nat) (x : float) : option (bool * Z) :=
  match Prim2SF x with
  | S754_zero _ => Some (false, 0%Z)
  | S754_finite s m e =>
      if (1e21 <=? abs x)%float then None else Some (s, scaledRound m e f)
  | _ => None
  end.

(** ** Ranking *)

(** [c] is the first element of [l] with the lowest value: no element has
    a value below that of [c], and none before [c] has a value as low. *)
Definition firstLowest {A : Type} (val : A -> float) (l : list A) (c : A) : Prop :=
  exists pre post,
    l = (pre ++ c :: post)%list
    /\ (forall d, In d l -> (val d <? val c)%float = false)
    /\ (forall d, In d pre -> (val d <=? val c)%float = false).

(** The loop body [if (v < bestVal) { bestVal = v; best = label; }]. *)
Definition stepMin {A : Type} (val : A -> float) (lab : A -> string)
           (p : string * float) (c : A) : string * float :=
  if (val c <? snd p)%float then (lab c, val c) else p.

(** What the loop computes for a setup that has a finite score: its key,
    the mean and the minimum of its finite scores, and their number. *)
Record SetupStat : Type := {
  st_key : string;
  st_avg : float;
  st_best : float;
  st_n : nat
}.

Definition setupStat (entry : string * list Run) : option SetupStat :=
  match finiteScores (snd entry) with
  | [] => None
  | ss => Some {| st_key := fst entry;
                  st_avg := (arraySum ss / lengthNum ss)%float;
                  st_best := Math_min ss;
                  st_n := List.length ss |}
  end.

(** The setups the ranking considers, in the order of the [Map]. *)
Definition setupStats (bySetup : RunMap) : list SetupStat :=
  flat_map (fun e => match setupStat e with Some c => [c] | None => [] end) bySetup.

(** The runs of a group that have the setup key [k]. *)
Definition setupRuns (rs : list Run) (k : string) : list Run :=
  filter (fun r => setupKey r =? k) rs.

Definition avgStep : string * float -> SetupStat -> string * float :=
  stepMin st_avg (fun c => avgLabel (st_key c) (st_avg c) (st_n c)).

Definition singleStep : string * float -> SetupStat -> string * float :=
  stepMin st_best (fun c => singleLabel (st_key c) (st_best c)).

(** ** Characters of printed numbers *)

Fixpoint allChars (P : ascii -> bool) (s : string) : bool :=
  match s with
  | EmptyString => true
  | String c r => P c && allChars P r
  end.

(** Printable, and not a space. *)
Definition isGraph (c : ascii) : bool :=
  let n := nat_of_ascii c in ((33 <=? n) && (n <=? 126))%nat.

(** What a number printed in fixed or exponent notation is made of. *)
Definition isNumChar (c : ascii) : bool :=
  isDigit c || (c =? ".")%char || (c =? "e")%char || (c =? "+")%char || (c =? "-")%char.

(** A string that starts with something else than a digit, if it starts. *)
Definition noDigitAhead (r : string) : Prop :=
  match r with
  | EmptyString => True
  | String c _ => isDigit c = false
  end.

(** An exponent part, as [toString] prints it. *)
Definition expPart (E : option string) : string :=
  match E with
  | None => EmptyString
  | Some e => "e+" ++ e
  end.

Definition expOk (E : option string) : Prop :=
  match E with
  | None => True
  | Some e => allChars isDigit e = true /\ e <> ""
  end.

(** ** The order of binary64 values, on their specification *)

Definition SFlt (x y : spec_float) : Prop := SFcompare x y = Some Lt.
Definition SFle (x y : spec_float) : Prop :=
  SFcompare x y = Some Lt \/ SFcompare x y = Some Eq.

(* ================================================================= *)
(** * The rest of the program *)

(* ================================================================= *)
(** ** Converting values to strings *)

(** [N / D * 10^k] as a fraction. *)
Definition scaleByPow10 (N D k : Z) : Z * Z :=
  if (0 <=? k)%Z then ((N * 10 ^ k)%Z, D) else (N, (D * 10 ^ (- k))%Z).

(** The [n] with [10^(n-1) <= N / D < 10^n], for positive [N] and [D]. *)
Definition decimalExponent (N D : Z) : Z :=
  let n := (Z.of_nat (String.length (natString N)) -
            Z.of_nat (String.length (natString D)))%Z in
  let '(A, B) := scaleByPow10 N D (- n) in
  if (B <=? A)%Z then (n + 1)%Z else n.

(** The digits of Number::toString for a finite positive [x] of exact value
    [N / D], tried with [k] digits: the pair [(s, n)] with
    [s * 10^(n - k)] rounding to [x], the nearest such [s], the even one on
    a tie; [None] when [k] digits are too few. *)
Definition digitsAt (x : float) (N D : Z) (n0 : Z) (k : nat) : option (Z * Z) :=
  let '(A, B) := scaleByPow10 N D (Z.of_nat k - n0) in
  let lo := (A / B)%Z in
  let hi := (lo + 1)%Z in
  let okLo := Leibniz.eqb (decToFloat false lo (n0 - Z.of_nat k)) x in
  let okHi := Leibniz.eqb (decToFloat false hi (n0 - Z.of_nat k)) x in
  let pick (s : Z) :=
    if (s =? 10 ^ Z.of_nat k)%Z then Some (1%Z, (n0 + 1)%Z) else Some (s, n0) in
  match okLo, okHi with
  | true, true =>
      let dLo := (A - lo * B)%Z in
      let dHi := (hi * B - A)%Z in
      if (dLo <? dHi)%Z then pick lo
      else if (dHi <? dLo)%Z then pick hi
      else if Z.even lo then pick lo else pick hi
  | true, false => pick lo
  | false, true => pick hi
  | false, false => None
  end.

(** The first number of digits, from [k] on, that denotes [x]; 17 digits
    always do. *)
Fixpoint digitsFrom (x : float) (N D : Z) (n0 : Z) (k : nat) (fuel : nat) : Z * Z :=
  match fuel with
  | O => let '(A, B) := scaleByPow10 N D (Z.of_nat k - n0) in ((A / B)%Z, n0)
  | S fuel' =>
      match digitsAt x N D n0 k with
      | Some r => r
      | None => digitsFrom x N D n0 (S k) fuel'
      end
  end.

Fixpoint zeros (n : nat) : string :=
  match n with O => EmptyString | S n' => String "0" (zeros n') end.

(** [String(x)] for a number (ECMAScript's Number::toString, radix 10):
    the shortest digits that read back as [x], in positional notation when
    the decimal exponent [n] is between -5 and 21, in exponent notation
    otherwise. *)
Definition Number_toString (x : float) : string :=
  match Prim2SF x with
  | S754_nan => "NaN"
  | S754_zero _ => "0"
  | S754_infinity s => if s then "-Infinity" else "Infinity"
  | S754_finite s m e =>
      let '(N, D) := if (0 <=? e)%Z then ((Zpos m * 2 ^ e)%Z, 1%Z)
                     else (Zpos m, (2 ^ (- e))%Z) in
      let n0 := decimalExponent N D in
      let '(sd, n) := digitsFrom (abs x) N D n0 1 17 in
      let ds := natString sd in
      let k := Z.of_nat (String.length ds) in
      (if s then "-" else "") ++
      (if (k <=? n)%Z && (n <=? 21)%Z then ds ++ zeros (Z.to_nat (n - k))
       else if (0 <? n)%Z && (n <=? 21)%Z then
         substring 0 (Z.to_nat n) ds ++ "." ++
         substring (Z.to_nat n) (Z.to_nat (k - n)) ds
       else if (-6 <? n)%Z && (n <=? 0)%Z then "0." ++ zeros (Z.to_nat (- n)) ++ ds
       else
         let e1 := (n - 1)%Z in
         let es := (if (e1 <? 0)%Z then "-" else "+") ++ natString (Z.abs e1) in
         match ds with
         | String d EmptyString => String d ("e" ++ es)
         | String d r => String d ("." ++ r ++ "e" ++ es)
         | EmptyString => EmptyString
         end)
  end.


(** [String(v)]. *)
Definition ToString (v : JSValue) : string :=
  match v with
  | JUndefined => "undefined"
  | JNull => "null"
  | JBool b => if b then "true" else "false"
  | JNum x => Number_toString x
  | JStr s => s
  end.

(** [v ?? w]. *)
Definition nullish (v w : JSValue) : JSValue :=
  match v with
  | JUndefined | JNull => w
  | _ => v
  end.

(* ================================================================= *)
(** ** CSV *)

Definition dquote : ascii := "034".
Definition comma : ascii := ",".
Definition newline : ascii := "010".

(** The test of [esc]: the text holds a double quote, a comma or a line
    feed. *)
Fixpoint needsQuoting (s : string) : bool :=
  match s with
  | EmptyString => false
  | String c r =>
      (c =? dquote)%char || (c =? comma)%char || (c =? newline)%char || needsQuoting r
  end.

(** The replacement of [esc]: every double quote is written twice. *)
Fixpoint doubleQuotes (s : string) : string :=
  match s with
  | EmptyString => EmptyString
  | String c r =>
      if (c =? dquote)%char then String dquote (String dquote (doubleQuotes r))
      else String c (doubleQuotes r)
  end.

(** The text of a cell: [String] of the value, of the empty string for
    [undefined] and [null]. *)
Definition cellText (v : JSValue) : string := ToString (nullish v (JStr "")).

(** The inner function [esc] of [toCSV]. *)
Definition esc (v : JSValue) : string :=
  let s := cellText v in
  if needsQuoting s then String dquote (doubleQuotes s ++ String dquote EmptyString)
  else s.

(** [esc], on the text of the cell. *)
Definition escText (s : string) : string :=
  if needsQuoting s then String dquote (doubleQuotes s ++ String dquote EmptyString)
  else s.

(** [l.join(sep)], for an array of strings. *)
Fixpoint join (sep : string) (l : list string) : string :=
  match l with
  | [] => EmptyString
  | [x] => x
  | x :: r => x ++ sep ++ join sep r
  end.

(** [toCSV(rows, headers)]; a row is given by what [row[h]] evaluates to. *)
Definition toCSV (rows : list (string -> JSValue)) (headers : list string) : string :=
  let lines :=
    join "," (map (fun h => esc (JStr h)) headers)
    :: map (fun row => join "," (map (fun h => esc (row h)) headers)) rows in
  join (String newline EmptyString) lines.

(** The texts of the cells of the rows, line by line. *)
Definition cellTexts (rows : list (string -> JSValue)) (headers : list string)
  : list (list string) :=
  map (fun row => map (fun h => cellText (row h)) headers) rows.

(** [r] is what may follow a cell: nothing, a comma or a line feed. *)
Definition cellEnd (r : string) : Prop :=
  match r with
  | EmptyString => True
  | String c _ => c = comma \/ c = newline
  end.

(** [r] is what may follow a line: nothing or a line feed. *)
Definition lineEnd (r : string) : Prop :=
  match r with
  | EmptyString => True
  | String c _ => c = newline
  end.

(** A line of the file: the escaped cells, joined by commas. *)
Definition csvLine (cells : list string) : string := join "," (map escText cells).

(* ================================================================= *)
(** ** Base64 and the account store *)

(** [btoa] and [atob] work on binary strings: every character is one code
    unit below 256, here one [ascii]. *)

(** The character of a 6-bit value in the base64 alphabet. *)
Definition b64Char (n : N) : ascii :=
  ascii_of_N (if n <? 26 then 65 + n
              else if n <? 52 then 71 + n
              else if n <? 62 then n - 4
              else if n =? 62 then 43 else 47)%N.

(** The 6-bit value of a character of the alphabet. *)
Definition b64Val (c : ascii) : option N :=
  let n := N_of_ascii c in
  (if (65 <=? n) && (n <=? 90) then Some (n - 65)
   else if (97 <=? n) && (n <=? 122) then Some (n - 71)
   else if (48 <=? n) && (n <=? 57) then Some (n + 4)
   else if n =? 43 then Some 62
   else if n =? 47 then Some 63
   else None)%N.

(** The 6-bit groups of a binary string; the last group is filled up with
    zero bits. *)
Fixpoint sextets (s : string) : list N :=
  match s with
  | String a (String b (String c r)) =>
      let '(x, y, z) := (N_of_ascii a, N_of_ascii b, N_of_ascii c) in
      (x / 4 :: (x mod 4) * 16 + y / 16 :: (y mod 16) * 4 + z / 64 :: z mod 64
         :: sextets r)%N
  | String a (String b EmptyString) =>
      let '(x, y) := (N_of_ascii a, N_of_ascii b) in
      [x / 4; (x mod 4) * 16 + y / 16; (y mod 16) * 4]%N
  | String a EmptyString =>
      let x := N_of_ascii a in [x / 4; (x mod 4) * 16]%N
  | EmptyString => []
  end.

Definition padding (s : string) : string :=
  match (String.length s mod 3)%nat with
  | 1%nat => "=="
  | 2%nat => "="
  | _ => ""
  end.

(** [btoa(s)]: base64 with padding. *)
Definition btoa (s : string) : string :=
  string_of_list_ascii (map b64Char (sextets s)) ++ padding s.

(** TAB, LF, FF, CR and the space. *)
Definition isAsciiWhitespace (c : ascii) : bool :=
  let n := nat_of_ascii c in
  ((n =? 9) || (n =? 10) || (n =? 12) || (n =? 13) || (n =? 32))%nat.

Fixpoint removeWhitespace (s : string) : string :=
  match s with
  | EmptyString => EmptyString
  | String c r =>
      if isAsciiWhitespace c then removeWhitespace r else String c (removeWhitespace r)
  end.

(** A string without its last character. *)
Fixpoint dropLast (s : string) : string :=
  match s with
  | EmptyString => EmptyString
  | String c EmptyString => EmptyString
  | String c r => String c (dropLast r)
  end.

Fixpoint lastChar (s : string) : option ascii :=
  match s with
  | EmptyString => None
  | String c EmptyString => Some c
  | String c r => lastChar r
  end.

Definition endsWithEq (s : string) : bool :=
  match lastChar s with
  | Some c => (c =? "=")%char
  | None => false
  end.

(** When the length is a multiple of 4, one or two [=] at the end are
    removed. *)
Definition stripPadding (s : string) : string :=
  if (String.length s mod 4 =? 0)%nat then
    if endsWithEq s then
      let s1 := dropLast s in
      if endsWithEq s1 then dropLast s1 else s1
    else s
  else s.

Fixpoint sextetValues (s : string) : option (list N) :=
  match s with
  | EmptyString => Some []
  | String c r =>
      match b64Val c, sextetValues r with
      | Some v, Some l => Some (v :: l)
      | _, _ => None
      end
  end.

(** The bytes of a run of 6-bit groups: three for every four groups; of a
    last group of two or three, the bits that do not fill a byte are
    dropped. *)
Fixpoint fromSextets (l : list N) : string :=
  match l with
  | a :: b :: c :: d :: r =>
      let n := (((a * 64 + b) * 64 + c) * 64 + d)%N in
      String (ascii_of_N (n / 65536))
        (String (ascii_of_N ((n / 256) mod 256))
           (String (ascii_of_N (n mod 256)) (fromSextets r)))
  | [a; b; c] =>
      let n := (((a * 64 + b) * 64 + c) / 4)%N in
      String (ascii_of_N (n / 256)) (String (ascii_of_N (n mod 256)) EmptyString)
  | [a; b] =>
      String (ascii_of_N ((a * 64 + b) / 16)) EmptyString
  | _ => EmptyString
  end.

(** [atob(s)] (the forgiving base64 decoding of the HTML standard); [None]
    when it throws. *)
Definition atob (s : string) : option string :=
  let d := stripPadding (removeWhitespace s) in
  if (String.length d mod 4 =? 1)%nat then None
  else option_map fromSextets (sextetValues d).

(** [bytes] is a [Uint8Array]. *)
Definition bytesToB64 (bytes : list Byte.byte) : string :=
  btoa (string_of_list_byte bytes).

Definition b64ToBytes (b64 : string) : option (list Byte.byte) :=
  option_map list_byte_of_string (atob b64).

(** The encoded part of [btoa(s)], before the padding. *)
Definition b64Body (s : string) : string :=
  string_of_list_ascii (map b64Char (sextets s)).

(** Neither white space nor the padding character. *)
Definition b64Ok (c : ascii) : bool :=
  negb (isAsciiWhitespace c) && negb (c =? "=")%char.

(** A record of the object kept under [scrambler_users_v3]. *)
Record UserRec : Type := {
  saltB64 : string;
  hashB64 : string;
  createdAt : string
}.

(** The users object, as [getUsers] reads it: its own properties. *)
Definition Users : Type := list (string * UserRec).

(** The properties every object inherits from [Object.prototype]. *)
Definition objectPrototypeKeys : list string :=
  [ "constructor"; "__defineGetter__"; "__defineSetter__"; "hasOwnProperty";
    "__lookupGetter__"; "__lookupSetter__"; "isPrototypeOf";
    "propertyIsEnumerable"; "toString"; "valueOf"; "__proto__";
    "toLocaleString" ].

Definition inStrings (k : string) (l : list string) : bool :=
  existsb (String.eqb k) l.

Fixpoint ownUser (users : Users) (name : string) : option UserRec :=
  match users with
  | [] => None
  | (k, u) :: rest => if (k =? name) then Some u else ownUser rest name
  end.

(** What [users[name]] evaluates to: a stored record, something inherited
    from the prototype (a function, or the prototype itself), or
    [undefined]. *)
Inductive Found : Type :=
| Own (u : UserRec)
| Inherited
| Missing.

Definition getUser (users : Users) (name : string) : Found :=
  match ownUser users name with
  | Some u => Own u
  | None => if inStrings name objectPrototypeKeys then Inherited else Missing
  end.

(** An array index, as a property name: the decimal numeral, without a
    leading zero, of an integer from 0 to 2^32 - 2. *)
Definition arrayIndex (name : string) : option Z :=
  match name with
  | EmptyString => None
  | String c r =>
      if allChars isDigit name && (negb (c =? "0")%char || (r =? ""))
      then
        let n := digitsValue 0 name in
        if (n <=? 4294967294)%Z then Some n else None
      else None
  end.

(** An own property gets a new value, in its place. *)
Fixpoint replaceUser (users : Users) (name : string) (u : UserRec) : Users :=
  match users with
  | [] => []
  | (k, v) :: rest =>
      if (k =? name) then (k, u) :: rest else (k, v) :: replaceUser rest name u
  end.

(** A new property whose name is the array index [n] goes before the
    first property that is not an array index below [n]. *)
Fixpoint insertIndex (users : Users) (n : Z) (name : string) (u : UserRec) : Users :=
  match users with
  | [] => [(name, u)]
  | (k, v) :: rest =>
      match arrayIndex k with
      | Some m =>
          if (m <? n)%Z then (k, v) :: insertIndex rest n name u
          else (name, u) :: users
      | None => (name, u) :: users
      end
  end.

(** [users[name] = u]: an own property is overwritten; a new one is added
    after the others, unless its name is an array index: the array indices
    come first in the order of an object's keys, in ascending order. *)
Definition setUser (users : Users) (name : string) (u : UserRec) : Users :=
  match ownUser users name with
  | Some _ => replaceUser users name u
  | None =>
      match arrayIndex name with
      | Some n => insertIndex users n name u
      | None => (users ++ [(name, u)])%list
      end
  end.

Definition usernameExists : string := "That username already exists.".

Section Accounts.

(** The key derivation, [crypto.subtle]'s PBKDF2: some function of the
    password and the salt. *)
Variable pbkdf2Hash : string -> list Byte.byte -> list Byte.byte.

(** [createUser(username, password)], given the 16 random bytes of the salt
    and the time stamp: the message of the error thrown, or the users
    object handed to [setUsers]. *)
Definition createUser (users : Users) (username password : string)
           (salt : list Byte.byte) (now : string) : string + Users :=
  match getUser users username with
  | Missing =>
      let hash := pbkdf2Hash password salt in
      inr (setUser users username
             {| saltB64 := bytesToB64 salt;
                hashB64 := bytesToB64 hash;
                createdAt := now |})
  | _ => inl usernameExists
  end.

(** [verifyUser(username, password)]; [None] when [atob] throws.  What the
    prototype provides has no [saltB64], and [atob(undefined)] decodes the
    string ["undefined"]. *)
Definition verifyUser (users : Users) (username password : string) : option bool :=
  match getUser users username with
  | Missing => Some false
  | Own u =>
      match b64ToBytes (saltB64 u) with
      | Some salt => Some (bytesToB64 (pbkdf2Hash password salt) =? hashB64 u)
      | None => None
      end
  | Inherited =>
      match b64ToBytes "undefined" with
      | Some salt => Some false
      | None => None
      end
  end.

End Accounts.

(** A stand-in for the key derivation, to run the account functions on an
    example: the bytes of the password followed by the salt. *)
Definition demoHash (password : string) (salt : list Byte.byte) : list Byte.byte :=
  (list_byte_of_string password ++ salt)%list.

(** A property whose name is an array index below [n]. *)
Definition indexBelow (n : Z) (kv : string * UserRec) : bool :=
  match arrayIndex (fst kv) with
  | Some m => (m <? n)%Z
  | None => false
  end.

(** No array index among the names. *)
Definition namedOnly (users : Users) : bool :=
  forallb (fun kv => match arrayIndex (fst kv) with Some _ => false | None => true end)
          users.

(** The order of the keys of an object: the array indices, ascending from
    above [lo], then the other names. *)
Fixpoint keyOrderedFrom (lo : Z) (users : Users) : bool :=
  match users with
  | [] => true
  | (k, _) :: rest =>
      match arrayIndex k with
      | Some m => (lo <? m)%Z && keyOrderedFrom m rest
      | None => namedOnly rest
      end
  end.

Definition keyOrdered (users : Users) : bool := keyOrderedFrom (-1) users.

(* ================================================================= *)
(** ** The count-down timers *)

(** [Math.floor]. *)
Definition Math_floor (x : float) : float :=
  match Prim2SF x with
  | S754_finite s m e =>
      if (0 <=? e)%Z then x
      else
        let n := (cond_Zopp s (Zpos m) / 2 ^ (- e))%Z in
        if (n =? 0)%Z then zero else Z2Prim n
  | _ => x
  end.

(** [Math.ceil]; a negative argument above -1 gives -0. *)
Definition Math_ceil (x : float) : float :=
  match Prim2SF x with
  | S754_finite s m e =>
      if (0 <=? e)%Z then x
      else
        let n := (- ((- cond_Zopp s (Zpos m)) / 2 ^ (- e)))%Z in
        if (n =? 0)%Z then (if s then neg_zero else zero) else Z2Prim n
  | _ => x
  end.

(** [Math.max] of two numbers: NaN if either is NaN, and +0 is above -0. *)
Definition Math_max2 (a b : float) : float :=
  if is_nan a || is_nan b then nan
  else if (a <? b)%float then b
  else if (b <? a)%float then a
  else if get_sign a then b else a.

(** [n % d]: the remainder of the truncating division, with the sign of
    [n]; it is exact. *)
Definition Number_remainder (n d : float) : float :=
  match Prim2SF n, Prim2SF d with
  | S754_nan, _ | _, S754_nan => nan
  | S754_infinity _, _ => nan
  | _, S754_infinity _ => n
  | _, S754_zero _ => nan
  | S754_zero _, _ => n
  | S754_finite sn mn en, S754_finite _ md ed =>
      let e := Z.min en ed in
      let r := ((Zpos mn * 2 ^ (en - e)) mod (Zpos md * 2 ^ (ed - e)))%Z in
      if (r =? 0)%Z then (if sn then neg_zero else zero)
      else SF2Prim (binary_normalize prec emax (cond_Zopp sn r) e false)
  end.

Fixpoint repeatString (s : string) (n : nat) : string :=
  match n with
  | O => EmptyString
  | S n' => s ++ repeatString s n'
  end.

(** [s.padStart(n, fill)], for ASCII strings: [s] as it is when it has [n]
    characters or [fill] is empty, and otherwise preceded by as much of the
    repeated [fill] as it lacks. *)
Definition padStart (n : nat) (fill : string) (s : string) : string :=
  let len := String.length s in
  if (n <=? len)%nat then s
  else
    match fill with
    | EmptyString => s
    | _ => substring 0 (n - len) (repeatString fill (n - len)) ++ s
    end.

(** The local [totalSec] of [fmtMMSS]. *)
Definition totalSec (ms : float) : float :=
  Math_max2 0 (Math_ceil (ms / 1000)).

Definition fmtMMSS (ms : float) : string :=
  let totalSec := totalSec ms in
  let m := Math_floor (totalSec / 60) in
  let s := Number_remainder totalSec 60 in
  padStart 2 "0" (Number_toString m) ++ ":" ++ padStart 2 "0" (Number_toString s).

Module Timer.

(** The state of one timer made by [createTimer]: its variables, the
    interval callbacks that are installed (each with its handle and the
    [last] of its closure), and the text of its two elements. *)
Record State : Type := {
  msLeft : float;
  interval : option positive;
  running : bool;
  installed : list (positive * float);
  display : string;
  stateText : string
}.

Definition setMsLeft (ms : float) (st : State) : State :=
  {| msLeft := ms; interval := interval st; running := running st;
     installed := installed st; display := display st; stateText := stateText st |}.

Definition setStateText (text : string) (st : State) : State :=
  {| msLeft := msLeft st; interval := interval st; running := running st;
     installed := installed st; display := display st; stateText := text |}.

Definition updateUI (st : State) : State :=
  {| msLeft := msLeft st; interval := interval st; running := running st;
     installed := installed st;
     display := fmtMMSS (msLeft st);
     stateText := if running st then "Running" else "Paused/Ready" |}.

(** [clearInterval(h)]. *)
Definition clearInterval (h : positive) (l : list (positive * float))
  : list (positive * float) :=
  filter (fun c => negb (Pos.eqb (fst c) h)) l.

Definition stop (st : State) : State :=
  updateUI
    {| msLeft := msLeft st; interval := None; running := false;
       installed := match interval st with
                    | Some h => clearInterval h (installed st)
                    | None => installed st
                    end;
       display := display st; stateText := stateText st |}.

(** [start()], at time [now]; [h] is the handle [setInterval] returns. *)
Definition start (now : float) (h : positive) (st : State) : State :=
  if running st then st
  else
    updateUI
      {| msLeft := msLeft st; interval := Some h; running := true;
         installed := (installed st ++ [(h, now)])%list;
         display := display st; stateText := stateText st |}.

Definition pause (st : State) : State :=
  if running st then stop st else st.

Definition resume (now : float) (h : positive) (st : State) : State :=
  if negb (running st) && (0 <? msLeft st)%float then start now h st else st.

Definition restart (st : State) : State :=
  updateUI (setStateText "Ready" (setMsLeft (8 * 60 * 1000)%float (stop st))).

Fixpoint closureLast (h : positive) (l : list (positive * float)) : option float :=
  match l with
  | [] => None
  | (k, last) :: r => if Pos.eqb k h then Some last else closureLast h r
  end.

Fixpoint setLast (h : positive) (now : float) (l : list (positive * float))
  : list (positive * float) :=
  match l with
  | [] => []
  | (k, last) :: r =>
      if Pos.eqb k h then (k, now) :: r else (k, last) :: setLast h now r
  end.

(** The callback of the interval [h] fires at time [now]; nothing happens
    when it is not installed. *)
Definition tick (h : positive) (now : float) (st : State) : State :=
  match closureLast h (installed st) with
  | None => st
  | Some last =>
      let dt := (now - last)%float in
      let st1 :=
        {| msLeft := (msLeft st - dt)%float;
           interval := interval st; running := running st;
           installed := setLast h now (installed st);
           display := display st; stateText := stateText st |} in
      let st2 :=
        if (msLeft st1 <=? 0)%float
        then setStateText "Time!" (stop (setMsLeft 0 st1))
        else st1 in
      updateUI st2
  end.

(** [createTimer(prefix)]: the timer once made. *)
Definition create : State :=
  updateUI
    {| msLeft := (8 * 60 * 1000)%float; interval := None; running := false;
       installed := []; display := ""; stateText := "" |}.

(** What happens to a timer: a click on one of its four buttons, or the
    callback of an interval firing. *)
Inductive Event : Type :=
| Start (now : float) (h : positive)
| Pause
| Resume (now : float) (h : positive)
| Restart
| Tick (h : positive) (now : float).

Definition step (st : State) (ev : Event) : State :=
  match ev with
  | Start now h => start now h st
  | Pause => pause st
  | Resume now h => resume now h st
  | Restart => restart st
  | Tick h now => tick h now st
  end.

Definition run (evs : list Event) : State := fold_left step evs create.

End Timer.

(** What every reachable state of a timer satisfies. *)
Definition timerInvariant (st : Timer.State) : Prop :=
  Timer.stateText st = (if Timer.running st then "Running" else "Paused/Ready")
  /\ Timer.display st = fmtMMSS (Timer.msLeft st)
  /\ match Timer.interval st with
     | Some h => Timer.running st = true
                 /\ exists last, Timer.installed st = [(h, last)]
     | None => Timer.running st = false /\ Timer.installed st = []
     end
  /\ (Timer.msLeft st <? 0)%float = false.

(** A zero, a finite number or an infinity of sign [s]. *)
Definition hasSign (s : bool) (r : spec_float) : Prop :=
  r = S754_zero s \/ (exists m e, r = S754_finite s m e) \/ r = S754_infinity s.

(** With [T] seconds left the display is the two digits of the minutes, a
    colon and the two digits of the seconds. *)
Definition fmtCheck (T : Z) : bool :=
  let t := Z2Prim T in
  (padStart 2 "0" (Number_toString (Math_floor (t / 60))) ++ ":" ++
   padStart 2 "0" (Number_toString (Number_remainder t 60)))
  =? (fixedDigits 2 (T / 60) ++ ":" ++ fixedDigits 2 (T mod 60)).

(* ================================================================= *)
(** ** Exports *)

(** What [download] is called with. *)
Record Download : Type := {
  fileName : string;
  content : string;
  mime : string
}.

(** An object as the list of its own properties, in the order they were
    created. *)
Definition JSObject : Type := list (string * JSValue).

(** [obj[k]] for one of the object's own keys; any other key that
    [Object.prototype] does not provide gives [undefined]. *)
Fixpoint getProp (obj : JSObject) (k : string) : JSValue :=
  match obj with
  | [] => JUndefined
  | (k', v) :: rest => if (k' =? k) then v else getProp rest k
  end.

(** [Object.keys(obj)]. *)
Definition Object_keys (obj : JSObject) : list string := map fst obj.

(** The object [renderPracticeSummary] pushes for a summary row. *)
Definition summaryObject (r : SummaryRow) : JSObject :=
  [ ("trackGroupM", JStr (trackGroupM r));
    ("runsCount", JNum (Z2Prim (Z.of_nat (runsCount r))));
    ("avgScore", avgScore r);
    ("bestScore", bestScore r);
    ("bestSetupByAvg", JStr (bestSetupByAvg r));
    ("bestSetupBySingle", JStr (bestSetupBySingle r)) ].

Definition nothingToExport : string := "Nothing to export yet. Click Apply first.".

(** [exportPracticeSummaryCSV()]: [summary] is [window.__practiceSummary],
    [None] while it is undefined.  The result is the error message shown,
    or the download. *)
Definition exportPracticeSummaryCSV (summary : option (list SummaryRow))
           (currentUser : string) : string + Download :=
  let rows := match summary with Some l => l | None => [] end in
  match rows with
  | [] => inl nothingToExport
  | r0 :: _ =>
      inr {| fileName := "scrambler_practice_summary_" ++ currentUser ++ ".csv";
             content := toCSV (map (fun r => getProp (summaryObject r)) rows)
                              (Object_keys (summaryObject r0));
             mime := "text/csv" |}
  end.

(** The object [exportMeetCSV] makes of a row. *)
Definition meetObject (row : MeetRow) : JSObject :=
  let r1 := computeScore (run1 row) in
  let r2 := computeScore (run2 row) in
  let best := Math_min [total r1; total r2] in
  let final := (best + impoundPenalty row)%float in
  [ ("team", JOr (JStr (team row)) (JStr ""));
    ("notImpounded", JBool (ToBoolean (notImpounded row)));
    ("run1_distCm", nullish (vehicleDistanceCm (run1 row)) (JStr ""));
    ("run1_t1", nullish (time1 (run1 row)) (JStr ""));
    ("run1_t2", nullish (time2 (run1 row)) (JStr ""));
    ("run1_t3", nullish (time3 (run1 row)) (JStr ""));
    ("run1_timeAvg", JNum (timeAvg r1));
    ("run1_bucket", JBool (ToBoolean (bucketBonus (run1 row))));
    ("run1_cv", JBool (ToBoolean (competitionViolationPoints (run1 row))));
    ("run1_conv", JBool (ToBoolean (constructionViolationPoints (run1 row))));
    ("run1_score", JNum (total r1));
    ("run2_distCm", nullish (vehicleDistanceCm (run2 row)) (JStr ""));
    ("run2_t1", nullish (time1 (run2 row)) (JStr ""));
    ("run2_t2", nullish (time2 (run2 row)) (JStr ""));
    ("run2_t3", nullish (time3 (run2 row)) (JStr ""));
    ("run2_timeAvg", JNum (timeAvg r2));
    ("run2_bucket", JBool (ToBoolean (bucketBonus (run2 row))));
    ("run2_cv", JBool (ToBoolean (competitionViolationPoints (run2 row))));
    ("run2_conv", JBool (ToBoolean (constructionViolationPoints (run2 row))));
    ("run2_score", JNum (total r2));
    ("bestOf2", JNum best);
    ("finalMeetScore", JNum final) ].

(** The whole of [exportMeetCSV()]: the file it downloads. *)
Definition exportMeetFile (rows : list MeetRow) (currentUser : string) : Download :=
  let out := map meetObject rows in
  let headers :=
    Object_keys (match out with o :: _ => o | [] => [("team", JStr "")] end) in
  {| fileName := "scrambler_meet_" ++ currentUser ++ ".csv";
     content := toCSV (map getProp out) headers;
     mime := "text/csv" |}.

(** Not a character that [esc] quotes a cell for. *)
Definition plainChar (c : ascii) : bool :=
  negb ((c =? dquote)%char || (c =? comma)%char || (c =? newline)%char).

(** Plain cells joined by commas, plain lines by line feeds: the file a
    table is written as when nothing is quoted. *)
Definition plainCSV (lines : list (list string)) : string :=
  join (String newline EmptyString) (map (join ",") lines).

Definition summaryHeaders : list string :=
  [ "trackGroupM"; "runsCount"; "avgScore"; "bestScore";
    "bestSetupByAvg"; "bestSetupBySingle" ].

Definition meetHeaders : list string :=
  [ "team"; "notImpounded";
    "run1_distCm"; "run1_t1"; "run1_t2"; "run1_t3"; "run1_timeAvg";
    "run1_bucket"; "run1_cv"; "run1_conv"; "run1_score";
    "run2_distCm"; "run2_t1"; "run2_t2"; "run2_t3"; "run2_timeAvg";
    "run2_bucket"; "run2_cv"; "run2_conv"; "run2_score";
    "bestOf2"; "finalMeetScore" ].

(** Both labels of a running best are free of the characters [esc] quotes
    for. *)
Definition plainBest (b : Best) : Prop :=
  allChars plainChar (bestSetupAvg b) = true
  /\ allChars plainChar (bestSetupSingle b) = true.

(* ================================================================= *)
(** ** Removing runs, and the rows of the meet table *)

(** [deleteRun(runId)]: the array handed to [setRuns], given the answer
    to [confirm] and the stored runs. *)
Definition deleteRun (ok : bool) (id : string) (all : list Run) : list Run :=
  if ok then filter (fun r => negb (runId r =? id)) all else all.

(** [clearMyRuns()], likewise. *)
Definition clearMyRuns (ok : bool) (cur : string) (all : list Run) : list Run :=
  if ok then filter (fun r => negb (user r =? cur)) all else all.

(** A stored row of the meet table: its id, and the fields [renderMeet]
    and [exportMeetCSV] read. *)
Record MeetEntry : Type := {
  entryId : string;
  entryRow : MeetRow
}.

(** The run of a new row: nothing typed in, nothing ticked. *)
Definition emptyRun : RunInput :=
  {| failedRun := JBool false;
     vehicleDistanceCm := JStr "";
     time1 := JStr ""; time2 := JStr ""; time3 := JStr "";
     bucketBonus := JBool false;
     competitionViolationPoints := JBool false;
     constructionViolationPoints := JBool false |}.

(** [addMeetTeam()]: the rows handed to [setMeetRows]; [id] is the [uid()]
    drawn. *)
Definition addMeetTeam (id : string) (rows : list MeetEntry) : list MeetEntry :=
  (rows ++ [ {| entryId := id;
                entryRow := {| team := ""; notImpounded := JBool false;
                               run1 := emptyRun; run2 := emptyRun |} |} ])%list.

(** [rows.findIndex(p)]; [None] for -1. *)
Fixpoint findIndex {A : Type} (p : A -> bool) (l : list A) : option nat :=
  match l with
  | [] => None
  | x :: r => if p x then Some O else option_map S (findIndex p r)
  end.

(** [rows.splice(idx, 1)]: the array afterwards. *)
Definition spliceOne {A : Type} (idx : nat) (l : list A) : list A :=
  (firstn idx l ++ skipn (S idx) l)%list.

(** The click on the Remove button of the row with the given id. *)
Definition removeMeetRow (id : string) (rows : list MeetEntry) : list MeetEntry :=
  match findIndex (fun r => entryId r =? id) rows with
  | Some idx => spliceOne idx rows
  | None => rows
  end.

(** [clearMeet()], given the answer to [confirm]. *)
Definition clearMeet (ok : bool) (rows : list MeetEntry) : list MeetEntry :=
  if ok then [] else rows.

(** The page of a signed-in user. *)
Definition pageFor (u tgt tol : string) (runs : list Run) : Page :=
  {| filterTrackM := tgt; filterToleranceM := tol; currentUser := u; storedRuns := runs |}.

(* ================================================================= *)
(** ** Recording a practice run *)

(** The practice form: the value of each field, the state of each check
    box. *)
Module Dom.
Record PracticeForm : Type := {
  targetDistanceM : string;
  vehicleDistanceCm : string;
  runTimeS1 : string;
  runTimeS2 : string;
  runTimeS3 : string;
  carAngleDeg : string;
  dialTurns : string;
  winds : string;
  bucketBonus : bool;
  failedRun : bool;
  competitionViolation : string;
  constructionViolation : string;
  notes : string
}.
End Dom.

(** The object [readPracticeForm] returns. *)
Module Inp.
Record PracticeInput : Type := {
  targetDistanceM : float;
  vehicleDistanceCm : float;
  time1 : string;
  time2 : string;
  time3 : string;
  carAngleDeg : float;
  dialTurns : float;
  winds : float;
  bucketBonus : bool;
  failedRun : bool;
  competitionViolationPoints : bool;
  constructionViolationPoints : bool;
  notes : string
}.
End Inp.

(** The object [saveRun] stores. *)
Module Saved.
Record SavedRun : Type := {
  id : string;
  user : string;
  createdAt : string;
  targetDistanceM : float;
  vehicleDistanceCm : float;
  time1 : string;
  time2 : string;
  time3 : string;
  timeAvg : float;
  bucketBonus : bool;
  competitionViolation : bool;
  constructionViolation : bool;
  failedRun : bool;
  carAngleDeg : float;
  dialTurns : float;
  winds : float;
  score : float;
  notes : string
}.
End Saved.

Definition readPracticeForm (f : Dom.PracticeForm) : Inp.PracticeInput :=
  {| Inp.targetDistanceM := num (JStr (Dom.targetDistanceM f));
     Inp.vehicleDistanceCm := num (JStr (Dom.vehicleDistanceCm f));
     Inp.time1 := Dom.runTimeS1 f;
     Inp.time2 := Dom.runTimeS2 f;
     Inp.time3 := Dom.runTimeS3 f;
     Inp.carAngleDeg := num (JStr (Dom.carAngleDeg f));
     Inp.dialTurns := num (JStr (Dom.dialTurns f));
     Inp.winds := num (JStr (Dom.winds f));
     Inp.bucketBonus := Dom.bucketBonus f;
     Inp.failedRun := Dom.failedRun f;
     Inp.competitionViolationPoints := (Dom.competitionViolation f =? "150");
     Inp.constructionViolationPoints := (Dom.constructionViolation f =? "300");
     Inp.notes := trim (Dom.notes f) |}.

(** The fields of the form object that [computeScore] reads. *)
Definition inputRun (inp : Inp.PracticeInput) : RunInput :=
  scoreInput (JNum (Inp.vehicleDistanceCm inp))
             (JStr (Inp.time1 inp)) (JStr (Inp.time2 inp)) (JStr (Inp.time3 inp))
             (Inp.bucketBonus inp) (Inp.competitionViolationPoints inp)
             (Inp.constructionViolationPoints inp) (Inp.failedRun inp).

(** [s || ""] for a string. *)
Definition orEmpty (s : string) : string := if negb (s =? "") then s else "".

(** [saveRun()]: nothing when nobody is signed in; otherwise the array
    handed to [setRuns] and the message shown.  [newId] is the [uid()]
    drawn and [now] the time stamp. *)
Definition saveRun (currentUser : option string) (f : Dom.PracticeForm)
           (newId now : string) (all : list Saved.SavedRun)
  : option (list Saved.SavedRun * string) :=
  match currentUser with
  | None => None
  | Some u =>
      let inp := readPracticeForm f in
      let sc := computeScore (inputRun inp) in
      let run :=
        {| Saved.id := newId;
           Saved.user := u;
           Saved.createdAt := now;
           Saved.targetDistanceM := Inp.targetDistanceM inp;
           Saved.vehicleDistanceCm :=
             if Inp.failedRun inp then 2500%float else Inp.vehicleDistanceCm inp;
           Saved.time1 := orEmpty (Inp.time1 inp);
           Saved.time2 := orEmpty (Inp.time2 inp);
           Saved.time3 := orEmpty (Inp.time3 inp);
           Saved.timeAvg := timeAvg sc;
           Saved.bucketBonus := Inp.bucketBonus inp;
           Saved.competitionViolation := Inp.competitionViolationPoints inp;
           Saved.constructionViolation := Inp.constructionViolationPoints inp;
           Saved.failedRun := Inp.failedRun inp;
           Saved.carAngleDeg := Inp.carAngleDeg inp;
           Saved.dialTurns := Inp.dialTurns inp;
           Saved.winds := Inp.winds inp;
           Saved.score := total sc;
           Saved.notes := Inp.notes inp |} in
      Some ((all ++ [run])%list,
            "Saved. Score: " ++ Number_toFixed 2 (Saved.score run) ++
            " (avg time " ++ Number_toFixed 2 (Saved.timeAvg run) ++ "s)")
  end.

(** A number after [JSON.stringify] and [JSON.parse]: what is not finite
    comes back as [null], and -0 as 0. *)
Definition jsonNumber (x : float) : JSValue :=
  if is_finite x then (if is_zero x then JNum zero else JNum x) else JNull.

(** A stored run as [getRuns] reads it back, in the fields the summary
    reads. *)
Definition storedRun (r : Saved.SavedRun) : Run :=
  {| runId := Saved.id r;
     user := Saved.user r;
     targetDistanceM := jsonNumber (Saved.targetDistanceM r);
     score := jsonNumber (Saved.score r);
     carAngleDeg := jsonNumber (Saved.carAngleDeg r);
     dialTurns := jsonNumber (Saved.dialTurns r);
     winds := jsonNumber (Saved.winds r) |}.

(** A filled-in form: target 7 m, 12.5 cm from the target, one time. *)
Definition demoForm : Dom.PracticeForm :=
  {| Dom.targetDistanceM := "7"; Dom.vehicleDistanceCm := "12.5";
     Dom.runTimeS1 := "3.2"; Dom.runTimeS2 := ""; Dom.runTimeS3 := "";
     Dom.carAngleDeg := "12"; Dom.dialTurns := "3.5"; Dom.winds := "20";
     Dom.bucketBonus := true; Dom.failedRun := false;
     Dom.competitionViolation := "0"; Dom.constructionViolation := "300";
     Dom.notes := " windy " |}.

(** ** The range of a timer *)

(** A record whose shifted-out bits are all zero. *)
Definition exactRecord (k : Z) (r : shr_record) : Prop :=
  (shr_r r = false /\ shr_s r = false /\ 0 <= shr_m r /\ (2 ^ k | shr_m r))%Z.

(** The value of a positive finite number, in units of [2^emin]. *)
Definition scaled (m : positive) (e : Z) : Z := (Zpos m * 2 ^ (e - emin))%Z.

(** The reading of [performance.now()] an event comes with. *)
Definition eventTime (ev : Timer.Event) : option float :=
  match ev with
  | Timer.Start now _ => Some now
  | Timer.Resume now _ => Some now
  | Timer.Tick _ now => Some now
  | Timer.Pause => None
  | Timer.Restart => None
  end.

(** The clock does not run backwards: the readings of the events are
    finite numbers, none below [t] or below an earlier one. *)
Fixpoint clockFrom (t : float) (evs : list Timer.Event) : Prop :=
  match evs with
  | [] => True
  | ev :: rest =>
      match eventTime ev with
      | Some now =>
          is_finite now = true /\ (t <=? now)%float = true /\ clockFrom now rest
      | None => clockFrom t rest
      end
  end.

(** At time [t] the time left is between 0 and 8 minutes, and the installed
    callbacks last read the clock at [t] or before. *)
Definition rangeInvariant (t : float) (st : Timer.State) : Prop :=
  (0 <=? Timer.msLeft st)%float = true
  /\ (Timer.msLeft st <=? 480000)%float = true
  /\ Forall (fun c => is_finite (snd c) = true /\ (snd c <=? t)%float = true)
            (Timer.installed st).

(* ================================================================= *)
(** ** Examples *)

(** A store with the account of bob, created with the password hunter2. *)
Definition bobStore : Users :=
  [("bob", {| saltB64 := bytesToB64 [Byte.x03; Byte.x04];
              hashB64 := bytesToB64 (demoHash "hunter2" [Byte.x03; Byte.x04]);
              createdAt := "t0" |})].

(** A table of one row with the cells [x] and [y]. *)
Definition oneRow (x y : JSValue) : list (string -> JSValue) :=
  [fun h => if (h =? "x") then x else y].

(** Two teams of a meet: A with runs of 710 and 610 and not impounded, B
    with a failed run and a run of 754.17. *)
Definition teamA : MeetRow :=
  {| team := "A"; notImpounded := JBool true;
     run1 := scoreInput (JNum 300) (JNum 10) (JNum 10) (JNum 10) false false false false;
     run2 := scoreInput (JNum 300) (JNum 10) (JNum 10) (JNum 10) true false false false |}.

Definition teamB : MeetRow :=
  {| team := "B"; notImpounded := JBool false;
     run1 := scoreInput (JStr "") (JStr "") (JStr "") (JStr "") false false false true;
     run2 := scoreInput (JStr "250.5") (JStr "9.5") (JStr "") (JStr "")
                        false true false false |}.

(** The file [exportMeetCSV] writes for them. *)
Definition teamsCSV : string :=
  "team,notImpounded,run1_distCm,run1_t1,run1_t2,run1_t3,run1_timeAvg,run1_bucket,run1_cv,run1_conv,run1_score,run2_distCm,run2_t1,run2_t2,run2_t3,run2_timeAvg,run2_bucket,run2_cv,run2_conv,run2_score,bestOf2,finalMeetScore
A,true,300,10,10,10,10,false,false,false,710,300,10,10,10,10,true,false,false,610,610,5610
B,false,,,,,0,false,false,false,5100,250.5,9.5,,,3.17,false,true,false,754.17,754.17,754.17".

(* ================================================================= *)
(** * Lemmas *)

(** ** The order of binary64 values *)

(** Case analysis on every comparison of exponents and mantissas. *)
Ltac cmp_cases :=
  repeat match goal with
  | H : context [Z.compare ?a ?b] |- _ => destruct (Z.compare_spec a b)
  | |- context [Z.compare ?a ?b] => destruct (Z.compare_spec a b)
  | H : context [Pos.compare_cont Eq ?a ?b] |- _ =>
      change (Pos.compare_cont Eq a b) with (Pos.compare a b) in *;
      destruct (Pos.compare_spec a b)
  | |- context [Pos.compare_cont Eq ?a ?b] =>
      change (Pos.compare_cont Eq a b) with (Pos.compare a b) in *;
      destruct (Pos.compare_spec a b)
  end.

(** Order facts on [spec_float], by cases on the operands, their signs and
    the comparisons of their exponents and mantissas. *)
Ltac sf_order :=
  intros;
  repeat match goal with x : spec_float |- _ => destruct x as [[]|[]| |[] ? ?] end;
  cbn in *; try discriminate; try reflexivity; try tauto; try congruence;
  cmp_cases; cbn in *; subst; try discriminate; try reflexivity; try lia; try tauto;
  try congruence.

Lemma SFlt_trans x y z : SFlt x y -> SFlt y z -> SFlt x z.
Proof. unfold SFlt. sf_order. Qed.

Lemma SFle_lt_trans x y z : SFle x y -> SFlt y z -> SFlt x z.
Proof. unfold SFlt, SFle. intros [H|H] H'; revert H H'; sf_order. Qed.

Lemma SFlt_le_trans x y z : SFlt x y -> SFle y z -> SFlt x z.
Proof. unfold SFlt, SFle. intros H' [H|H]; revert H H'; sf_order. Qed.

Lemma SFle_trans x y z : SFle x y -> SFle y z -> SFle x z.
Proof. unfold SFle. intros [H|H] [H'|H']; revert H H'; sf_order. Qed.

Lemma SFlt_not_le x y : SFlt x y -> ~ SFle y x.
Proof. unfold SFlt, SFle. intros H [H'|H']; revert H H'; sf_order. Qed.

Lemma SF_total x y : x <> S754_nan -> y <> S754_nan -> SFlt x y \/ SFle y x.
Proof. unfold SFlt, SFle. sf_order. Qed.

Lemma SFle_refl x : x <> S754_nan -> SFle x x.
Proof. unfold SFle. sf_order. Qed.

Lemma ltb_SFlt x y : (x <? y)%float = true <-> SFlt (Prim2SF x) (Prim2SF y).
Proof.
  rewrite ltb_spec. unfold SFltb, SFlt.
  destruct (SFcompare _ _) as [[]|]; split; congruence.
Qed.

Lemma leb_SFle x y : (x <=? y)%float = true <-> SFle (Prim2SF x) (Prim2SF y).
Proof.
  rewrite leb_spec. unfold SFleb, SFle.
  destruct (SFcompare _ _) as [[]|]; split; try tauto; try congruence;
    intros [H|H]; discriminate.
Qed.

Lemma is_nan_Prim2SF x : is_nan x = false <-> Prim2SF x <> S754_nan.
Proof.
  unfold is_nan. rewrite eqb_spec. unfold SFeqb.
  destruct (Prim2SF x) as [[]|[]| |[] m e]; cbn;
    rewrite ?Z.compare_refl; try (split; [discriminate | reflexivity]);
    try (split; [congruence | intros _; reflexivity]);
    try (split; [intro H; discriminate | intro H; congruence]).
  all: change (Pos.compare_cont Eq m m) with (Pos.compare m m);
       rewrite Pos.compare_refl; cbn; split; try reflexivity; discriminate.
Qed.

Lemma ltb_trans x y z :
  (x <? y)%float = true -> (y <? z)%float = true -> (x <? z)%float = true.
Proof. rewrite !ltb_SFlt. apply SFlt_trans. Qed.

Lemma leb_ltb_trans x y z :
  (x <=? y)%float = true -> (y <? z)%float = true -> (x <? z)%float = true.
Proof. rewrite leb_SFle, !ltb_SFlt. apply SFle_lt_trans. Qed.

Lemma ltb_leb_trans x y z :
  (x <? y)%float = true -> (y <=? z)%float = true -> (x <? z)%float = true.
Proof. rewrite leb_SFle, !ltb_SFlt. apply SFlt_le_trans. Qed.

Lemma leb_trans x y z :
  (x <=? y)%float = true -> (y <=? z)%float = true -> (x <=? z)%float = true.
Proof. rewrite !leb_SFle. apply SFle_trans. Qed.

Lemma ltb_not_leb x y : (x <? y)%float = true -> (y <=? x)%float = false.
Proof.
  intros H. apply ltb_SFlt in H. apply not_true_is_false. intro H'.
  apply leb_SFle in H'. exact (SFlt_not_le _ _ H H').
Qed.

Lemma ltb_leb x y : (x <? y)%float = true -> (x <=? y)%float = true.
Proof. rewrite ltb_SFlt, leb_SFle. unfold SFlt, SFle. tauto. Qed.

Lemma ltb_irrefl x : (x <? x)%float = false.
Proof.
  apply not_true_is_false. intro H. pose proof (ltb_not_leb _ _ H) as H1.
  rewrite (ltb_leb _ _ H) in H1. discriminate.
Qed.

Lemma float_total x y :
  is_nan x = false -> is_nan y = false ->
  (x <? y)%float = true \/ (y <=? x)%float = true.
Proof. rewrite !is_nan_Prim2SF, ltb_SFlt, leb_SFle. apply SF_total. Qed.

Lemma leb_refl x : is_nan x = false -> (x <=? x)%float = true.
Proof. rewrite is_nan_Prim2SF, leb_SFle. apply SFle_refl. Qed.

Lemma ltb_not_nan x y : (x <? y)%float = true -> is_nan x = false /\ is_nan y = false.
Proof.
  rewrite ltb_SFlt, !is_nan_Prim2SF. unfold SFlt.
  destruct (Prim2SF x), (Prim2SF y); cbn; split; congruence.
Qed.

Lemma leb_not_nan x y : (x <=? y)%float = true -> is_nan x = false /\ is_nan y = false.
Proof.
  rewrite leb_SFle, !is_nan_Prim2SF. unfold SFle.
  destruct (Prim2SF x), (Prim2SF y); cbn; intros [H|H]; split; congruence.
Qed.

(** ** Rounding in the binary64 specification *)

Section Rounding.
Local Open Scope Z_scope.

Lemma shr_1_m r : 0 <= shr_m r -> shr_m (shr_1 r) = shr_m r / 2.
Proof.
  destruct r as [m b s]. cbn [shr_m]. intro H.
  destruct m as [|[p|p|]|p]; cbn [shr_1 shr_m].
  - reflexivity.
  - apply Z.div_unique with (r := 1); lia.
  - apply Z.div_unique with (r := 0); lia.
  - reflexivity.
  - lia.
Qed.

Lemma shr_m_iter n : forall r,
  0 <= shr_m r -> shr_m (iter_pos shr_1 n r) = shr_m r / 2 ^ Zpos n.
Proof.
  induction n as [n IH|n IH|]; intros r H; cbn [iter_pos].
  - assert (H1 : 0 <= shr_m (shr_1 r)) by (rewrite shr_1_m by assumption; apply Z.div_pos; lia).
    assert (H2 : 0 <= shr_m (iter_pos shr_1 n (shr_1 r)))
      by (rewrite IH by assumption; apply Z.div_pos; lia).
    rewrite IH, IH, shr_1_m by assumption.
    rewrite !Z.div_div by lia. f_equal.
    replace (Z.pos n~1) with (1 + Z.pos n + Z.pos n) by lia.
    rewrite !Z.pow_add_r, Z.pow_1_r by lia. ring.
  - assert (H2 : 0 <= shr_m (iter_pos shr_1 n r))
      by (rewrite IH by assumption; apply Z.div_pos; lia).
    rewrite IH, IH by assumption.
    rewrite !Z.div_div by lia. f_equal.
    replace (Z.pos n~0) with (Z.pos n + Z.pos n) by lia.
    rewrite Z.pow_add_r by lia. reflexivity.
  - rewrite shr_1_m by assumption. reflexivity.
Qed.

Lemma digits2_bounds m :
  2 ^ (Zpos (digits2_pos m) - 1) <= Zpos m < 2 ^ Zpos (digits2_pos m).
Proof.
  induction m as [m IH|m IH|]; cbn [digits2_pos].
  - rewrite Pos2Z.inj_succ.
    replace (Z.succ (Zpos (digits2_pos m)) - 1) with (Z.succ (Zpos (digits2_pos m) - 1)) by lia.
    rewrite !Z.pow_succ_r by lia. lia.
  - rewrite Pos2Z.inj_succ.
    replace (Z.succ (Zpos (digits2_pos m)) - 1) with (Z.succ (Zpos (digits2_pos m) - 1)) by lia.
    rewrite !Z.pow_succ_r by lia. lia.
  - cbn. lia.
Qed.

Lemma shr_record_of_loc_m m l : shr_m (shr_record_of_loc m l) = m.
Proof. destruct l as [|[]]; reflexivity. Qed.

Lemma emin_value : emin = -1074.
Proof. reflexivity. Qed.

(** Shifting a mantissa to its canonical exponent keeps it non-negative,
    and positive when the exponent is at least [emin]. *)
Lemma shr_fexp_nonneg m e l :
  0 <= m -> 0 <= shr_m (fst (shr_fexp prec emax m e l)).
Proof.
  intro H. unfold shr_fexp, shr.
  destruct (fexp prec emax (Zdigits2 m + e) - e) as [|q|q]; cbn [fst];
    rewrite ?shr_m_iter, shr_record_of_loc_m; rewrite ?shr_record_of_loc_m; try lia.
  apply Z.div_pos; lia.
Qed.

Lemma shr_fexp_pos m e l :
  0 < m -> emin <= e ->
  0 < shr_m (fst (shr_fexp prec emax m e l))
  /\ emin <= snd (shr_fexp prec emax m e l).
Proof.
  intros Hm He. rewrite emin_value in *. unfold shr_fexp, shr.
  destruct m as [|p|p]; try lia. cbn [Zdigits2].
  pose proof (digits2_bounds p) as Hd.
  destruct (fexp prec emax (Zpos (digits2_pos p) + e) - e) as [|q|q] eqn:En;
    cbn [fst snd]; rewrite ?shr_record_of_loc_m; try (split; lia).
  rewrite shr_m_iter by (rewrite shr_record_of_loc_m; lia).
  rewrite shr_record_of_loc_m.
  unfold fexp in En. change (SpecFloat.emin prec emax) with (-1074) in En.
  change prec with 53 in En.
  split; [|lia].
  apply Z.div_str_pos. split; [lia|].
  apply Z.le_trans with (2 ^ (Zpos (digits2_pos p) - 1)); [|lia].
  apply Z.pow_le_mono_r; lia.
Qed.

Lemma round_nearest_even_pos m l : 0 < m -> 0 < round_nearest_even m l.
Proof. destruct l as [|[]]; cbn; try destruct (Z.even m); lia. Qed.

Lemma round_nearest_even_nonneg m l : 0 <= m -> 0 <= round_nearest_even m l.
Proof. destruct l as [|[]]; cbn; try destruct (Z.even m); lia. Qed.

Lemma binary_round_aux_not_nan s m e l :
  0 <= m -> binary_round_aux prec emax s m e l <> S754_nan.
Proof.
  intro H. unfold binary_round_aux.
  pose proof (shr_fexp_nonneg m e l H) as H1.
  destruct (shr_fexp prec emax m e l) as [r1 e1]. cbn [fst] in H1.
  pose proof (shr_fexp_nonneg _ e1 loc_Exact
                (round_nearest_even_nonneg _ (loc_of_shr_record r1) H1)) as H2.
  destruct (shr_fexp prec emax _ e1 loc_Exact) as [r2 e2]. cbn [fst] in H2.
  destruct (shr_m r2); try lia; try discriminate.
  destruct (e2 <=? emax - prec); discriminate.
Qed.

(** A positive mantissa at an exponent of at least [emin] does not round
    to zero. *)
Lemma binary_round_aux_pos s m e l :
  0 < m -> emin <= e ->
  (exists m' e', binary_round_aux prec emax s m e l = S754_finite s m' e')
  \/ binary_round_aux prec emax s m e l = S754_infinity s.
Proof.
  intros Hm He. unfold binary_round_aux.
  destruct (shr_fexp_pos m e l Hm He) as [H1 H1e].
  destruct (shr_fexp prec emax m e l) as [r1 e1]. cbn [fst snd] in H1, H1e.
  destruct (shr_fexp_pos _ e1 loc_Exact
              (round_nearest_even_pos _ (loc_of_shr_record r1) H1) H1e) as [H2 _].
  destruct (shr_fexp prec emax _ e1 loc_Exact) as [r2 e2]. cbn [fst] in H2.
  destruct (shr_m r2) as [|p|p]; try lia.
  destruct (e2 <=? emax - prec); [left; eauto | now right].
Qed.

Lemma iter_xO_value m d : Zpos (Pos.iter xO m d) = Zpos m * 2 ^ Zpos d.
Proof.
  induction d as [|d IH] using Pos.peano_ind.
  - cbn. lia.
  - rewrite Pos.iter_succ, Pos2Z.inj_xO, IH, Pos2Z.inj_succ, Z.pow_succ_r by lia. ring.
Qed.

Lemma shl_align_fst m e ez :
  ez <= e -> Zpos (fst (shl_align m e ez)) = Zpos m * 2 ^ (e - ez).
Proof.
  intro H. unfold shl_align.
  destruct (ez - e) as [|q|q] eqn:E; cbn [fst]; try lia.
  - replace (e - ez) with 0 by lia. cbn. lia.
  - rewrite iter_xO_value. f_equal. f_equal. lia.
Qed.

Lemma shl_align_snd m e ez : snd (shl_align m e ez) = Z.min e ez.
Proof.
  unfold shl_align. destruct (ez - e) as [|q|q] eqn:E; cbn [snd]; lia.
Qed.

Lemma fexp_ge_emin k : emin <= fexp prec emax k.
Proof. unfold fexp. lia. Qed.

Lemma binary_round_pos s m e :
  emin <= e ->
  (exists m' e', binary_round prec emax s m e = S754_finite s m' e')
  \/ binary_round prec emax s m e = S754_infinity s.
Proof.
  intro He. unfold binary_round.
  pose proof (shl_align_snd m e (fexp prec emax (Zpos (digits2_pos m) + e))) as Hs.
  pose proof (fexp_ge_emin (Zpos (digits2_pos m) + e)) as Hf.
  destruct (shl_align m e _) as [mz ez]. cbn [snd] in Hs.
  apply binary_round_aux_pos; lia.
Qed.

Lemma binary_round_not_nan s m e : binary_round prec emax s m e <> S754_nan.
Proof.
  unfold binary_round. destruct (shl_align m e _) as [mz ez].
  apply binary_round_aux_not_nan. lia.
Qed.

Lemma binary_normalize_not_nan D e sz : binary_normalize prec emax D e sz <> S754_nan.
Proof.
  destruct D; cbn [binary_normalize]; [discriminate | |]; apply binary_round_not_nan.
Qed.

(** The sign of a rounded integer multiple of [2^e], for [emin <= e]. *)
Lemma binary_normalize_sign D e :
  emin <= e ->
  SFltb (S754_zero false) (binary_normalize prec emax D e false) = (0 <? D).
Proof.
  intro He. destruct D as [|p|p]; cbn [binary_normalize]; [reflexivity| |].
  - destruct (binary_round_pos false p e He) as [(m' & e' & ->)| ->]; reflexivity.
  - destruct (binary_round_pos true p e He) as [(m' & e' & ->)| ->]; reflexivity.
Qed.

Lemma bounded_canonical m e :
  bounded prec emax m e = true ->
  emin <= e /\ Zpos (digits2_pos m) <= prec
  /\ (emin < e -> Zpos (digits2_pos m) = prec).
Proof.
  unfold bounded, canonical_mantissa, fexp. rewrite andb_true_iff, Z.eqb_eq. lia.
Qed.

(** Two canonical mantissas compare as their exponents do when these
    differ. *)
Lemma canonical_lt mx ex my ey :
  bounded prec emax mx ex = true -> bounded prec emax my ey = true ->
  ey < ex -> Zpos my < Zpos mx * 2 ^ (ex - ey).
Proof.
  intros Bx By Hlt.
  apply bounded_canonical in Bx, By. rewrite emin_value in *. change prec with 53 in *.
  destruct Bx as (Bx1 & Bx2 & Bx3), By as (By1 & By2 & By3).
  pose proof (digits2_bounds mx) as Dx. pose proof (digits2_bounds my) as Dy.
  rewrite Bx3 in Dx by lia. change (2 ^ (53 - 1)) with 4503599627370496 in Dx.
  assert (Hy : Zpos my < 2 ^ 53).
  { apply Z.lt_le_trans with (2 ^ Zpos (digits2_pos my)); [lia|].
    apply Z.pow_le_mono_r; lia. }
  change (2 ^ 53) with 9007199254740992 in Hy.
  assert (Hp : 2 ^ 1 <= 2 ^ (ex - ey)) by (apply Z.pow_le_mono_r; lia).
  change (2 ^ 1) with 2 in Hp. nia.
Qed.

(** The sign of a difference is the order of its operands. *)
Lemma SFsub_sign X Y :
  valid_binary X = true -> valid_binary Y = true ->
  SFltb (S754_zero false) (SFsub prec emax X Y) = SFltb Y X.
Proof.
  intros VX VY.
  destruct X as [sx|sx| |sx mx ex], Y as [sy|sy| |sy my ey];
    try reflexivity;
    try (destruct sx; reflexivity); try (destruct sy; reflexivity);
    try (destruct sx, sy; reflexivity).
  cbn [SFsub valid_binary] in *.
  pose proof (bounded_canonical _ _ VX) as (Ex & _).
  pose proof (bounded_canonical _ _ VY) as (Ey & _).
  rewrite binary_normalize_sign by lia.
  rewrite !shl_align_fst by lia.
  assert (Px : 0 < 2 ^ (ex - Z.min ex ey)) by (apply Z.pow_pos_nonneg; lia).
  assert (Py : 0 < 2 ^ (ey - Z.min ex ey)) by (apply Z.pow_pos_nonneg; lia).
  unfold SFltb, SFcompare.
  destruct (Z.compare_spec ey ex) as [E|L|G].
  - subst ey. rewrite Z.min_id, Z.sub_diag in *. change (2 ^ 0) with 1. rewrite !Z.mul_1_r.
    change (Pos.compare_cont Eq my mx) with (Pos.compare my mx).
    destruct (Pos.compare_spec my mx); destruct sx, sy; cbn [cond_Zopp CompOpp];
      match goal with |- (0 <? ?D) = _ => destruct (Z.ltb_spec 0 D) end;
      first [reflexivity | exfalso; lia].
  - pose proof (canonical_lt _ _ _ _ VX VY L) as C.
    rewrite Z.min_r in * by lia. rewrite Z.sub_diag in *. change (2 ^ 0) with 1 in *.
    rewrite Z.mul_1_r. destruct sx, sy; cbn [cond_Zopp CompOpp];
      match goal with |- (0 <? ?D) = _ => destruct (Z.ltb_spec 0 D) end;
      first [reflexivity | exfalso; lia].
  - pose proof (canonical_lt _ _ _ _ VY VX G) as C.
    rewrite Z.min_l in * by lia. rewrite Z.sub_diag in *. change (2 ^ 0) with 1 in *.
    rewrite Z.mul_1_r. destruct sx, sy; cbn [cond_Zopp CompOpp];
      match goal with |- (0 <? ?D) = _ => destruct (Z.ltb_spec 0 D) end;
      first [reflexivity | exfalso; lia].
Qed.
End Rounding.

(** [a - b] is positive exactly when [b < a]: a comparator [a - b] orders
    as [<] does. *)
Lemma sub_pos x y : (0 <? x - y)%float = (y <? x)%float.
Proof.
  rewrite !ltb_spec, sub_spec. change (Prim2SF 0) with (S754_zero false).
  apply SFsub_sign; apply Prim2SF_valid.
Qed.

Lemma SF2Prim_not_nan sf : sf <> S754_nan -> is_nan (SF2Prim sf) = false.
Proof.
  intro H. destruct sf as [[]|[]| |s m e]; try reflexivity; [congruence|].
  cbn [SF2Prim].
  set (f := Z.ldexp _ e).
  assert (Hf : Prim2SF f <> S754_nan).
  { unfold f. rewrite Z_ldexp_spec, of_uint63_spec.
    pose proof (binary_normalize_not_nan
                  (Uint63Axioms.to_Z (Uint63Axioms.of_Z (Zpos m))) 0 false) as Hn.
    destruct (binary_normalize _ _ _ _ _); cbn [SFldexp]; try congruence.
    apply binary_round_not_nan. }
  apply is_nan_Prim2SF. destruct s; [|assumption].
  rewrite opp_spec. destruct (Prim2SF f); cbn; congruence.
Qed.

Lemma decToFloat_not_nan neg n k : (0 <= n)%Z -> is_nan (decToFloat neg n k) = false.
Proof.
  intro Hn. unfold decToFloat.
  destruct (n =? 0)%Z; [destruct neg; reflexivity|].
  destruct (0 <=? k)%Z eqn:Hk; [apply SF2Prim_not_nan, binary_normalize_not_nan|].
  apply Z.leb_gt in Hk.
  destruct (SFdiv_core_binary prec emax n 0 (10 ^ (- k)) 0) as [[q e] l] eqn:E.
  apply SF2Prim_not_nan, binary_round_aux_not_nan.
  unfold SFdiv_core_binary in E.
  set (m' := match _ with Z0 => n | Zpos _ => Z.shiftl n _ | Zneg _ => 0%Z end) in E.
  assert (Hm : (0 <= m')%Z).
  { unfold m'. destruct (_ - _)%Z; try lia. apply Z.shiftl_nonneg. lia. }
  clearbody m'.
  assert (Hq : q = (m' / 10 ^ (- k))%Z).
  { unfold Z.div. destruct (Z.div_eucl m' (10 ^ (- k))). now inversion E. }
  subst q. apply Z.div_pos; [lia|]. apply Z.pow_pos_nonneg; lia.
Qed.

(** ** Facts on the numeric built-ins *)

Lemma is_nan_true x : is_nan x = true -> x = nan.
Proof.
  intro H. apply Prim2SF_inj.
  destruct (Prim2SF x) eqn:E; try reflexivity;
    assert (N : is_nan x = false) by (apply is_nan_Prim2SF; rewrite E; discriminate);
    congruence.
Qed.

Lemma ltb_infinity_l x : (infinity <? x)%float = false.
Proof.
  rewrite ltb_spec. change (Prim2SF infinity) with (S754_infinity false).
  destruct (Prim2SF x) as [[]|[]| |[] m e]; reflexivity.
Qed.

Lemma Math_min2_infinity x : Math_min2 infinity x = x.
Proof.
  unfold Math_min2. change (is_nan infinity) with false. cbn [orb].
  destruct (is_nan x) eqn:N.
  - symmetry. now apply is_nan_true.
  - rewrite ltb_infinity_l. change (get_sign infinity) with false.
    destruct (x <? infinity)%float; reflexivity.
Qed.

Lemma Math_min2_nan a b :
  is_nan a = true \/ is_nan b = true -> Math_min2 a b = nan.
Proof. unfold Math_min2. intros [H|H]; rewrite H, ?orb_true_r; reflexivity. Qed.

(** For two numbers (neither is NaN), [Math.min] is one of them and is
    below both. *)
Lemma Math_min2_spec a b :
  is_nan a = false -> is_nan b = false ->
  (Math_min2 a b = a \/ Math_min2 a b = b)
  /\ (Math_min2 a b <=? a)%float = true
  /\ (Math_min2 a b <=? b)%float = true.
Proof.
  intros Na Nb. unfold Math_min2. rewrite Na, Nb. cbn [orb].
  destruct (a <? b)%float eqn:Hab.
  { split; [now left|]. split; [now apply leb_refl | now apply ltb_leb]. }
  destruct (b <? a)%float eqn:Hba.
  { split; [now right|]. split; [now apply ltb_leb | now apply leb_refl]. }
  assert (Lba : (b <=? a)%float = true).
  { destruct (float_total a b Na Nb); congruence. }
  assert (Lab : (a <=? b)%float = true).
  { destruct (float_total b a Nb Na); congruence. }
  destruct (get_sign a).
  - split; [now left|]. split; [now apply leb_refl | assumption].
  - split; [now right|]. split; [assumption | now apply leb_refl].
Qed.

Lemma Math_min2_not_nan a b :
  is_nan a = false -> is_nan b = false -> is_nan (Math_min2 a b) = false.
Proof.
  intros Na Nb. destruct (Math_min2_spec a b Na Nb) as [[E|E] _]; rewrite E; assumption.
Qed.

(** [Math.min] of a non-empty array of numbers is one of its elements and
    is below each of them. *)
Lemma Math_min_spec xs :
  xs <> [] -> Forall (fun x => is_nan x = false) xs ->
  In (Math_min xs) xs /\ Forall (fun x => (Math_min xs <=? x)%float = true) xs.
Proof.
  unfold Math_min. intros Hne Hall.
  destruct xs as [|x0 xs]; [congruence|]. clear Hne.
  cbn [fold_left]. rewrite Math_min2_infinity.
  inversion Hall as [|? ? N0 Hxs]; subst. clear Hall.
  assert (G : forall acc, is_nan acc = false ->
            (fold_left Math_min2 xs acc = acc \/ In (fold_left Math_min2 xs acc) xs)
            /\ (fold_left Math_min2 xs acc <=? acc)%float = true
            /\ Forall (fun x => (fold_left Math_min2 xs acc <=? x)%float = true) xs).
  { induction Hxs as [|y ys Ny Hys IH]; intros acc Na; cbn [fold_left].
    - split; [now left|]. split; [now apply leb_refl | constructor].
    - destruct (Math_min2_spec acc y Na Ny) as (Hor & Hle1 & Hle2).
      destruct (IH (Math_min2 acc y) (Math_min2_not_nan _ _ Na Ny)) as (Hin & Hle & Hfa).
      split; [|split].
      + destruct Hin as [E|Hin]; [|right; now right].
        rewrite E. destruct Hor as [E'|E']; rewrite E'; [now left | right; now left].
      + eapply leb_trans; eassumption.
      + constructor; [eapply leb_trans; eassumption | assumption]. }
  destruct (G x0 N0) as (Hin & Hle & Hfa).
  split.
  - destruct Hin as [E|Hin]; [left; now rewrite E | now right].
  - constructor; assumption.
Qed.

(** Adding +0 leaves a number unchanged (as [===] compares numbers). *)
Lemma add_zero_eqb x : is_nan x = false -> (x + 0 =? x)%float = true.
Proof.
  rewrite is_nan_Prim2SF. intro N.
  rewrite eqb_spec, add_spec. change (Prim2SF 0) with (S754_zero false).
  unfold SF64add, SFeqb.
  destruct (Prim2SF x) as [[]|[]| |[] m e]; cbn; try reflexivity; try congruence;
    rewrite Z.compare_refl;
    change (Pos.compare_cont Eq m m) with (Pos.compare m m);
    rewrite Pos.compare_refl; reflexivity.
Qed.

Lemma is_finite_not_nan x : is_finite x = true -> is_nan x = false.
Proof. unfold is_finite. destruct (is_nan x); [discriminate | reflexivity]. Qed.

(** Two floats are different when a test tells them apart. *)
Ltac float_neq :=
  let H := fresh in
  intro H;
  match type of H with
  | ?a = ?b => apply (f_equal (fun x => Leibniz.eqb x b)) in H; vm_compute in H; discriminate
  end.

(** ** Grouping *)

Section Grouping.
Variable key : Run -> string.

Lemma mapGet_pushTo k k' r m :
  mapGet k (pushTo k' r m) =
  if (k' =? k) then (mapGet k m ++ [r])%list else mapGet k m.
Proof.
  induction m as [|[k0 rs] m IH]; cbn.
  - destruct (k' =? k); reflexivity.
  - destruct (k0 =? k') eqn:E0; cbn.
    + apply String.eqb_eq in E0. subst k0.
      destruct (k' =? k); reflexivity.
    + rewrite IH. destruct (k0 =? k) eqn:E1; [|reflexivity].
      apply String.eqb_eq in E1. subst k0. rewrite String.eqb_sym, E0. reflexivity.
Qed.

Lemma keys_pushTo k r m :
  map fst (pushTo k r m) =
  if existsb (String.eqb k) (map fst m) then map fst m
  else (map fst m ++ [k])%list.
Proof.
  induction m as [|[k0 rs] m IH]; cbn; [reflexivity|].
  rewrite (String.eqb_sym k k0).
  destruct (k0 =? k) eqn:E0; cbn; [reflexivity|].
  rewrite IH. destruct (existsb _ _); reflexivity.
Qed.

Lemma groupBy_snoc l r :
  groupBy key (l ++ [r]) = pushTo (key r) r (groupBy key l).
Proof. unfold groupBy. rewrite fold_left_app. reflexivity. Qed.

(** The array stored under a key holds the runs with that key, in the
    order of the input. *)
Lemma mapGet_groupBy k l :
  mapGet k (groupBy key l) = filter (fun r => key r =? k) l.
Proof.
  induction l as [|r l IH] using rev_ind; [reflexivity|].
  rewrite groupBy_snoc, mapGet_pushTo, filter_app, IH. cbn.
  destruct (key r =? k); [reflexivity | now rewrite app_nil_r].
Qed.

Lemma keys_groupBy_In k l :
  In k (map fst (groupBy key l)) <-> exists r, In r l /\ key r = k.
Proof.
  revert k. induction l as [|r l IH] using rev_ind; intro k.
  - cbn. split; [tauto | intros (r & [] & _)].
  - rewrite groupBy_snoc, keys_pushTo.
    destruct (existsb _ _) eqn:E.
    + rewrite IH. apply existsb_exists in E. destruct E as (k0 & Hk0 & E).
      apply String.eqb_eq in E. subst k0. apply IH in Hk0.
      split.
      * intros (r' & Hin & Hk). exists r'. split; [apply in_or_app; now left | assumption].
      * intros (r' & Hin & Hk). apply in_app_or in Hin. destruct Hin as [Hin|[->|[]]].
        -- exists r'. now split.
        -- subst k. exact Hk0.
    + rewrite in_app_iff, IH. cbn. split.
      * intros [(r' & Hin & Hk)|[Hk|[]]].
        -- exists r'. split; [apply in_or_app; now left | assumption].
        -- exists r. split; [apply in_or_app; right; now left | assumption].
      * intros (r' & Hin & Hk). apply in_app_or in Hin. destruct Hin as [Hin|[->|[]]].
        -- left. exists r'. now split.
        -- right. now left.
Qed.

Lemma keys_groupBy_NoDup l : NoDup (map fst (groupBy key l)).
Proof.
  induction l as [|r l IH] using rev_ind; [constructor|].
  rewrite groupBy_snoc, keys_pushTo.
  destruct (existsb _ _) eqn:E; [assumption|].
  apply NoDup_app; [assumption | repeat constructor; intros [] | ].
  intros k0 Hin1 [<-|[]].
  assert (existsb (String.eqb (key r)) (map fst (groupBy key l)) = true).
  { apply existsb_exists. exists (key r). split; [assumption | apply String.eqb_refl]. }
  congruence.
Qed.

End Grouping.

(** ** Sorting *)

Section Sorting.
Context {A : Type}.
Variable cmp : A -> A -> float.

Lemma insertBy_perm x l : Permutation (insertBy cmp x l) (x :: l).
Proof.
  induction l as [|y l IH]; cbn; [reflexivity|].
  destruct (0 <? cmp x y)%float; [|reflexivity].
  rewrite IH. apply perm_swap.
Qed.

Lemma sortBy_perm l : Permutation (sortBy cmp l) l.
Proof.
  induction l as [|x l IH]; cbn; [reflexivity|].
  rewrite insertBy_perm. now constructor.
Qed.

End Sorting.

(** ** The empty summary *)


Lemma renderPracticeSummary_kept pg :
  renderPracticeSummary pg =
  match keptRuns pg with
  | [] => emptyView
  | _ =>
      let byTrack := groupBy (fun r => trackKey (targetDistanceM r)) (keptRuns pg) in
      let rows := map (trackRow byTrack) (sortBy trackCompare (map fst byTrack)) in
      {| practiceMsg := showingMsg (List.length (keptRuns pg));
         practiceTable := map snd rows;
         practiceSummary := map fst rows |}
  end.
Proof. reflexivity. Qed.

Lemma renderPracticeSummary_of_kept pg pg' :
  keptRuns pg = keptRuns pg' -> renderPracticeSummary pg = renderPracticeSummary pg'.
Proof. intros E. rewrite !renderPracticeSummary_kept, E. reflexivity. Qed.


Lemma filterRuns_nil targetStr tolStr : filterRuns targetStr tolStr [] = [].
Proof.
  unfold filterRuns.
  destruct (nonEmpty tolStr), (nonEmpty targetStr); try reflexivity.
  destruct (0 <? _)%float; reflexivity.
Qed.

(** ** The characters of printed numbers *)

Lemma allChars_app P a b : allChars P (a ++ b) = allChars P a && allChars P b.
Proof.
  induction a as [|c a IH]; cbn; [reflexivity|]. now rewrite IH, andb_assoc.
Qed.

Lemma allChars_weaken (P Q : ascii -> bool) s :
  (forall c, P c = true -> Q c = true) -> allChars P s = true -> allChars Q s = true.
Proof.
  intro HPQ. induction s as [|c s IH]; cbn; [reflexivity|].
  rewrite !andb_true_iff. intros [H1 H2]. split; auto.
Qed.

Lemma isDigit_isNumChar c : isDigit c = true -> isNumChar c = true.
Proof. unfold isNumChar. intros ->. reflexivity. Qed.

Lemma isNumChar_isGraph c : isNumChar c = true -> isGraph c = true.
Proof. destruct c as [[] [] [] [] [] [] [] []]; cbn; intro H; first [reflexivity | discriminate]. Qed.

Lemma string_of_uint_digits d : allChars isDigit (NilEmpty.string_of_uint d) = true.
Proof. induction d; cbn; auto. Qed.

Lemma natString_digits n : allChars isDigit (natString n) = true.
Proof.
  unfold natString, NilZero.string_of_uint.
  destruct (N.to_uint (Z.to_N n)) eqn:E; try reflexivity;
    rewrite <- E; apply string_of_uint_digits.
Qed.

Lemma natString_nonempty n : natString n <> "".
Proof.
  unfold natString, NilZero.string_of_uint.
  destruct (N.to_uint (Z.to_N n)); cbn; discriminate.
Qed.

Lemma digitChar_digit d : (0 <= d < 10)%Z -> isDigit (digitChar d) = true.
Proof.
  intro H.
  assert (C : (d = 0 \/ d = 1 \/ d = 2 \/ d = 3 \/ d = 4 \/ d = 5 \/ d = 6
               \/ d = 7 \/ d = 8 \/ d = 9)%Z) by lia.
  repeat (destruct C as [->|C]; [reflexivity|]). subst d. reflexivity.
Qed.

Lemma fixedDigits_digits w v : allChars isDigit (fixedDigits w v) = true.
Proof.
  revert v. induction w as [|w IH]; intro v; cbn [fixedDigits]; [reflexivity|].
  rewrite allChars_app, IH. cbn [allChars andb]. rewrite digitChar_digit; [reflexivity|].
  apply Z.mod_pos_bound. lia.
Qed.

Lemma fixedPoint_numChars f n : allChars isNumChar (fixedPoint f n) = true.
Proof.
  unfold fixedPoint. destruct f as [|f].
  - apply (allChars_weaken isDigit); [apply isDigit_isNumChar | apply natString_digits].
  - rewrite !allChars_app.
    rewrite (allChars_weaken isDigit isNumChar _ isDigit_isNumChar (natString_digits _)).
    rewrite (allChars_weaken isDigit isNumChar _ isDigit_isNumChar (fixedDigits_digits _ _)).
    reflexivity.
Qed.

Lemma largeToString_numChars x X : allChars isNumChar (largeToString x X) = true.
Proof.
  unfold largeToString.
  destruct (shortestFrom x X _ 1 17) as [s n].
  pose proof (natString_digits s) as Hs.
  pose proof (allChars_weaken isDigit isNumChar _ isDigit_isNumChar (natString_digits (n - 1)))
    as He.
  destruct (natString s) as [|d ds]; [reflexivity|].
  cbn in Hs. apply andb_true_iff in Hs. destruct Hs as [Hd Hds].
  apply isDigit_isNumChar in Hd.
  apply (allChars_weaken isDigit isNumChar _ isDigit_isNumChar) in Hds.
  destruct ds as [|d' ds'].
  - cbn. rewrite Hd. cbn. exact He.
  - cbn [allChars]. rewrite Hd, !allChars_app, Hds, He. reflexivity.
Qed.

(** [toFixed] prints with digits, signs, points and letters only: no
    space, and no byte outside ASCII. *)
Lemma Number_toFixed_graph f x : allChars isGraph (Number_toFixed f x) = true.
Proof.
  unfold Number_toFixed.
  destruct (Prim2SF x) as [s|[]| |s m e]; try reflexivity.
  - apply (allChars_weaken isNumChar); [apply isNumChar_isGraph | apply fixedPoint_numChars].
  - apply (allChars_weaken isNumChar); [apply isNumChar_isGraph|].
    rewrite allChars_app. apply andb_true_iff. split; [destruct s; reflexivity|].
    destruct (_ <=? _)%float; [apply largeToString_numChars | apply fixedPoint_numChars].
Qed.

Lemma append_inv_head s a b : s ++ a = s ++ b -> a = b.
Proof.
  induction s as [|c s IH]; cbn; [auto|]. intro E. injection E as E. auto.
Qed.

(** ** Printed numbers tell their values apart *)

(** A string is cut in one way only at a character it does not hold. *)
Lemma sep_inj (P : ascii -> bool) a1 a2 c r1 r2 :
  allChars P a1 = true -> allChars P a2 = true -> P c = false ->
  a1 ++ String c r1 = a2 ++ String c r2 -> a1 = a2 /\ r1 = r2.
Proof.
  intros H1 H2 Hc. revert a2 H2.
  induction a1 as [|c1 a1 IH]; intros [|c2 a2] H2 E; cbn [append allChars] in *.
  - injection E as ->. now split.
  - injection E as -> _. apply andb_true_iff in H2. destruct H2. congruence.
  - injection E as -> _. apply andb_true_iff in H1. destruct H1. congruence.
  - injection E as -> E. apply andb_true_iff in H1, H2.
    destruct H1 as [_ H1], H2 as [_ H2].
    destruct (IH H1 a2 H2 E) as [-> ->]. now split.
Qed.

Lemma snoc_inj a1 a2 c1 c2 :
  a1 ++ String c1 "" = a2 ++ String c2 "" -> a1 = a2 /\ c1 = c2.
Proof.
  revert a2. induction a1 as [|x a1 IH]; intros [|y a2] E; cbn [append] in E.
  - injection E as ->. now split.
  - injection E as -> E. destruct a2; discriminate.
  - injection E as -> E. destruct a1; discriminate.
  - injection E as -> E. destruct (IH a2 E) as [-> ->]. now split.
Qed.

Lemma digitChar_inj a b :
  (0 <= a < 10)%Z -> (0 <= b < 10)%Z -> digitChar a = digitChar b -> a = b.
Proof.
  intros Ha Hb E.
  assert (Ca : (a = 0 \/ a = 1 \/ a = 2 \/ a = 3 \/ a = 4 \/ a = 5 \/ a = 6
               \/ a = 7 \/ a = 8 \/ a = 9)%Z) by lia.
  assert (Cb : (b = 0 \/ b = 1 \/ b = 2 \/ b = 3 \/ b = 4 \/ b = 5 \/ b = 6
               \/ b = 7 \/ b = 8 \/ b = 9)%Z) by lia.
  clear Ha Hb.
  repeat (destruct Ca as [->|Ca]);
    try subst a; repeat (destruct Cb as [->|Cb]); try subst b;
    first [reflexivity | discriminate E].
Qed.

Lemma fixedDigits_inj w : forall a b,
  (0 <= a < 10 ^ Z.of_nat w)%Z -> (0 <= b < 10 ^ Z.of_nat w)%Z ->
  fixedDigits w a = fixedDigits w b -> a = b.
Proof.
  induction w as [|w IH]; intros a b Ha Hb E.
  - cbn in Ha, Hb. lia.
  - cbn [fixedDigits] in E. apply snoc_inj in E. destruct E as [E1 E2].
    rewrite Nat2Z.inj_succ, Z.pow_succ_r in Ha, Hb by lia.
    apply digitChar_inj in E2; try (apply Z.mod_pos_bound; lia).
    apply IH in E1.
    + rewrite (Z.div_mod a 10), (Z.div_mod b 10) by lia. congruence.
    + split; [apply Z.div_pos; lia | apply Z.div_lt_upper_bound; lia].
    + split; [apply Z.div_pos; lia | apply Z.div_lt_upper_bound; lia].
Qed.

Lemma natString_inj a b : (0 <= a)%Z -> (0 <= b)%Z -> natString a = natString b -> a = b.
Proof.
  intros Ha Hb E. unfold natString in E.
  assert (Hn : forall n, N.to_uint n <> Decimal.Nil).
  { intros [|p]; [discriminate | apply Unsigned.to_uint_nonnil]. }
  pose proof (NilZero.usu _ (Hn (Z.to_N a))) as Ua.
  pose proof (NilZero.usu _ (Hn (Z.to_N b))) as Ub.
  rewrite E, Ub in Ua. injection Ua as Ua.
  apply DecimalN.Unsigned.to_uint_inj in Ua. lia.
Qed.

Lemma fixedPoint_inj f a b :
  (0 <= a)%Z -> (0 <= b)%Z -> fixedPoint f a = fixedPoint f b -> a = b.
Proof.
  intros Ha Hb E. unfold fixedPoint in E. destruct f as [|f].
  - now apply natString_inj.
  - set (p := (10 ^ Z.of_nat (S f))%Z) in *.
    assert (Hp : (0 < p)%Z) by (apply Z.pow_pos_nonneg; lia).
    cbn [append] in E.
    apply (sep_inj isDigit) in E;
      [|apply natString_digits | apply natString_digits | reflexivity].
    destruct E as [E1 E2].
    apply natString_inj in E1; try (apply Z.div_pos; lia).
    apply fixedDigits_inj in E2; try (apply Z.mod_pos_bound; lia).
    rewrite (Z.div_mod a p), (Z.div_mod b p) by lia. congruence.
Qed.

Lemma fixedPoint_head f n : exists c r, fixedPoint f n = String c r /\ isDigit c = true.
Proof.
  pose proof (natString_digits (match f with O => n | _ => n / 10 ^ Z.of_nat f end)%Z) as Hd.
  pose proof (natString_nonempty (match f with O => n | _ => n / 10 ^ Z.of_nat f end)%Z) as Hn.
  unfold fixedPoint. destruct f as [|f];
    destruct (natString _) as [|c r]; try congruence;
    cbn [allChars] in Hd; apply andb_true_iff in Hd; destruct Hd as [Hc _];
    cbn [append]; eauto.
Qed.

Lemma scaledRound_nonneg m e f : (0 <= scaledRound m e f)%Z.
Proof.
  unfold scaledRound.
  assert (Hp : (0 < 10 ^ Z.of_nat f)%Z) by (apply Z.pow_pos_nonneg; lia).
  destruct (0 <=? e)%Z eqn:He.
  - apply Z.leb_le in He.
    assert (0 < 2 ^ e)%Z by (apply Z.pow_pos_nonneg; lia). nia.
  - apply Z.leb_gt in He.
    assert (0 < 2 ^ (- e))%Z by (apply Z.pow_pos_nonneg; lia).
    assert (0 < 2 ^ (1 - e))%Z by (apply Z.pow_pos_nonneg; lia).
    apply Z.div_pos; nia.
Qed.

Lemma toFixed_rounded f x v :
  roundedValue f x = Some v ->
  (0 <= snd v)%Z
  /\ Number_toFixed f x = (if fst v then "-" else "") ++ fixedPoint f (snd v).
Proof.
  unfold roundedValue, Number_toFixed.
  destruct (Prim2SF x) as [s|s| |s m e]; try discriminate.
  - intros [= <-]. cbn. split; [lia | reflexivity].
  - destruct (1e21 <=? abs x)%float; [discriminate|].
    intros [= <-]. cbn [fst snd]. split; [apply scaledRound_nonneg | reflexivity].
Qed.

(** Two numbers in the range of the fixed notation print alike exactly
    when they round to the same value with the same sign. *)
Lemma toFixed_same_iff f x y vx vy :
  roundedValue f x = Some vx -> roundedValue f y = Some vy ->
  (Number_toFixed f x = Number_toFixed f y <-> vx = vy).
Proof.
  intros Hx Hy.
  destruct (toFixed_rounded f x vx Hx) as [Nx ->].
  destruct (toFixed_rounded f y vy Hy) as [Ny ->].
  split; [|intros ->; reflexivity].
  destruct vx as [sx nx], vy as [sy ny]. cbn [fst snd] in *.
  destruct (fixedPoint_head f nx) as (cx & rx & Ex & Dx).
  destruct (fixedPoint_head f ny) as (cy & ry & Ey & Dy).
  destruct sx, sy; cbn [append]; intro E.
  - injection E as E. apply fixedPoint_inj in E; congruence.
  - rewrite Ey in E. injection E as E _. subst cy. discriminate.
  - rewrite Ex in E. injection E as E _. subst cx. discriminate.
  - apply fixedPoint_inj in E; congruence.
Qed.

(** ** Printed numbers read back as numbers *)

Lemma append_nil_r s : s ++ "" = s.
Proof. induction s as [|c s IH]; cbn; [reflexivity | now rewrite IH]. Qed.

Lemma isGraph_not_white c r : isGraph c = true -> isWhiteSpace (String c r) = false.
Proof.
  intro H. destruct r as [|d [|e [|x y]]];
    destruct c as [[] [] [] [] [] [] [] []]; cbn in H |- *;
    first [reflexivity | discriminate].
Qed.

Lemma trimEnd_graph s : allChars isGraph s = true -> trimEnd s = s.
Proof.
  induction s as [|c s IH]; cbn [allChars trimEnd]; [reflexivity|].
  rewrite andb_true_iff. intros [Hc Hs].
  rewrite (IH Hs). cbv zeta. now rewrite (isGraph_not_white c s Hc).
Qed.

Lemma trimStart_graph s : allChars isGraph s = true -> trimStart s = s.
Proof.
  destruct s as [|c r]; [reflexivity|]. cbn [allChars]. rewrite andb_true_iff.
  intros [Hc _]. cbn [trimStart].
  rewrite (isGraph_not_white c "" Hc).
  destruct r as [|d r2]; [reflexivity|].
  rewrite (isGraph_not_white c (String d "") Hc).
  destruct r2 as [|e r3]; [reflexivity|].
  now rewrite (isGraph_not_white c (String d (String e "")) Hc).
Qed.

Lemma trim_graph s : allChars isGraph s = true -> trim s = s.
Proof.
  intro H. unfold trim. rewrite (trimStart_graph s H). now apply trimEnd_graph.
Qed.

Lemma spanDigits_app ds r :
  allChars isDigit ds = true -> noDigitAhead r -> spanDigits (ds ++ r) = (ds, r).
Proof.
  intros Hds Hr. induction ds as [|c ds IH]; cbn [allChars append spanDigits] in *.
  - destruct r as [|c r]; [reflexivity|]. cbn [noDigitAhead spanDigits] in *. now rewrite Hr.
  - apply andb_true_iff in Hds. destruct Hds as [Hc Hds]. now rewrite Hc, IH.
Qed.

Lemma digitVal_nonneg c : isDigit c = true -> (0 <= digitVal c)%Z.
Proof.
  unfold isDigit, digitVal. rewrite andb_true_iff, Nat.leb_le. lia.
Qed.

Lemma digitsValue_nonneg ds : forall acc,
  allChars isDigit ds = true -> (0 <= acc)%Z -> (0 <= digitsValue acc ds)%Z.
Proof.
  induction ds as [|c ds IH]; intros acc H Ha; cbn [allChars digitsValue] in *; [assumption|].
  apply andb_true_iff in H. destruct H as [Hc Hds].
  apply IH; [assumption|]. pose proof (digitVal_nonneg c Hc). lia.
Qed.

Lemma expPart_noDigit E : noDigitAhead (expPart E).
Proof. destruct E; cbn; [reflexivity | exact I]. Qed.

Lemma parseExponent_expPart E : expOk E -> exists z, parseExponent (expPart E) = Some z.
Proof.
  destruct E as [e|]; cbn [expPart expOk]; [|intros _; now exists 0%Z].
  intros [He Hne]. cbn.
  pose proof (spanDigits_app e "" He I) as Hs. rewrite append_nil_r in Hs. rewrite Hs.
  destruct e; [congruence | eauto].
Qed.

(** The digits, point and exponent of a printed number make a decimal
    literal of non-negative mantissa. *)
Lemma parseUnsignedDecimal_shape ip (fp : option string) E :
  allChars isDigit ip = true -> ip <> "" ->
  match fp with Some f => allChars isDigit f = true | None => True end ->
  expOk E ->
  exists m e,
    parseUnsignedDecimal
      (ip ++ match fp with Some f => "." ++ f | None => "" end ++ expPart E) = Some (m, e)
    /\ (0 <= m)%Z.
Proof.
  intros Hip Hne Hfp HE. unfold parseUnsignedDecimal.
  destruct (parseExponent_expPart E HE) as [z Hz].
  destruct fp as [f|].
  - rewrite (spanDigits_app ip _ Hip) by reflexivity.
    cbn [append]. rewrite (spanDigits_app f _ Hfp (expPart_noDigit E)), Hz.
    destruct (ip ++ f) as [|c ds] eqn:Eds; [destruct ip; [congruence | discriminate]|].
    do 2 eexists. split; [reflexivity|]. rewrite <- Eds.
    apply digitsValue_nonneg; [|lia]. rewrite allChars_app, Hip, Hfp. reflexivity.
  - cbn [append]. rewrite (spanDigits_app ip _ Hip (expPart_noDigit E)).
    assert (Hr : match expPart E with String "." r1 => spanDigits r1 | _ => ("", expPart E) end
                 = ("", expPart E)) by (destruct E; reflexivity).
    rewrite Hr, Hz, append_nil_r.
    destruct ip as [|c ds] eqn:Eds; [congruence|].
    do 2 eexists. split; [reflexivity|].
    apply digitsValue_nonneg; [assumption | lia].
Qed.

Lemma isNumChar_not_radix c :
  isNumChar c = true ->
  (c =? "x")%char = false /\ (c =? "X")%char = false /\ (c =? "o")%char = false
  /\ (c =? "O")%char = false /\ (c =? "b")%char = false /\ (c =? "B")%char = false.
Proof.
  destruct c as [[] [] [] [] [] [] [] []]; cbn; intro H;
    first [discriminate | repeat split; reflexivity].
Qed.

Lemma parseNonDecimal_numChars s : allChars isNumChar s = true -> parseNonDecimal s = None.
Proof.
  destruct s as [|c0 [|c1 [|c2 r]]]; intro H.
  - reflexivity.
  - destruct c0 as [[] [] [] [] [] [] [] []]; reflexivity.
  - destruct c0 as [[] [] [] [] [] [] [] []]; reflexivity.
  - cbn in H. apply andb_true_iff in H. destruct H as [_ H].
    apply andb_true_iff in H. destruct H as [H1 _].
    destruct (isNumChar_not_radix c1 H1) as (E1 & E2 & E3 & E4 & E5 & E6).
    destruct c0 as [[] [] [] [] [] [] [] []]; try reflexivity.
    unfold parseNonDecimal. rewrite E1, E2, E3, E4, E5, E6. reflexivity.
Qed.

Lemma splitSign_digit c r : isDigit c = true -> splitSign (String c r) = (false, String c r).
Proof. destruct c as [[] [] [] [] [] [] [] []]; cbn; intro H; first [reflexivity | discriminate]. Qed.

Lemma digit_not_Infinity c r : isDigit c = true -> (String c r =? "Infinity") = false.
Proof. destruct c as [[] [] [] [] [] [] [] []]; cbn; intro H; first [reflexivity | discriminate]. Qed.

(** A number printed as (sign,) digits, point and exponent reads back as a
    number. *)
Lemma StringToNumber_printed (neg : bool) ip fp E :
  allChars isDigit ip = true -> ip <> "" ->
  match fp with Some f => allChars isDigit f = true | None => True end ->
  expOk E ->
  is_nan (StringToNumber
            ((if neg then "-" else "") ++
             ip ++ match fp with Some f => "." ++ f | None => "" end ++ expPart E)) = false.
Proof.
  intros Hip Hne Hfp HE.
  set (body := ip ++ match fp with Some f => "." ++ f | None => "" end ++ expPart E).
  assert (Hbody : allChars isNumChar body = true).
  { unfold body. rewrite !allChars_app.
    rewrite (allChars_weaken isDigit isNumChar _ isDigit_isNumChar Hip).
    assert (allChars isNumChar (expPart E) = true) as ->.
    { destruct E as [e|]; [|reflexivity]. destruct HE as [He _]. cbn.
      apply (allChars_weaken isDigit isNumChar _ isDigit_isNumChar He). }
    destruct fp as [f|]; [|reflexivity].
    cbn. now rewrite (allChars_weaken isDigit isNumChar _ isDigit_isNumChar Hfp). }
  assert (Hall : allChars isNumChar ((if neg then "-" else "") ++ body) = true).
  { rewrite allChars_app, Hbody. destruct neg; reflexivity. }
  destruct (parseUnsignedDecimal_shape ip fp E Hip Hne Hfp HE) as (m & e & Hp & Hm).
  fold body in Hp.
  assert (Hd : exists c r, body = String c r /\ isDigit c = true).
  { unfold body. destruct ip as [|c ip']; [congruence|]. cbn in Hip.
    apply andb_true_iff in Hip. destruct Hip as [Hc _]. cbn. eauto. }
  destruct Hd as (c & r & Eb & Hc).
  assert (Hs : splitSign ((if neg then "-" else "") ++ body) = (neg, body)).
  { destruct neg; [reflexivity|]. cbn [append]. rewrite Eb. now apply splitSign_digit. }
  assert (Hi : (body =? "Infinity") = false) by (rewrite Eb; now apply digit_not_Infinity).
  unfold StringToNumber.
  rewrite trim_graph
    by (apply (allChars_weaken isNumChar); [apply isNumChar_isGraph | exact Hall]).
  remember ((if neg then "-" else "") ++ body) as whole eqn:Ew.
  destruct whole as [|a t].
  - destruct neg; [discriminate|]. cbn in Ew. congruence.
  - rewrite (parseNonDecimal_numChars _ Hall), Hs, Hi, Hp.
    now apply decToFloat_not_nan.
Qed.

(** ** Track keys and their order *)

Lemma toFixed_finite_reads_back f x s m e :
  Prim2SF x = S754_finite s m e -> is_nan (keyNum (Number_toFixed f x)) = false.
Proof.
  intro E. unfold keyNum, Number, Number_toFixed. rewrite E.
  destruct (1e21 <=? abs x)%float.
  - unfold largeToString.
    destruct (shortestFrom _ _ _ 1 17) as [s' n].
    pose proof (natString_digits s') as Hs. pose proof (natString_nonempty s') as Hn.
    destruct (natString s') as [|d ds]; [congruence|].
    cbn [allChars] in Hs. apply andb_true_iff in Hs. destruct Hs as [Hd Hds].
    destruct ds as [|d' ds'].
    + apply (StringToNumber_printed s (String d "") None (Some (natString (n - 1)))).
      * cbn. now rewrite Hd.
      * discriminate.
      * exact I.
      * split; [apply natString_digits | apply natString_nonempty].
    + apply (StringToNumber_printed s (String d "") (Some (String d' ds'))
                                    (Some (natString (n - 1)))).
      * cbn. now rewrite Hd.
      * discriminate.
      * exact Hds.
      * split; [apply natString_digits | apply natString_nonempty].
  - unfold fixedPoint. destruct f as [|f].
    + rewrite <- (append_nil_r (natString _)).
      apply (StringToNumber_printed s (natString (scaledRound m e 0)) None None);
        [apply natString_digits | apply natString_nonempty | exact I | exact I].
    + rewrite <- (append_nil_r (fixedDigits _ _)).
      apply (StringToNumber_printed s (natString _) (Some (fixedDigits (S f) _)) None);
        [apply natString_digits | apply natString_nonempty | apply fixedDigits_digits | exact I].
Qed.

Lemma trackKey_ok m : okKey (trackKey m).
Proof.
  unfold okKey, trackKey.
  destruct (negb (Number_isFinite (JNum (Number m))) || (Number m =? 0)%float) eqn:C;
    [now left | right].
  apply orb_false_iff in C. destruct C as [C _]. apply negb_false_iff in C.
  cbn [Number_isFinite] in C. apply is_finite_not_nan, is_nan_Prim2SF in C.
  destruct (Prim2SF (Number m)) as [s|s| |s mm e] eqn:E.
  - unfold Number_toFixed. rewrite E. vm_compute. reflexivity.
  - unfold Number_toFixed. rewrite E. destruct s; vm_compute; reflexivity.
  - congruence.
  - eapply toFixed_finite_reads_back; eassumption.
Qed.

Lemma trackCompare_pos a b :
  (0 <? trackCompare a b)%float =
  if (a =? blank) then true
  else if (b =? blank) then false
  else (keyNum b <? keyNum a)%float.
Proof.
  unfold trackCompare. destruct (a =? blank); [reflexivity|].
  destruct (b =? blank); [reflexivity|]. apply sub_pos.
Qed.

Lemma insertBy_keyOrder x l :
  okKey x -> Forall okKey l -> (x = blank -> ~ In blank l) ->
  StronglySorted keyOrder l -> StronglySorted keyOrder (insertBy trackCompare x l).
Proof.
  intros Hx Hl Hb Hs. induction Hs as [|y l Hs IH Hy]; cbn [insertBy].
  - repeat constructor.
  - inversion Hl as [|? ? Oy Ol]; subst.
    rewrite trackCompare_pos.
    destruct (x =? blank) eqn:Ex.
    + apply String.eqb_eq in Ex. subst x.
      assert (Hyb : y <> blank) by (intro; subst; apply Hb; [reflexivity | now left]).
      constructor.
      * apply IH; [assumption|]. intros _ Hin. apply Hb; [reflexivity | now right].
      * apply (Permutation_Forall (Permutation_sym (insertBy_perm trackCompare blank l))).
        constructor; [|assumption]. split; [assumption | now left].
    + apply String.eqb_neq in Ex.
      destruct Hx as [Hx|Hx]; [contradiction|].
      destruct (y =? blank) eqn:Ey.
      * apply String.eqb_eq in Ey. subst y.
        constructor; [now constructor|].
        constructor; [split; [assumption | now left]|].
        apply Forall_forall. intros z Hz. rewrite Forall_forall in Hy.
        destruct (Hy z Hz) as [Hbb _]. congruence.
      * apply String.eqb_neq in Ey.
        destruct Oy as [Oy|Oy]; [contradiction|].
        destruct (keyNum y <? keyNum x)%float eqn:Hlt.
        -- constructor.
           ++ apply IH; [assumption|]. intro; contradiction.
           ++ apply (Permutation_Forall (Permutation_sym (insertBy_perm trackCompare x l))).
              constructor; [|assumption].
              split; [assumption | right; now apply ltb_leb].
        -- assert (Hle : (keyNum x <=? keyNum y)%float = true).
           { destruct (float_total (keyNum y) (keyNum x) Oy Hx); congruence. }
           constructor; [now constructor|].
           constructor; [split; [assumption | now right]|].
           apply Forall_forall. intros z Hz. rewrite Forall_forall in Hy.
           destruct (Hy z Hz) as [_ [Hz1|Hz1]]; (split; [assumption|]);
             [now left | right; eapply leb_trans; eassumption].
Qed.

Lemma sortBy_keyOrder l :
  Forall okKey l -> NoDup l -> StronglySorted keyOrder (sortBy trackCompare l).
Proof.
  intros Hok Hnd. induction l as [|x l IH]; cbn [sortBy fold_right]; [constructor|].
  inversion Hok as [|? ? Ox Ol]; subst. inversion Hnd as [|? ? Nx Nl]; subst.
  apply insertBy_keyOrder.
  - assumption.
  - apply (Permutation_Forall (Permutation_sym (sortBy_perm trackCompare l))). assumption.
  - intros -> Hin. apply Nx.
    apply (Permutation_in _ (sortBy_perm trackCompare l)). assumption.
  - apply IH; assumption.
Qed.

Lemma summaryKeys_sorted pg :
  summaryKeys pg =
  match keptRuns pg with
  | [] => []
  | _ => sortBy trackCompare (map fst (groupBy trackOf (keptRuns pg)))
  end.
Proof.
  unfold summaryKeys. rewrite renderPracticeSummary_kept.
  destruct (keptRuns pg) as [|r runs]; [reflexivity|].
  cbv zeta. cbn [practiceSummary]. rewrite !map_map.
  rewrite (map_ext _ (fun k => k)) by reflexivity. apply map_id.
Qed.

Lemma summaryKeys_perm pg :
  Permutation (summaryKeys pg) (map fst (groupBy trackOf (keptRuns pg))).
Proof.
  rewrite summaryKeys_sorted.
  destruct (keptRuns pg) as [|r runs] eqn:E; [reflexivity|].
  apply sortBy_perm.
Qed.

(** ** Ranking the setups *)

Section RunningMinimum.
Context {A : Type}.
Variables (val : A -> float) (lab : A -> string).

Lemma fold_stepMin_spec (l : list A) :
  (fold_left (stepMin val lab) l ("", infinity) = ("", infinity)
   /\ forall c, In c l -> (val c <? infinity)%float = false)
  \/ (exists c, firstLowest val l c
                /\ fold_left (stepMin val lab) l ("", infinity) = (lab c, val c)).
Proof.
  induction l as [|x l IH] using rev_ind.
  - left. split; [reflexivity | intros c []].
  - rewrite fold_left_app. cbn [fold_left].
    destruct IH as [[E Hall] | (c & (pre & post & El & Hlow & Hpre) & E)];
      rewrite E; unfold stepMin; cbn [snd].
    + destruct (val x <? infinity)%float eqn:Hx.
      * right. exists x. split; [|reflexivity].
        exists l, []. split; [reflexivity|]. split.
        -- intros d Hd. apply in_app_or in Hd. destruct Hd as [Hd|[<-|[]]].
           ++ apply not_true_is_false. intro H.
              pose proof (ltb_trans _ _ _ H Hx) as H1.
              rewrite (Hall d Hd) in H1. discriminate.
           ++ apply ltb_irrefl.
        -- intros d Hd. apply not_true_is_false. intro H.
           pose proof (leb_ltb_trans _ _ _ H Hx) as H1.
           rewrite (Hall d Hd) in H1. discriminate.
      * left. split; [reflexivity|].
        intros d Hd. apply in_app_or in Hd. destruct Hd as [Hd|[<-|[]]]; auto.
    + destruct (val x <? val c)%float eqn:Hx.
      * right. exists x. split; [|reflexivity].
        exists l, []. split; [reflexivity|]. split.
        -- intros d Hd. apply in_app_or in Hd. destruct Hd as [Hd|[<-|[]]].
           ++ apply not_true_is_false. intro H.
              pose proof (ltb_trans _ _ _ H Hx) as H1.
              rewrite (Hlow d Hd) in H1. discriminate.
           ++ apply ltb_irrefl.
        -- intros d Hd. apply not_true_is_false. intro H.
           pose proof (leb_ltb_trans _ _ _ H Hx) as H1.
           rewrite (Hlow d Hd) in H1. discriminate.
      * right. exists c. split; [|reflexivity].
        exists pre, (post ++ [x])%list. split; [|split].
        -- rewrite El, <- app_assoc. reflexivity.
        -- intros d Hd. apply in_app_or in Hd. destruct Hd as [Hd|[<-|[]]]; auto.
        -- exact Hpre.
Qed.
End RunningMinimum.

Lemma setupStep_avg b e :
  (bestSetupAvg (setupStep b e), bestAvgVal (setupStep b e)) =
  match setupStat e with
  | Some c => avgStep (bestSetupAvg b, bestAvgVal b) c
  | None => (bestSetupAvg b, bestAvgVal b)
  end.
Proof.
  destruct e as [sk sRuns]. unfold setupStep, setupStat, avgStep, stepMin. cbn [fst snd].
  destruct (finiteScores sRuns) as [|s ss]; [reflexivity|].
  cbn [st_avg st_key st_n].
  destruct (_ <? bestAvgVal b)%float; cbn [bestSingleVal bestSetupAvg bestAvgVal];
    destruct (_ <? bestSingleVal b)%float; reflexivity.
Qed.

Lemma setupStep_single b e :
  (bestSetupSingle (setupStep b e), bestSingleVal (setupStep b e)) =
  match setupStat e with
  | Some c => singleStep (bestSetupSingle b, bestSingleVal b) c
  | None => (bestSetupSingle b, bestSingleVal b)
  end.
Proof.
  destruct e as [sk sRuns]. unfold setupStep, setupStat, singleStep, stepMin. cbn [fst snd].
  destruct (finiteScores sRuns) as [|s ss]; [reflexivity|].
  cbn [st_best st_key].
  destruct (_ <? bestAvgVal b)%float; cbn [bestSingleVal bestSetupSingle];
    destruct (_ <? bestSingleVal b)%float; reflexivity.
Qed.

Lemma rankSetups_avg_fold m b :
  (bestSetupAvg (fold_left setupStep m b), bestAvgVal (fold_left setupStep m b)) =
  fold_left avgStep (setupStats m) (bestSetupAvg b, bestAvgVal b).
Proof.
  revert b. induction m as [|e m IH]; intro b; [reflexivity|].
  cbn [fold_left setupStats flat_map]. rewrite IH, setupStep_avg, fold_left_app.
  destruct (setupStat e); reflexivity.
Qed.

Lemma rankSetups_single_fold m b :
  (bestSetupSingle (fold_left setupStep m b), bestSingleVal (fold_left setupStep m b)) =
  fold_left singleStep (setupStats m) (bestSetupSingle b, bestSingleVal b).
Proof.
  revert b. induction m as [|e m IH]; intro b; [reflexivity|].
  cbn [fold_left setupStats flat_map]. rewrite IH, setupStep_single, fold_left_app.
  destruct (setupStat e); reflexivity.
Qed.

Lemma finiteScores_not_nan rs : Forall (fun x => is_nan x = false) (finiteScores rs).
Proof.
  unfold finiteScores. apply Forall_forall. intros x Hx.
  apply filter_In in Hx. destruct Hx as [_ Hx]. now apply is_finite_not_nan.
Qed.

(** Every ranked setup is an entry of the map with a finite score; its
    best is one of its finite scores and is below each of them. *)
Lemma setupStats_In bySetup c :
  In c (setupStats bySetup) ->
  exists sRuns,
    In (st_key c, sRuns) bySetup
    /\ finiteScores sRuns <> []
    /\ st_avg c = (arraySum (finiteScores sRuns) / lengthNum (finiteScores sRuns))%float
    /\ st_n c = List.length (finiteScores sRuns)
    /\ In (st_best c) (finiteScores sRuns)
    /\ Forall (fun x => (st_best c <=? x)%float = true) (finiteScores sRuns).
Proof.
  unfold setupStats. rewrite in_flat_map. intros ([sk sRuns] & Hin & Hc).
  unfold setupStat in Hc. cbn [fst snd] in Hc.
  destruct (finiteScores sRuns) as [|s ss] eqn:E; [destruct Hc|].
  destruct Hc as [<-|[]]. cbn [st_key st_avg st_best st_n].
  exists sRuns. rewrite E.
  assert (Hne : s :: ss <> []) by discriminate.
  pose proof (finiteScores_not_nan sRuns) as Hnn. rewrite E in Hnn.
  destruct (Math_min_spec (s :: ss) Hne Hnn) as [Hmin Hle].
  repeat split; assumption.
Qed.

(** ** The runs of a setup *)

Lemma mapGet_In k v (m : RunMap) :
  NoDup (map fst m) -> In (k, v) m -> mapGet k m = v.
Proof.
  induction m as [|[k0 v0] m IH]; cbn [map fst mapGet]; intros Hnd Hin; [destruct Hin|].
  inversion Hnd as [|? ? Hni Hnd']; subst.
  destruct Hin as [[= -> ->]|Hin].
  - now rewrite String.eqb_refl.
  - destruct (k0 =? k) eqn:E.
    + apply String.eqb_eq in E. subst k0. exfalso. apply Hni.
      apply (in_map fst) in Hin. exact Hin.
    + now apply IH.
Qed.

(** A ranked setup stands for the runs of the group that have its key:
    its mean, its number of scores and its best are those of their finite
    scores. *)
Lemma setupStats_runs (rs : list Run) (c : SetupStat) :
  In c (setupStats (groupBy setupKey rs)) ->
  finiteScores (setupRuns rs (st_key c)) <> []
  /\ st_avg c = (arraySum (finiteScores (setupRuns rs (st_key c)))
                 / lengthNum (finiteScores (setupRuns rs (st_key c))))%float
  /\ st_n c = List.length (finiteScores (setupRuns rs (st_key c)))
  /\ In (st_best c) (finiteScores (setupRuns rs (st_key c)))
  /\ Forall (fun x => (st_best c <=? x)%float = true)
            (finiteScores (setupRuns rs (st_key c))).
Proof.
  intro Hc. apply setupStats_In in Hc.
  destruct Hc as (sRuns & Hin & H).
  apply mapGet_In in Hin; [|apply keys_groupBy_NoDup].
  rewrite mapGet_groupBy in Hin. unfold setupRuns. rewrite Hin. exact H.
Qed.

(* ================================================================= *)
(** * Properties of the program *)

(** ** Scoring *)

Section RoundToHundredths.
Local Open Scope Z_scope.

Lemma Prim2SF_2p52 :
  Prim2SF 4503599627370496 = S754_finite false 4503599627370496 0.
Proof. vm_compute. reflexivity. Qed.

(** Below 2^52 in magnitude a finite number has a negative exponent. *)
Lemma small_exponent y s m e :
  Prim2SF y = S754_finite s m e ->
  (abs y <? 4503599627370496)%float = true -> e < 0.
Proof.
  intros E H. pose proof (Prim2SF_valid y) as V. rewrite E in V. cbn [valid_binary] in V.
  rewrite ltb_spec, abs_spec, E, Prim2SF_2p52 in H. cbn [SFabs] in H.
  unfold SFltb, SFcompare in H.
  destruct (Z.compare_spec e 0) as [->|L|G]; [|exact L|discriminate].
  exfalso. apply bounded_canonical in V as (_ & _ & V3).
  rewrite emin_value in V3. specialize (V3 ltac:(lia)).
  pose proof (digits2_bounds m) as [D _]. rewrite V3 in D.
  change (2 ^ (prec - 1)) with 4503599627370496 in D.
  cbn [Z.compare] in H. clear E V3.
  pose proof (Pos.compare_spec m 4503599627370496%positive) as C.
  unfold Pos.compare in C.
  destruct C as [A|A|A]; try discriminate H.
  apply Pos2Z.pos_lt_pos in A.
  exact (Z.lt_irrefl _ (Z.le_lt_trans _ _ _ D A)).
Qed.

Lemma large_exponent y s m e :
  Prim2SF y = S754_finite s m e ->
  (abs y <? 4503599627370496)%float = false -> 0 <= e.
Proof.
  intros E H. rewrite ltb_spec, abs_spec, E, Prim2SF_2p52 in H. cbn [SFabs] in H.
  unfold SFltb, SFcompare in H.
  destruct (Z.compare_spec e 0) as [->|L|G]; [apply Z.le_refl|discriminate|].
  apply Z.lt_le_incl, G.
Qed.

(** [Math.round] gives the nearest integer, the larger one on a tie. *)
Lemma Math_round_nearest y :
  (abs y <? 4503599627370496)%float = true ->
  exists k, nearestInteger y k
            /\ (Math_round y = Z2Prim k \/ (k = 0 /\ (y <=? 0)%float = true
                                            /\ Math_round y = neg_zero)).
Proof.
  intros H. unfold nearestInteger, Math_round.
  destruct (Prim2SF y) as [s|s| |s m e] eqn:E.
  - exists 0. split; [reflexivity|].
    rewrite <- (SF2Prim_Prim2SF y), E.
    destruct s; [right|left]; repeat split; reflexivity.
  - rewrite ltb_spec, abs_spec, E in H. discriminate.
  - rewrite ltb_spec, abs_spec, E in H. discriminate.
  - pose proof (small_exponent y s m e E H) as He.
    destruct (Z.leb_spec 0 e) as [G|_]; [lia|].
    set (v := cond_Zopp s (Zpos m)). set (P := 2 ^ (- e)).
    assert (HP : 0 < P) by (unfold P; apply Z.pow_pos_nonneg; lia).
    assert (HD : 2 ^ (1 - e) = 2 * P).
    { unfold P. replace (1 - e) with (1 + - e) by lia.
      rewrite Z.pow_add_r by lia. reflexivity. }
    rewrite HD. set (n := (2 * v + P) / (2 * P)).
    pose proof (Z.div_mod (2 * v + P) (2 * P) ltac:(lia)) as DM.
    pose proof (Z.mod_pos_bound (2 * v + P) (2 * P) ltac:(lia)) as MB.
    fold n in DM.
    exists n. cbv zeta. split; [nia|].
    destruct (Z.eqb_spec n 0) as [N|N]; [|now left].
    destruct s; [right|left; now rewrite N].
    split; [exact N|]. split; [|reflexivity].
    rewrite leb_spec, E. reflexivity.
Qed.

Lemma Math_round_large y :
  (abs y <? 4503599627370496)%float = false -> Math_round y = y.
Proof.
  intros H. unfold Math_round.
  destruct (Prim2SF y) as [s|s| |s m e] eqn:E; try reflexivity.
  pose proof (large_exponent y s m e E H) as He.
  destruct (Z.leb_spec 0 e); [reflexivity|lia].
Qed.

(** [round2]: the quotient by 100 of the integer nearest to the product by
    100. *)
Lemma round2_spec x :
  ((abs (x * 100) <? 4503599627370496)%float = true ->
     exists k, nearestInteger (x * 100) k
               /\ (round2 x = (Z2Prim k / 100)%float
                   \/ (k = 0 /\ (x * 100 <=? 0)%float = true /\ round2 x = neg_zero)))
  /\ ((abs (x * 100) <? 4503599627370496)%float = false ->
        round2 x = (x * 100 / 100)%float).
Proof.
  unfold round2. split; intros H.
  - destruct (Math_round_nearest _ H) as (k & Hk & [R|(K & L & R)]);
      exists k; (split; [exact Hk|]); rewrite R.
    + now left.
    + right. repeat split; assumption.
  - now rewrite (Math_round_large _ H).
Qed.

End RoundToHundredths.

(** C1, as stated, fails: the total is not always the two-decimal rounding
    of the sum.  With a distance of 1e307 the sum is a finite number, but
    its product by 100 overflows and the total is Infinity; and with no
    distance and the single time 0.005 the sum is the binary64 number
    nearest to 100.005, which lies below 100.005 and prints as 100.00 with
    two decimals, while the total is 100.01. *)
Lemma computeScore_total_not_rounded :
  is_finite (100 + 2.0 * distanceUsed (scoreInput (JNum 1e307) (JNum 10) (JNum 10) (JNum 10)
                                                   false false false false)
             + timeAverage (scoreInput (JNum 1e307) (JNum 10) (JNum 10) (JNum 10)
                                       false false false false) + 0 + 0 + 0)%float = true
  /\ total (computeScore (scoreInput (JNum 1e307) (JNum 10) (JNum 10) (JNum 10)
                                     false false false false)) = infinity
  /\ (100 + 2.0 * distanceUsed (scoreInput (JStr "") (JNum 0.005) JUndefined JUndefined
                                           false false false false)
      + timeAverage (scoreInput (JStr "") (JNum 0.005) JUndefined JUndefined
                                false false false false) + 0 + 0 + 0)%float = 100.005%float
  /\ Number_toFixed 2 100.005 = "100.00"
  /\ total (computeScore (scoreInput (JStr "") (JNum 0.005) JUndefined JUndefined
                                     false false false false)) = 100.01%float
  /\ Number_toFixed 2 100.01 = "100.01".
Proof.
  repeat split; vm_compute; reflexivity.
Qed.

(** C1, amended: the total is [Math.round(sum * 100) / 100] in binary64,
    for the sum 100 + 2.0 * distance used + time average + (-100 with the
    bucket bonus) + (150 with the competition violation) + (300 with the
    construction violation), added from left to right.  While the product
    of the sum by 100 is below 2^52 in magnitude, the total is the quotient
    by 100 of the integer nearest to that product, the larger integer on a
    tie (or -0 when that integer is 0 and the product is negative or -0);
    otherwise the product is left as it is, and the total is its quotient
    by 100.  The violation flags are the fields
    [competitionViolationPoints] and [constructionViolationPoints] that
    [computeScore] reads; the distance used and the time average are the
    ones the result reports, rounded alike, in its breakdown.  Distance 300
    with three times of 10 and no flag scores 710, with the bucket bonus
    610, and with both violations (no bonus) 1160; distance 123.456 with
    the times 9.87, 10.11 and 10.5 scores 357.07.  By itself, 123.456 is
    rounded to 123.46, 0.615 to 0.62, 1.005 to 1, -2.675 to -2.67 and
    -0.004 to -0. *)
Theorem computeScore_total :
  (forall inp : RunInput,
     exists sum : float,
       sum = (100 + 2.0 * distanceUsed inp + timeAverage inp
              + (if ToBoolean (bucketBonus inp) then -100 else 0)
              + (if ToBoolean (competitionViolationPoints inp) then 150 else 0)
              + (if ToBoolean (constructionViolationPoints inp) then 300 else 0))%float
       /\ ((abs (sum * 100) <? 4503599627370496)%float = true ->
           exists k : Z,
             nearestInteger (sum * 100) k
             /\ (total (computeScore inp) = (Z2Prim k / 100)%float
                 \/ (k = 0%Z /\ (sum * 100 <=? 0)%float = true
                     /\ total (computeScore inp) = neg_zero)))
       /\ ((abs (sum * 100) <? 4503599627370496)%float = false ->
           total (computeScore inp) = (sum * 100 / 100)%float))
  /\ (forall inp : RunInput,
        distCm (breakdown (computeScore inp)) = round2 (distanceUsed inp)
        /\ distanceScore (breakdown (computeScore inp)) = round2 (2.0 * distanceUsed inp)
        /\ timeAvg (computeScore inp) = round2 (timeAverage inp)
        /\ bucket (breakdown (computeScore inp))
           = (if ToBoolean (bucketBonus inp) then -100 else 0)%float
        /\ penalties (breakdown (computeScore inp))
           = ((if ToBoolean (competitionViolationPoints inp) then 150 else 0)
              + (if ToBoolean (constructionViolationPoints inp) then 300 else 0))%float)
  /\ (forall x : float,
        ((abs (x * 100) <? 4503599627370496)%float = true ->
         exists k : Z,
           nearestInteger (x * 100) k
           /\ (round2 x = (Z2Prim k / 100)%float
               \/ (k = 0%Z /\ (x * 100 <=? 0)%float = true /\ round2 x = neg_zero)))
        /\ ((abs (x * 100) <? 4503599627370496)%float = false ->
            round2 x = (x * 100 / 100)%float))
  /\ total (computeScore (scoreInput (JNum 300) (JNum 10) (JNum 10) (JNum 10)
                                     false false false false)) = 710%float
  /\ total (computeScore (scoreInput (JNum 300) (JNum 10) (JNum 10) (JNum 10)
                                     true false false false)) = 610%float
  /\ total (computeScore (scoreInput (JNum 300) (JNum 10) (JNum 10) (JNum 10)
                                     false true true false)) = 1160%float
  /\ total (computeScore (scoreInput (JNum 123.456) (JNum 9.87) (JNum 10.11) (JNum 10.5)
                                     false false false false)) = 357.07%float
  /\ nearestInteger (357.07200000000006 * 100) 35707
  /\ (Z2Prim 35707 / 100)%float = 357.07%float
  /\ round2 123.456 = 123.46%float
  /\ round2 0.615 = 0.62%float
  /\ round2 1.005 = 1%float
  /\ round2 (-2.675) = (-2.67)%float
  /\ round2 (-0.004) = neg_zero.
Proof.
  split.
  { intro inp. eexists. split; [reflexivity|].
    apply (round2_spec
             (100 + 2.0 * distanceUsed inp + timeAverage inp
              + (if ToBoolean (bucketBonus inp) then -100 else 0)
              + (if ToBoolean (competitionViolationPoints inp) then 150 else 0)
              + (if ToBoolean (constructionViolationPoints inp) then 300 else 0))%float). }
  split; [intro inp; repeat split|].
  split; [exact round2_spec|].
  do 4 (split; [vm_compute; reflexivity|]).
  split; [|repeat split; vm_compute; reflexivity].
  unfold nearestInteger.
  replace (Prim2SF (357.07200000000006 * 100))
    with (Prim2SF 35707.200000000004) by (vm_compute; reflexivity).
  vm_compute. split; [intro H; discriminate H|reflexivity].
Qed.

(** C2: when [failedRun] is set (truthy), the distance that is scored is
    2500 and the time that is scored is 0, whatever the distance and time
    fields hold: the breakdown reports the distance 2500, the distance
    score 5000 and the time average 0, the total is 100 + 5000 + 0 with
    the bucket bonus and the violations applied, and the whole result
    stays the same when the distance and the times are replaced by
    anything else. *)
Theorem computeScore_failed :
  forall inp : RunInput,
    ToBoolean (failedRun inp) = true ->
    distCm (breakdown (computeScore inp)) = 2500%float
    /\ distanceScore (breakdown (computeScore inp)) = 5000%float
    /\ timeAvg (computeScore inp) = 0%float
    /\ b_timeAvg (breakdown (computeScore inp)) = 0%float
    /\ failed (breakdown (computeScore inp)) = true
    /\ total (computeScore inp)
       = Z2Prim (100 + 2 * 2500 + 0
                 + (if ToBoolean (bucketBonus inp) then -100 else 0)
                 + (if ToBoolean (competitionViolationPoints inp) then 150 else 0)
                 + (if ToBoolean (constructionViolationPoints inp) then 300 else 0))
    /\ forall dist t1 t2 t3 : JSValue,
         computeScore (withMeasurements inp dist t1 t2 t3) = computeScore inp.
Proof.
  intros inp H. unfold computeScore, withMeasurements.
  cbn [distCm distanceScore timeAvg b_timeAvg failed total breakdown
       failedRun vehicleDistanceCm time1 time2 time3 bucketBonus
       competitionViolationPoints constructionViolationPoints].
  rewrite H.
  split; [vm_compute; reflexivity|]. split; [vm_compute; reflexivity|].
  split; [vm_compute; reflexivity|]. split; [vm_compute; reflexivity|].
  split; [reflexivity|]. split; [|reflexivity].
  destruct (ToBoolean (bucketBonus inp)),
           (ToBoolean (competitionViolationPoints inp)),
           (ToBoolean (constructionViolationPoints inp)); vm_compute; reflexivity.
Qed.

Lemma computeScore_failed_witness :
  let inp := scoreInput (JStr "abc") (JNum (-3)) JUndefined (JStr "12") true true false true in
  distCm (breakdown (computeScore inp)) = 2500%float
  /\ distanceScore (breakdown (computeScore inp)) = 5000%float
  /\ timeAvg (computeScore inp) = 0%float
  /\ b_timeAvg (breakdown (computeScore inp)) = 0%float
  /\ failed (breakdown (computeScore inp)) = true
  /\ total (computeScore inp) = 5150%float
  /\ forall dist t1 t2 t3 : JSValue,
       computeScore (withMeasurements inp dist t1 t2 t3) = computeScore inp.
Proof.
  apply (computeScore_failed
           (scoreInput (JStr "abc") (JNum (-3)) JUndefined (JStr "12") true true false true)).
  reflexivity.
Defined.

(** C3, on the code: [avgOfTimes] keeps the values [Number] turns into a
    finite number that is not negative, so (5, -1, NaN) averages to 5 and
    three missing ([undefined]) times to 0; but an empty field arrives as
    the empty string, which [Number] turns into 0: it is counted, and
    ("10", "", "") averages to 3.33 instead of 10. *)
Theorem avgOfTimes_counts_empty_string :
  avgOfTimes (JNum 5) (JNum (-1)) (JNum nan) = 5%float
  /\ avgOfTimes JUndefined JUndefined JUndefined = 0%float
  /\ Number (JStr "") = 0%float
  /\ avgOfTimes (JStr "10") (JStr "") (JStr "") = 3.3333333333333335%float
  /\ avgOfTimes (JStr "10") (JStr "") (JStr "") <> 10%float
  /\ timeAvg (computeScore (scoreInput (JStr "300") (JStr "10") (JStr "") (JStr "")
                                        false false false false)) = 3.33%float.
Proof.
  repeat split; try (vm_compute; reflexivity). float_neq.
Qed.

(** C4, as stated, fails: a negative distance is not treated as 0; -5 gives
    a distance of -5 and a distance score of -10. *)
Lemma computeScore_negative_distance_kept :
  ToBoolean (failedRun (scoreInput (JNum (-5)) (JNum 10) (JNum 10) (JNum 10)
                                   false false false false)) = false
  /\ (Number (JNum (-5)) <? 0)%float = true
  /\ distCm (breakdown (computeScore
       (scoreInput (JNum (-5)) (JNum 10) (JNum 10) (JNum 10) false false false false)))
     = (-5)%float
  /\ distanceScore (breakdown (computeScore
       (scoreInput (JNum (-5)) (JNum 10) (JNum 10) (JNum 10) false false false false)))
     = (-10)%float
  /\ distanceScore (breakdown (computeScore
       (scoreInput (JNum (-5)) (JNum 10) (JNum 10) (JNum 10) false false false false)))
     <> 0%float.
Proof.
  repeat split; try (vm_compute; reflexivity). float_neq.
Qed.

(** C4, amended: with [failedRun] unset, a missing distance ([undefined],
    [null], the empty string, or what does not convert to a finite number)
    is treated as 0, and the distance score is 0. *)
Theorem computeScore_distance_missing :
  forall inp : RunInput,
    ToBoolean (failedRun inp) = false ->
    distanceMissing (vehicleDistanceCm inp) ->
    distCm (breakdown (computeScore inp)) = 0%float
    /\ distanceScore (breakdown (computeScore inp)) = 0%float.
Proof.
  intros inp Hf Hm. unfold computeScore. cbn [distCm distanceScore breakdown].
  rewrite Hf.
  destruct Hm as [E|[E|[E|E]]]; try (rewrite E; split; vm_compute; reflexivity).
  unfold num, Number_isFinite. rewrite E. split; vm_compute; reflexivity.
Qed.

Lemma computeScore_distance_missing_witness :
  distCm (breakdown (computeScore
    (scoreInput (JStr "n/a") (JNum 10) (JNum 10) (JNum 10) false false false false)))
  = 0%float
  /\ distanceScore (breakdown (computeScore
    (scoreInput (JStr "n/a") (JNum 10) (JNum 10) (JNum 10) false false false false)))
  = 0%float.
Proof.
  apply (computeScore_distance_missing
           (scoreInput (JStr "n/a") (JNum 10) (JNum 10) (JNum 10) false false false false)).
  - reflexivity.
  - right; right; right. vm_compute. reflexivity.
Defined.

(** A finite distance, negative or not, is used as it is. *)
Lemma computeScore_distance_finite :
  forall inp : RunInput,
    ToBoolean (failedRun inp) = false ->
    is_finite (Number (vehicleDistanceCm inp)) = true ->
    distCm (breakdown (computeScore inp)) = round2 (Number (vehicleDistanceCm inp))
    /\ distanceScore (breakdown (computeScore inp)) =
       round2 (2.0 * Number (vehicleDistanceCm inp)).
Proof.
  intros inp Hf E. unfold computeScore. cbn [distCm distanceScore breakdown].
  rewrite Hf. unfold num, Number_isFinite. rewrite E. split; reflexivity.
Qed.

(** ** The filter *)

(** A magnitude is at most [t] exactly when the number lies between [-t]
    and [t]. *)
Lemma SFabs_leb D T :
  SFleb (SFabs D) T = SFleb (SFopp T) D && SFleb D T.
Proof.
  unfold SFleb.
  destruct D as [[]|[]| |[] md ed], T as [[]|[]| |[] mt et]; try reflexivity;
    cbn [SFabs SFopp SFcompare negb andb]; rewrite ?andb_false_r, ?andb_true_r;
    try reflexivity;
    destruct (Z.compare_spec ed et), (Z.compare_spec et ed); try lia; try reflexivity;
    subst;
    change (Pos.compare_cont Eq md mt) with (Pos.compare md mt);
    change (Pos.compare_cont Eq mt md) with (Pos.compare mt md);
    destruct (Pos.compare_spec md mt), (Pos.compare_spec mt md); try lia; reflexivity.
Qed.

Lemma abs_leb d t : (abs d <=? t)%float = ((- t <=? d) && (d <=? t))%float.
Proof. rewrite !leb_spec, abs_spec, opp_spec. apply SFabs_leb. Qed.

Lemma approxEq_inTolerance t tol r :
  Number_isFinite (targetDistanceM r) && approxEq (num (targetDistanceM r)) t tol
  = inTolerance t tol r.
Proof.
  unfold inTolerance, approxEq, Math_abs, Number_isFinite.
  destruct (targetDistanceM r) as [| |b|x|s]; try reflexivity.
  destruct (is_finite x) eqn:F; [|reflexivity].
  unfold num, Number, Number_isFinite. rewrite F. cbn [andb]. apply abs_leb.
Qed.

Lemma filterRuns_active targetStr tolStr runs :
  nonEmpty targetStr = true ->
  filterRuns targetStr tolStr runs
  = filter (inTolerance (num (JStr targetStr)) (effectiveTolerance tolStr)) runs.
Proof.
  intros H. unfold filterRuns, effectiveTolerance. rewrite H.
  destruct (nonEmpty tolStr); cbn [andb];
    [destruct (0 <? num (JStr tolStr))%float|];
    apply filter_ext; intros r; apply approxEq_inTolerance.
Qed.

Lemma filter_comm {A : Type} (p q : A -> bool) l :
  filter p (filter q l) = filter q (filter p l).
Proof.
  induction l as [|x l IH]; cbn; [reflexivity|].
  destruct (p x) eqn:P, (q x) eqn:Q; cbn; rewrite ?P, ?Q, IH; reflexivity.
Qed.

(** C5, as stated, fails: with target 5 and a tolerance of 0 typed in, a
    run at 5.003 is kept and shown although 5.003 - 5 is above 0; and a
    run stored with the distance 0, which the summary puts in the sentinel
    group of the unset distances, is kept by a filter on target 0. *)
Lemma filterRuns_zero_tolerance_keeps :
  keptRuns (pageOf "5" "0" [trackRun "r1" (JNum 5.003)]) = [trackRun "r1" (JNum 5.003)]
  /\ practiceMsg (renderPracticeSummary (pageOf "5" "0" [trackRun "r1" (JNum 5.003)]))
     = "Showing 1 run(s)."
  /\ (5.003 - num (JStr "5") <=? num (JStr "0"))%float = false
  /\ keptRuns (pageOf "0" "" [trackRun "r2" (JNum 0)]) = [trackRun "r2" (JNum 0)]
  /\ map trackGroupM
         (practiceSummary (renderPracticeSummary (pageOf "0" "" [trackRun "r2" (JNum 0)])))
     = [blank].
Proof.
  repeat split; vm_compute; reflexivity.
Qed.

(** C5, amended: when a target is typed in, the summary is the one that
    would be shown, without a filter, for the stored runs whose
    [targetDistanceM] is a finite number [x] with
    [-tolerance <= x - target <= tolerance], the difference being the
    binary64 one; these are exactly the runs that are kept.  The tolerance
    is the one typed in when it reads as a number above 0, and 0.005
    otherwise (nothing typed in, zero, a negative number, not a number).
    A run whose [targetDistanceM] is not a finite number ([undefined],
    [null], a string) is never kept. *)
Theorem filterRuns_spec :
  forall pg : Page,
    nonEmpty (trim (filterTrackM pg)) = true ->
    let t := num (JStr (trim (filterTrackM pg))) in
    let tolStr := trim (filterToleranceM pg) in
    let tol := effectiveTolerance tolStr in
    renderPracticeSummary pg
    = renderPracticeSummary
        {| filterTrackM := ""; filterToleranceM := ""; currentUser := currentUser pg;
           storedRuns := filter (inTolerance t tol) (storedRuns pg) |}
    /\ keptRuns pg
       = filter (inTolerance t tol) (getUserRuns (currentUser pg) (storedRuns pg))
    /\ (forall r : Run,
          In r (keptRuns pg) <->
          In r (storedRuns pg) /\ user r = currentUser pg
          /\ exists x : float,
               targetDistanceM r = JNum x /\ is_finite x = true
               /\ (- tol <=? x - t)%float = true /\ (x - t <=? tol)%float = true)
    /\ ((tolStr <> "" /\ (0 <? num (JStr tolStr))%float = true /\ tol = num (JStr tolStr))
        \/ ((tolStr = "" \/ (0 <? num (JStr tolStr))%float = false) /\ tol = 0.005%float)).
Proof.
  intros pg Ht t tolStr tol.
  assert (K : keptRuns pg
              = filter (inTolerance t tol) (getUserRuns (currentUser pg) (storedRuns pg))).
  { unfold keptRuns. now rewrite (filterRuns_active _ _ _ Ht). }
  split.
  { apply renderPracticeSummary_of_kept. rewrite K. unfold keptRuns.
    cbn [filterTrackM filterToleranceM currentUser storedRuns].
    change (trim "") with "". unfold filterRuns. cbn [nonEmpty String.eqb negb].
    unfold getUserRuns. apply filter_comm. }
  split; [exact K|]. split.
  { intro r. rewrite K. unfold getUserRuns. rewrite !filter_In, String.eqb_eq.
    unfold inTolerance.
    split.
    - intros [[Hin Hu] Hr]. split; [exact Hin|]. split; [exact Hu|].
      destruct (targetDistanceM r) as [| |b|x|s]; try discriminate.
      apply andb_true_iff in Hr as [Hr H2]. apply andb_true_iff in Hr as [H0 H1].
      exists x. auto.
    - intros (Hin & Hu & x & -> & H0 & H1 & H2). split; [auto|].
      now rewrite H0, H1, H2. }
  unfold tol, effectiveTolerance, nonEmpty.
  destruct (String.eqb_spec tolStr "") as [E|N]; cbn [negb andb].
  - right. split; [now left|reflexivity].
  - destruct (0 <? num (JStr tolStr))%float eqn:P.
    + left. auto.
    + right. split; [now right|reflexivity].
Qed.

Lemma filterRuns_spec_witness :
  let pg := pageOf " 5 " "" [trackRun "r1" (JNum 4); trackRun "r2" (JNum 5.004);
                             trackRun "r3" (JStr "5"); trackRun "r4" JUndefined;
                             trackRun "r5" (JNum 5.006); trackRun "r6" (JNum 4.996)] in
  renderPracticeSummary pg
  = renderPracticeSummary
      (pageOf "" "" [trackRun "r2" (JNum 5.004); trackRun "r6" (JNum 4.996)])
  /\ keptRuns pg = [trackRun "r2" (JNum 5.004); trackRun "r6" (JNum 4.996)]
  /\ (forall r : Run,
        In r (keptRuns pg) <->
        In r (storedRuns pg) /\ user r = currentUser pg
        /\ exists x : float,
             targetDistanceM r = JNum x /\ is_finite x = true
             /\ (- 0.005 <=? x - 5)%float = true /\ (x - 5 <=? 0.005)%float = true)
  /\ (("" <> "" /\ (0 <? num (JStr ""))%float = true /\ 0.005%float = num (JStr ""))
      \/ (("" = "" \/ (0 <? num (JStr ""))%float = false) /\ 0.005%float = 0.005%float)).
Proof.
  apply (filterRuns_spec
           (pageOf " 5 " "" [trackRun "r1" (JNum 4); trackRun "r2" (JNum 5.004);
                             trackRun "r3" (JStr "5"); trackRun "r4" JUndefined;
                             trackRun "r5" (JNum 5.006); trackRun "r6" (JNum 4.996)])).
  reflexivity.
Defined.

(** Without a target the filter keeps every run. *)
Lemma filterRuns_inactive tolStr runs : filterRuns "" tolStr runs = runs.
Proof. unfold filterRuns. cbn. destruct (nonEmpty tolStr); reflexivity. Qed.

(** ** Track groups *)

(** C6: 5.001 and 4.999 both get the key "5.00"; a key is the two-decimal
    [toFixed] of the target distance, or the sentinel when the distance is
    not a finite number or is zero; the group of a key holds exactly the
    runs with that key (no tolerance enters: 5.001 and 4.999 share a group
    without a filter, with the default tolerance and with a tolerance of
    0.5, under which 5.3 is kept too but in a group of its own); and in
    the summary every key occurs once, the keys are those of the kept
    runs, the sentinel comes after every other key and the other keys come
    in ascending order of the numbers they read as ("9.00" before "10.00"
    before "100.00"). *)
Theorem trackKey_groups_and_order :
  trackKey (JNum 5.001) = "5.00" /\ trackKey (JNum 4.999) = "5.00"
  /\ (forall m : JSValue,
        (is_finite (Number m) = true /\ (Number m =? 0)%float = false
         /\ trackKey m = Number_toFixed 2 (Number m))
        \/ ((is_finite (Number m) = false \/ (Number m =? 0)%float = true)
            /\ trackKey m = blank))
  /\ (forall (runs : list Run) (k : string),
        mapGet k (groupBy trackOf runs) = filter (fun r => trackOf r =? k) runs)
  /\ (forall pg : Page,
        NoDup (summaryKeys pg)
        /\ (forall k, In k (summaryKeys pg) <->
                      exists r, In r (keptRuns pg) /\ trackOf r = k)
        /\ StronglySorted keyOrder (summaryKeys pg))
  /\ summaryKeys (pageOf "" "" [trackRun "a" (JNum 10); trackRun "b" (JNum 0);
                                trackRun "c" (JNum 9); trackRun "d" (JNum 100);
                                trackRun "e" (JNum 5.001); trackRun "f" JUndefined;
                                trackRun "g" (JNum 4.999)])
     = ["5.00"; "9.00"; "10.00"; "100.00"; blank]
  /\ map (fun row => (trackGroupM row, runsCount row))
         (practiceSummary (renderPracticeSummary
            (pageOf "" "" [trackRun "e" (JNum 5.001); trackRun "g" (JNum 4.999)])))
     = [("5.00", 2%nat)]
  /\ map (fun row => (trackGroupM row, runsCount row))
         (practiceSummary (renderPracticeSummary
            (pageOf "5" "" [trackRun "e" (JNum 5.001); trackRun "g" (JNum 4.999)])))
     = [("5.00", 2%nat)]
  /\ map (fun row => (trackGroupM row, runsCount row))
         (practiceSummary (renderPracticeSummary
            (pageOf "5" "0.5" [trackRun "e" (JNum 5.001); trackRun "g" (JNum 4.999);
                               trackRun "h" (JNum 5.3)])))
     = [("5.00", 2%nat); ("5.30", 1%nat)].
Proof.
  split; [vm_compute; reflexivity|]. split; [vm_compute; reflexivity|].
  split.
  { intro m. unfold trackKey. cbn [Number_isFinite].
    destruct (is_finite (Number m)); cbn [negb orb].
    - destruct (Number m =? 0)%float; [right | left]; auto.
    - right. auto. }
  split; [intros runs k; apply mapGet_groupBy|].
  split.
  { intro pg.
    pose proof (summaryKeys_perm pg) as P.
    split; [|split].
    - apply (Permutation_NoDup (Permutation_sym P)). apply keys_groupBy_NoDup.
    - intro k. rewrite <- (keys_groupBy_In trackOf k (keptRuns pg)).
      split; apply Permutation_in; [assumption | now apply Permutation_sym].
    - rewrite summaryKeys_sorted. destruct (keptRuns pg) as [|r runs] eqn:E; [constructor|].
      rewrite <- E. apply sortBy_keyOrder; [|apply keys_groupBy_NoDup].
      apply Forall_forall. intros k Hk. apply keys_groupBy_In in Hk.
      destruct Hk as (r' & _ & <-). apply trackKey_ok. }
  do 3 (split; [vm_compute; reflexivity|]). vm_compute; reflexivity.
Qed.

(** ** Setup keys *)

(** C7, as stated, fails: angles 12.04 and 12.06 print as 12.0 and 12.1
    and give two keys. *)
Lemma setupKey_12_04_12_06_differ :
  roundedAngle (setupRun 12.04 3 20) = "12.0"
  /\ roundedAngle (setupRun 12.06 3 20) = "12.1"
  /\ setupKey (setupRun 12.04 3 20) <> setupKey (setupRun 12.06 3 20).
Proof.
  split; [vm_compute; reflexivity|]. split; [vm_compute; reflexivity|].
  intro H. vm_compute in H. discriminate.
Qed.

(** C7, amended: two runs have the same setup key exactly when [toFixed]
    prints their angles alike with 1 decimal, their turns alike with 2 and
    their winds alike with 0; two numbers in the range of the fixed
    notation print alike exactly when they have the same sign and the same
    nearest number of tenths (hundredths, units).  Angles 12.04 and 11.96
    share a key (120 tenths), 12.04 and 12.06 do not (120 and 121 tenths),
    nor do 12.04 and 12.15 (122 tenths). *)
Theorem setupKey_same_iff :
  (forall r1 r2 : Run,
     setupKey r1 = setupKey r2 <->
     roundedAngle r1 = roundedAngle r2
     /\ roundedTurns r1 = roundedTurns r2
     /\ roundedWinds r1 = roundedWinds r2)
  /\ (forall (f : nat) (x y : float) (vx vy : bool * Z),
        roundedValue f x = Some vx -> roundedValue f y = Some vy ->
        (Number_toFixed f x = Number_toFixed f y <-> vx = vy))
  /\ roundedValue 1 12.04 = Some (false, 120%Z)
  /\ roundedValue 1 11.96 = Some (false, 120%Z)
  /\ roundedValue 1 12.06 = Some (false, 121%Z)
  /\ roundedValue 1 12.15 = Some (false, 122%Z)
  /\ setupKey (setupRun 12.04 3 20) = setupKey (setupRun 11.96 3 20)
  /\ setupKey (setupRun 12.04 3 20) <> setupKey (setupRun 12.06 3 20)
  /\ setupKey (setupRun 12.04 3 20) <> setupKey (setupRun 12.15 3 20).
Proof.
  split; [|split; [exact toFixed_same_iff|]].
  - intros r1 r2. unfold setupKey.
    fold (roundedAngle r1) (roundedAngle r2) (roundedTurns r1) (roundedTurns r2)
         (roundedWinds r1) (roundedWinds r2).
    split.
    + intro E. cbn [degree append] in E.
      apply (sep_inj isGraph) in E;
        [|apply Number_toFixed_graph | apply Number_toFixed_graph | reflexivity].
      destruct E as [Ea E]. injection E as E.
      change (" turns | " ++ ?x) with (String " " ("turns | " ++ x)) in E.
      apply (sep_inj isGraph) in E;
        [|apply Number_toFixed_graph | apply Number_toFixed_graph | reflexivity].
      destruct E as [Et E]. apply (append_inv_head "turns | ") in E.
      apply (sep_inj isGraph) in E;
        [|apply Number_toFixed_graph | apply Number_toFixed_graph | reflexivity].
      destruct E as [Ew _]. auto.
    + intros (-> & -> & ->). reflexivity.
  - do 5 (split; [vm_compute; reflexivity|]).
    split; intro H; vm_compute in H; discriminate.
Qed.

(** ** Ranking *)

(** C8: among the setups of a track group that have a finite score, "best
    by average" is the first one, in the order of the map, whose mean is
    the lowest, reported with its key, rounded mean and number of scores,
    and "best by single" is the first one whose minimum is the lowest,
    reported with its key and that score; nothing is reported when no
    setup has a value below Infinity.  The mean, the number and the
    minimum of a setup are those of the finite scores of the runs of the
    group that have its key.  With means 700 and 650 and minima
    600 and 620 the second setup is best by average and the first is best
    by single; of three setups that tie the first one is reported. *)
Theorem rankSetups_best :
  (forall bySetup : RunMap,
     ((bestSetupAvg (rankSetups bySetup) = ""
       /\ forall c, In c (setupStats bySetup) -> (st_avg c <? infinity)%float = false)
      \/ exists c, firstLowest st_avg (setupStats bySetup) c
                   /\ bestSetupAvg (rankSetups bySetup)
                      = avgLabel (st_key c) (st_avg c) (st_n c))
     /\ ((bestSetupSingle (rankSetups bySetup) = ""
          /\ forall c, In c (setupStats bySetup) -> (st_best c <? infinity)%float = false)
         \/ exists c, firstLowest st_best (setupStats bySetup) c
                      /\ bestSetupSingle (rankSetups bySetup)
                         = singleLabel (st_key c) (st_best c)))
  /\ (forall (rs : list Run) (c : SetupStat),
        In c (setupStats (groupBy setupKey rs)) ->
        finiteScores (setupRuns rs (st_key c)) <> []
        /\ st_avg c = (arraySum (finiteScores (setupRuns rs (st_key c)))
                       / lengthNum (finiteScores (setupRuns rs (st_key c))))%float
        /\ st_n c = List.length (finiteScores (setupRuns rs (st_key c)))
        /\ In (st_best c) (finiteScores (setupRuns rs (st_key c)))
        /\ Forall (fun x => (st_best c <=? x)%float = true)
                  (finiteScores (setupRuns rs (st_key c))))
  /\ (forall (byTrack : RunMap) (k : string),
        bestSetupByAvg (fst (trackRow byTrack k))
        = bestSetupAvg (rankSetups (groupBy setupKey (mapGet k byTrack)))
        /\ bestSetupBySingle (fst (trackRow byTrack k))
           = bestSetupSingle (rankSetups (groupBy setupKey (mapGet k byTrack))))
  /\ map (fun c => (st_key c, st_avg c, st_best c, st_n c))
         (setupStats (groupBy setupKey
            [scoredRun "a" 600 10; scoredRun "b" 620 20;
             scoredRun "c" 800 10; scoredRun "d" 680 20]))
     = [("10.0" ++ degree ++ " | 0.00 turns | 0 winds", 700%float, 600%float, 2%nat);
        ("20.0" ++ degree ++ " | 0.00 turns | 0 winds", 650%float, 620%float, 2%nat)]
  /\ map (fun row => (bestSetupByAvg row, bestSetupBySingle row))
         (practiceSummary (renderPracticeSummary (pageOf "" ""
            [scoredRun "a" 600 10; scoredRun "b" 620 20;
             scoredRun "c" 800 10; scoredRun "d" 680 20])))
     = [("20.0" ++ degree ++ " | 0.00 turns | 0 winds (avg 650.00; n=2)",
         "10.0" ++ degree ++ " | 0.00 turns | 0 winds (best 600.00)")]
  /\ map (fun row => (bestSetupByAvg row, bestSetupBySingle row))
         (practiceSummary (renderPracticeSummary (pageOf "" ""
            [scoredRun "a" 700 30; scoredRun "b" 700 20; scoredRun "c" 700 10])))
     = [("30.0" ++ degree ++ " | 0.00 turns | 0 winds (avg 700.00; n=1)",
         "30.0" ++ degree ++ " | 0.00 turns | 0 winds (best 700.00)")].
Proof.
  split; [|split; [exact setupStats_runs|split; [|split; [|split]]]].
  - intro bySetup. unfold rankSetups. split.
    + pose proof (rankSetups_avg_fold bySetup initBest) as E.
      cbn [initBest bestSetupAvg bestAvgVal] in E.
      destruct (fold_stepMin_spec st_avg (fun c => avgLabel (st_key c) (st_avg c) (st_n c))
                                  (setupStats bySetup)) as [[F Hall]|(c & Hc & F)];
        fold avgStep in F; rewrite F in E; injection E as E1 E2.
      * left. split; assumption.
      * right. exists c. split; assumption.
    + pose proof (rankSetups_single_fold bySetup initBest) as E.
      cbn [initBest bestSetupSingle bestSingleVal] in E.
      destruct (fold_stepMin_spec st_best (fun c => singleLabel (st_key c) (st_best c))
                                  (setupStats bySetup)) as [[F Hall]|(c & Hc & F)];
        fold singleStep in F; rewrite F in E; injection E as E1 E2.
      * left. split; assumption.
      * right. exists c. split; assumption.
  - intros byTrack k. split; reflexivity.
  - vm_compute. reflexivity.
  - vm_compute. reflexivity.
  - vm_compute. reflexivity.
Qed.

(** ** The empty summary *)







(* ================================================================= *)
(** * Further properties of the program *)

(** ** Base64 *)

Lemma string_ind3 (P : string -> Prop) :
  P "" ->
  (forall a, P (String a "")) ->
  (forall a b, P (String a (String b ""))) ->
  (forall a b c r, P r -> P (String a (String b (String c r)))) ->
  forall s, P s.
Proof.
  intros H0 H1 H2 H3 s.
  assert (H : P s /\ (forall a, P (String a s)) /\ (forall a b, P (String a (String b s)))).
  { induction s as [|c r [IH0 [IH1 IH2]]].
    - auto.
    - split; [apply IH1|]. split; [intro a; apply IH2|].
      intros a b. apply H3, IH0. }
  apply H.
Qed.

Lemma b64Char_spec n :
  (n < 64)%N -> b64Val (b64Char n) = Some n /\ b64Ok (b64Char n) = true.
Proof.
  intros H.
  assert (E : n = N.of_nat (N.to_nat n)) by lia.
  assert (L : (N.to_nat n < 64)%nat) by lia.
  rewrite E. generalize dependent (N.to_nat n). intros k _ L.
  do 64 (destruct k as [|k]; [vm_compute; split; reflexivity|]).
  lia.
Qed.

Lemma sextets_bound s : Forall (fun n => (n < 64)%N) (sextets s).
Proof.
  induction s as [| a | a b | a b c r IH] using string_ind3; cbn [sextets].
  - constructor.
  - pose proof (N_ascii_bounded a).
    repeat constructor; [apply N.Div0.div_lt_upper_bound; lia|].
    pose proof (N.mod_lt (N_of_ascii a) 4). lia.
  - pose proof (N_ascii_bounded a). pose proof (N_ascii_bounded b).
    pose proof (N.mod_lt (N_of_ascii a) 4). pose proof (N.mod_lt (N_of_ascii b) 16).
    assert (N_of_ascii b / 16 < 16)%N by (apply N.Div0.div_lt_upper_bound; lia).
    repeat constructor; [apply N.Div0.div_lt_upper_bound; lia|lia|lia].
  - pose proof (N_ascii_bounded a). pose proof (N_ascii_bounded b).
    pose proof (N_ascii_bounded c).
    pose proof (N.mod_lt (N_of_ascii a) 4). pose proof (N.mod_lt (N_of_ascii b) 16).
    pose proof (N.mod_lt (N_of_ascii c) 64).
    assert (N_of_ascii b / 16 < 16)%N by (apply N.Div0.div_lt_upper_bound; lia).
    assert (N_of_ascii c / 64 < 4)%N by (apply N.Div0.div_lt_upper_bound; lia).
    repeat constructor; [apply N.Div0.div_lt_upper_bound; lia|lia|lia|lia|exact IH].
Qed.

Lemma ascii_of_N_of_ascii_eq a n : n = N_of_ascii a -> ascii_of_N n = a.
Proof. intros ->. apply ascii_N_embedding. Qed.

Ltac div_lia := zify; Z.to_euclidean_division_equations; lia.

Lemma fromSextets_sextets s : fromSextets (sextets s) = s.
Proof.
  induction s as [| a | a b | a b c r IH] using string_ind3; cbn [sextets fromSextets].
  - reflexivity.
  - pose proof (N_ascii_bounded a). f_equal.
    apply ascii_of_N_of_ascii_eq.
    generalize dependent (N_of_ascii a). intros x Hx. div_lia.
  - pose proof (N_ascii_bounded a) as Ha. pose proof (N_ascii_bounded b) as Hb.
    f_equal; [|f_equal]; apply ascii_of_N_of_ascii_eq;
      generalize dependent (N_of_ascii a); generalize dependent (N_of_ascii b);
      intros y Hy x Hx; div_lia.
  - pose proof (N_ascii_bounded a) as Ha. pose proof (N_ascii_bounded b) as Hb.
    pose proof (N_ascii_bounded c) as Hc.
    rewrite IH.
    f_equal; [|f_equal; [|f_equal]]; apply ascii_of_N_of_ascii_eq;
      generalize dependent (N_of_ascii a); generalize dependent (N_of_ascii b);
      generalize dependent (N_of_ascii c);
      intros z Hz y Hy x Hx; div_lia.
Qed.

Lemma sextetValues_chars l :
  Forall (fun n => (n < 64)%N) l ->
  sextetValues (string_of_list_ascii (map b64Char l)) = Some l.
Proof.
  induction 1 as [|n l Hn _ IH]; cbn; [reflexivity|].
  rewrite (proj1 (b64Char_spec n Hn)), IH. reflexivity.
Qed.

Lemma b64Body_ok s : allChars b64Ok (b64Body s) = true.
Proof.
  unfold b64Body. induction (sextets_bound s) as [|n l Hn _ IH]; cbn; [reflexivity|].
  rewrite (proj2 (b64Char_spec n Hn)), IH. reflexivity.
Qed.

Lemma removeWhitespace_id s :
  allChars (fun c => negb (isAsciiWhitespace c)) s = true -> removeWhitespace s = s.
Proof.
  induction s as [|c r IH]; cbn; [reflexivity|].
  intros H. apply andb_true_iff in H as [Hc Hr].
  apply negb_true_iff in Hc. rewrite Hc, (IH Hr). reflexivity.
Qed.

Lemma length_append a b : String.length (a ++ b) = (String.length a + String.length b)%nat.
Proof. induction a as [|c a IH]; cbn; [reflexivity|]. now rewrite IH. Qed.

Lemma lastChar_snoc s c : lastChar (s ++ String c "") = Some c.
Proof.
  induction s as [|d r IH]; cbn; [reflexivity|].
  destruct (r ++ String c "") eqn:E; [destruct r; discriminate|exact IH].
Qed.

Lemma dropLast_snoc s c : dropLast (s ++ String c "") = s.
Proof.
  induction s as [|d r IH]; cbn; [reflexivity|].
  destruct (r ++ String c "") eqn:E; [destruct r; discriminate|].
  now rewrite IH.
Qed.

Lemma endsWithEq_ok s : allChars b64Ok s = true -> endsWithEq s = false.
Proof.
  unfold endsWithEq.
  induction s as [|c r IH]; cbn; [reflexivity|].
  intros H. apply andb_true_iff in H as [Hc Hr].
  destruct r as [|d r'].
  - unfold b64Ok in Hc. apply andb_true_iff in Hc as [_ Hc].
    now apply negb_true_iff in Hc.
  - exact (IH Hr).
Qed.

Lemma length_string_of_list l : String.length (string_of_list_ascii l) = List.length l.
Proof. induction l as [|c l IH]; cbn; [reflexivity|]. now rewrite IH. Qed.

Lemma length_b64Body s :
  exists q r,
    (r < 3)%nat /\ String.length s = (3 * q + r)%nat /\
    String.length (b64Body s) = (4 * q + match r with 0 => 0 | 1 => 2 | _ => 3 end)%nat.
Proof.
  unfold b64Body.
  induction s as [| a | a b | a b c r IH] using string_ind3.
  - exists 0%nat, 0%nat. repeat split; lia.
  - exists 0%nat, 1%nat. repeat split; lia.
  - exists 0%nat, 2%nat. repeat split; lia.
  - destruct IH as (q & k & Hk & Hs & Hb).
    exists (S q), k. split; [exact Hk|]. split; [cbn [String.length]; lia|].
    rewrite length_string_of_list, length_map in *. cbn [sextets List.length]. lia.
Qed.

Lemma mod_decomp a b q r : (r < b)%nat -> a = (b * q + r)%nat -> (a mod b = r)%nat.
Proof. intros Hr ->. symmetry. apply (Nat.mod_unique _ _ q); [exact Hr|reflexivity]. Qed.

Lemma stripPadding_btoa s :
  stripPadding (btoa s) = b64Body s /\ (String.length (b64Body s) mod 4 <> 1)%nat.
Proof.
  destruct (length_b64Body s) as (q & r & Hr & Hs & L).
  pose proof (b64Body_ok s) as K.
  unfold btoa, stripPadding, padding.
  fold (b64Body s). rewrite length_append, (mod_decomp _ 3 q r Hr Hs).
  generalize dependent (b64Body s). intros body L K.
  destruct r as [|[|[|k]]]; [| | |lia]; cbn [String.length].
  - rewrite (mod_decomp _ 4 q 0) by lia. cbn [Nat.eqb].
    replace (body ++ "") with body by (symmetry; apply append_nil_r).
    rewrite (endsWithEq_ok _ K). split; [reflexivity|].
    rewrite (mod_decomp _ 4 q 0) by lia. discriminate.
  - rewrite (mod_decomp _ 4 (S q) 0) by lia. cbn [Nat.eqb].
    change (body ++ "==") with (body ++ String "=" (String "=" "")).
    replace (body ++ String "=" (String "=" "")) with ((body ++ String "=" "") ++ String "=" "")
      by (clear; induction body as [|c r IH]; cbn; [reflexivity|now rewrite IH]).
    unfold endsWithEq at 1. rewrite lastChar_snoc. cbn [Ascii.eqb].
    rewrite dropLast_snoc. unfold endsWithEq. rewrite lastChar_snoc, dropLast_snoc.
    split; [reflexivity|]. rewrite (mod_decomp _ 4 q 2) by lia. discriminate.
  - rewrite (mod_decomp _ 4 (S q) 0) by lia. cbn [Nat.eqb].
    unfold endsWithEq at 1. rewrite lastChar_snoc.
    rewrite dropLast_snoc, (endsWithEq_ok _ K).
    split; [reflexivity|]. rewrite (mod_decomp _ 4 q 3) by lia. discriminate.
Qed.

Lemma btoa_no_whitespace s :
  allChars (fun c => negb (isAsciiWhitespace c)) (btoa s) = true.
Proof.
  unfold btoa. fold (b64Body s). rewrite allChars_app. apply andb_true_iff. split.
  - apply (allChars_weaken b64Ok); [|apply b64Body_ok].
    intros c H. unfold b64Ok in H. now apply andb_true_iff in H as [H _].
  - unfold padding. destruct (String.length s mod 3)%nat as [|[|[|k]]]; reflexivity.
Qed.

Lemma atob_btoa s : atob (btoa s) = Some s.
Proof.
  unfold atob. rewrite (removeWhitespace_id _ (btoa_no_whitespace s)).
  destruct (stripPadding_btoa s) as [-> H].
  apply Nat.eqb_neq in H. rewrite H.
  unfold b64Body. rewrite (sextetValues_chars _ (sextets_bound s)). cbn.
  now rewrite fromSextets_sextets.
Qed.

Lemma b64ToBytes_bytesToB64 bytes : b64ToBytes (bytesToB64 bytes) = Some bytes.
Proof.
  unfold b64ToBytes, bytesToB64. rewrite atob_btoa. cbn.
  now rewrite list_byte_of_string_of_list_byte.
Qed.

Lemma length_string_of_list_byte l :
  String.length (string_of_list_byte l) = List.length l.
Proof. unfold string_of_list_byte. now rewrite length_string_of_list, length_map. Qed.

Lemma length_btoa s :
  String.length (btoa s) = (4 * ((String.length s + 2) / 3))%nat.
Proof.
  destruct (length_b64Body s) as (q & r & Hr & Hs & L).
  unfold btoa, padding. fold (b64Body s).
  rewrite length_append, L, (mod_decomp _ 3 q r Hr Hs), Hs.
  destruct r as [|[|[|k]]]; [| | |lia]; cbn [String.length].
  - rewrite <- (Nat.div_unique (3 * q + 0 + 2) 3 q 2); lia.
  - rewrite <- (Nat.div_unique (3 * q + 1 + 2) 3 (S q) 0); lia.
  - rewrite <- (Nat.div_unique (3 * q + 2 + 2) 3 (S q) 1); lia.
Qed.

(** X1: decoding what [bytesToB64] encodes gives the bytes back, whatever
    they are; the encoding of [n] bytes has 4 characters for every 3 bytes
    begun, and two encodings are equal only for equal bytes. *)
Theorem bytesToB64_round_trip (bytes other : list Byte.byte) :
  b64ToBytes (bytesToB64 bytes) = Some bytes
  /\ String.length (bytesToB64 bytes) = (4 * ((List.length bytes + 2) / 3))%nat
  /\ (bytesToB64 bytes = bytesToB64 other <-> bytes = other).
Proof.
  split; [apply b64ToBytes_bytesToB64|]. split.
  - unfold bytesToB64. now rewrite length_btoa, length_string_of_list_byte.
  - split; [|now intros ->].
    intros E. pose proof (b64ToBytes_bytesToB64 bytes) as Ha.
    rewrite E, b64ToBytes_bytesToB64 in Ha. congruence.
Qed.

(** ** Accounts *)

Lemma inStrings_In k l : inStrings k l = true <-> In k l.
Proof.
  unfold inStrings. rewrite existsb_exists. split.
  - intros (x & Hx & E). apply String.eqb_eq in E. now subst.
  - intros H. exists k. split; [exact H|apply String.eqb_refl].
Qed.

Lemma ownUser_None users name : ownUser users name = None <-> ~ In name (map fst users).
Proof.
  induction users as [|[k u] rest IH]; cbn.
  - tauto.
  - destruct (String.eqb_spec k name) as [->|N].
    + split; [discriminate|]. intros H. exfalso. apply H. now left.
    + rewrite IH. split; [intros H [E|I]; [congruence|tauto]|tauto].
Qed.

Lemma ownUser_app users more name :
  ownUser (users ++ more)%list name
  = match ownUser users name with Some u => Some u | None => ownUser more name end.
Proof.
  induction users as [|[k v] rest IH]; cbn [app ownUser]; [reflexivity|].
  destruct (k =? name); [reflexivity|exact IH].
Qed.

Lemma ownUser_replaceUser users name u name' :
  ownUser (replaceUser users name u) name'
  = if (name =? name') then option_map (fun _ => u) (ownUser users name)
    else ownUser users name'.
Proof.
  induction users as [|[k v] rest IH]; cbn [replaceUser ownUser].
  - destruct (name =? name'); reflexivity.
  - destruct (String.eqb_spec k name) as [->|N]; cbn [ownUser].
    + rewrite ?String.eqb_refl. destruct (name =? name'); reflexivity.
    + rewrite IH. destruct (name =? name') eqn:E; [|reflexivity].
      apply String.eqb_eq in E. rewrite <- E.
      apply String.eqb_neq in N. rewrite N. reflexivity.
Qed.

Lemma ownUser_insertIndex users n name u name' :
  ownUser users name = None ->
  ownUser (insertIndex users n name u) name'
  = if (name =? name') then Some u else ownUser users name'.
Proof.
  induction users as [|[k v] rest IH]; cbn [insertIndex ownUser]; intros H.
  - reflexivity.
  - destruct (String.eqb_spec k name) as [->|N]; [discriminate|].
    destruct (arrayIndex k) as [m|]; [destruct (m <? n)%Z|]; cbn [ownUser];
      try reflexivity.
    rewrite (IH H).
    destruct (k =? name') eqn:E; [|reflexivity].
    apply String.eqb_eq in E. rewrite <- E.
    apply not_eq_sym in N. apply String.eqb_neq in N. now rewrite N.
Qed.

Lemma ownUser_setUser users name u : ownUser (setUser users name u) name = Some u.
Proof.
  unfold setUser. destruct (ownUser users name) as [v|] eqn:E.
  - now rewrite ownUser_replaceUser, String.eqb_refl, E.
  - destruct (arrayIndex name) as [n|].
    + now rewrite (ownUser_insertIndex _ _ _ _ _ E), String.eqb_refl.
    + rewrite ownUser_app, E. cbn [ownUser]. now rewrite String.eqb_refl.
Qed.

Lemma ownUser_setUser_other users name u name' :
  name' <> name -> ownUser (setUser users name u) name' = ownUser users name'.
Proof.
  intros N. apply not_eq_sym in N. apply String.eqb_neq in N.
  unfold setUser. destruct (ownUser users name) as [v|] eqn:E.
  - now rewrite ownUser_replaceUser, N.
  - destruct (arrayIndex name) as [n|].
    + now rewrite (ownUser_insertIndex _ _ _ _ _ E), N.
    + rewrite ownUser_app. cbn [ownUser]. rewrite N.
      now destruct (ownUser users name').
Qed.

Lemma bytesToB64_inj a b : bytesToB64 a = bytesToB64 b -> a = b.
Proof.
  intros E. pose proof (b64ToBytes_bytesToB64 a) as Ha.
  rewrite E, b64ToBytes_bytesToB64 in Ha. congruence.
Qed.

(** ** The names that are array indices *)

Section ArrayIndices.
Local Open Scope Z_scope.

Lemma digitVal_range c : isDigit c = true -> 0 <= digitVal c <= 9.
Proof.
  unfold isDigit, digitVal. rewrite andb_true_iff, !Nat.leb_le. lia.
Qed.

Lemma digitVal_inj c d : digitVal c = digitVal d -> c = d.
Proof.
  unfold digitVal. intros H.
  rewrite <- (ascii_nat_embedding c), <- (ascii_nat_embedding d). f_equal. lia.
Qed.

Lemma digitsValue_acc s : forall acc,
  digitsValue acc s = acc * 10 ^ Z.of_nat (String.length s) + digitsValue 0 s.
Proof.
  induction s as [|c r IH]; intros acc; cbn [digitsValue String.length].
  - cbn. lia.
  - rewrite (IH (10 * acc + digitVal c)), (IH (10 * 0 + digitVal c)).
    rewrite Nat2Z.inj_succ, Z.pow_succ_r by lia. ring.
Qed.

Lemma digitsValue_bound s :
  allChars isDigit s = true -> 0 <= digitsValue 0 s < 10 ^ Z.of_nat (String.length s).
Proof.
  induction s as [|c r IH]; cbn [allChars digitsValue String.length].
  - intros _. cbn. lia.
  - rewrite andb_true_iff. intros [Hc Hr].
    rewrite digitsValue_acc, Nat2Z.inj_succ, Z.pow_succ_r by lia.
    pose proof (digitVal_range c Hc). specialize (IH Hr).
    assert (0 < 10 ^ Z.of_nat (String.length r)) by (apply Z.pow_pos_nonneg; lia).
    nia.
Qed.

Lemma digits_same_length s1 : forall s2,
  String.length s1 = String.length s2 ->
  allChars isDigit s1 = true -> allChars isDigit s2 = true ->
  digitsValue 0 s1 = digitsValue 0 s2 -> s1 = s2.
Proof.
  induction s1 as [|c r IH]; intros [|d r']; cbn [String.length]; try discriminate;
    [reflexivity|].
  intros L. injection L as L. cbn [allChars digitsValue].
  rewrite !andb_true_iff. intros [Hc Hr] [Hd Hr'].
  rewrite (digitsValue_acc r), (digitsValue_acc r'), <- L.
  pose proof (digitsValue_bound r Hr) as B. pose proof (digitsValue_bound r' Hr') as B'.
  rewrite <- L in B'.
  pose proof (digitVal_range c Hc). pose proof (digitVal_range d Hd).
  set (P := 10 ^ Z.of_nat (String.length r)) in *.
  intros E.
  assert (digitVal c = digitVal d) by nia.
  assert (digitsValue 0 r = digitsValue 0 r') by nia.
  f_equal; [now apply digitVal_inj|now apply IH].
Qed.

(** An array index is written in one way. *)
Lemma arrayIndex_inj a b n : arrayIndex a = Some n -> arrayIndex b = Some n -> a = b.
Proof.
  assert (G : forall s n, arrayIndex s = Some n ->
                exists c r, s = String c r /\ allChars isDigit s = true
                  /\ digitsValue 0 s = n
                  /\ (r = "" \/ 10 ^ Z.of_nat (String.length r) <= n)).
  { intros s k. unfold arrayIndex. destruct s as [|c r]; [discriminate|].
    destruct (allChars isDigit (String c r)) eqn:D; [|discriminate]. cbn [andb].
    destruct (negb (c =? "0")%char || (r =? "")%string) eqn:Z; [|discriminate].
    destruct (digitsValue 0 (String c r) <=? 4294967294); [|discriminate].
    intros [= <-]. exists c, r. repeat split.
    apply orb_true_iff in Z as [Z|Z]; [right|left; now apply String.eqb_eq].
    apply negb_true_iff, Ascii.eqb_neq in Z.
    cbn [allChars] in D. apply andb_true_iff in D as [Hc Hr].
    cbn [digitsValue]. rewrite digitsValue_acc.
    pose proof (digitsValue_bound r Hr). pose proof (digitVal_range c Hc).
    assert (digitVal c <> 0).
    { intros E. apply Z. apply digitVal_inj. rewrite E. reflexivity. }
    assert (0 < 10 ^ Z.of_nat (String.length r)) by (apply Z.pow_pos_nonneg; lia).
    nia. }
  intros Ha Hb.
  destruct (G a n Ha) as (ca & ra & -> & Da & Va & Ca).
  destruct (G b n Hb) as (cb & rb & -> & Db & Vb & Cb).
  apply digits_same_length; [|assumption|assumption|congruence].
  pose proof (digitsValue_bound _ Da) as Ba. pose proof (digitsValue_bound _ Db) as Bb.
  rewrite Va in Ba. rewrite Vb in Bb. cbn [String.length] in *.
  rewrite Nat2Z.inj_succ, Z.pow_succ_r in Ba, Bb by lia.
  destruct (Nat.lt_trichotomy (String.length ra) (String.length rb)) as [L|[L|L]];
    [exfalso|now f_equal|exfalso].
  - destruct Cb as [->|Cb]; [cbn in L; lia|].
    assert (10 * 10 ^ Z.of_nat (String.length ra) <= 10 ^ Z.of_nat (String.length rb)).
    { rewrite <- Z.pow_succ_r, <- Nat2Z.inj_succ by lia. apply Z.pow_le_mono_r; lia. }
    lia.
  - destruct Ca as [->|Ca]; [cbn in L; lia|].
    assert (10 * 10 ^ Z.of_nat (String.length rb) <= 10 ^ Z.of_nat (String.length ra)).
    { rewrite <- Z.pow_succ_r, <- Nat2Z.inj_succ by lia. apply Z.pow_le_mono_r; lia. }
    lia.
Qed.

End ArrayIndices.

(** ** The order of the stored names *)

Lemma indexBelow_eq n k v :
  indexBelow n (k, v) = match arrayIndex k with Some m => (m <? n)%Z | None => false end.
Proof. reflexivity. Qed.

Lemma namedOnly_filter_below n users :
  namedOnly users = true ->
  filter (indexBelow n) users = []
  /\ filter (fun kv => negb (indexBelow n kv)) users = users.
Proof.
  unfold namedOnly.
  induction users as [|[k v] rest IH]; cbn [forallb filter fst]; [auto|].
  rewrite indexBelow_eq.
  destruct (arrayIndex k); [discriminate|]. cbn [andb negb]. intros H.
  destruct (IH H) as [-> ->]. auto.
Qed.

Lemma above_filter_below lo n users :
  (n <= lo)%Z -> keyOrderedFrom lo users = true ->
  filter (indexBelow n) users = []
  /\ filter (fun kv => negb (indexBelow n kv)) users = users.
Proof.
  revert lo.
  induction users as [|[k v] rest IH]; intros lo L; cbn [keyOrderedFrom filter]; [auto|].
  rewrite indexBelow_eq.
  destruct (arrayIndex k) as [m|] eqn:E.
  - intros H. apply andb_true_iff in H as [H1 H2]. apply Z.ltb_lt in H1.
    destruct (Z.ltb_spec m n) as [C|C]; [lia|]. cbn [negb].
    destruct (IH m ltac:(lia) H2) as [-> ->]. auto.
  - intros H. cbn [negb].
    destruct (namedOnly_filter_below n rest H) as [-> ->]. auto.
Qed.

(** On the keys in their order, a new array index goes after the array
    indices below it, and the keys stay in order. *)
Lemma insertIndex_ordered n name u users : forall lo,
  arrayIndex name = Some n -> (lo < n)%Z ->
  ownUser users name = None ->
  keyOrderedFrom lo users = true ->
  insertIndex users n name u
  = (filter (indexBelow n) users
     ++ (name, u) :: filter (fun kv => negb (indexBelow n kv)) users)%list
  /\ keyOrderedFrom lo (insertIndex users n name u) = true.
Proof.
  induction users as [|[k v] rest IH]; intros lo Hn L Hown H;
    cbn [insertIndex filter app keyOrderedFrom].
  - rewrite Hn. split; [reflexivity|].
    apply andb_true_iff. split; [now apply Z.ltb_lt|reflexivity].
  - cbn [ownUser] in Hown. destruct (String.eqb_spec k name) as [Ek|Nk]; [discriminate|].
    cbn [keyOrderedFrom] in H. rewrite indexBelow_eq.
    destruct (arrayIndex k) as [m|] eqn:E.
    + apply andb_true_iff in H as [H1 H2]. apply Z.ltb_lt in H1.
      destruct (Z.ltb_spec m n) as [C|C]; cbn [negb app keyOrderedFrom].
      * destruct (IH m Hn C Hown H2) as [<- O]. rewrite E.
        split; [reflexivity|]. apply andb_true_iff. split; [now apply Z.ltb_lt|exact O].
      * assert (m <> n).
        { intros ->. apply Nk. exact (arrayIndex_inj k name n E Hn). }
        destruct (above_filter_below m n rest ltac:(lia) H2) as [-> ->].
        split; [reflexivity|]. rewrite Hn, E.
        apply andb_true_iff. split; [now apply Z.ltb_lt|].
        apply andb_true_iff. split; [apply Z.ltb_lt; lia|exact H2].
    + cbn [negb app keyOrderedFrom].
      destruct (namedOnly_filter_below n rest H) as [-> ->].
      split; [reflexivity|]. rewrite Hn, E.
      apply andb_true_iff. split; [now apply Z.ltb_lt|]. exact H.
Qed.

Lemma namedOnly_app users more :
  namedOnly (users ++ more)%list = namedOnly users && namedOnly more.
Proof. unfold namedOnly. apply forallb_app. Qed.

Lemma keyOrderedFrom_append name u users : forall lo,
  arrayIndex name = None ->
  keyOrderedFrom lo users = true ->
  keyOrderedFrom lo (users ++ [(name, u)])%list = true.
Proof.
  intros lo Hn. revert lo.
  induction users as [|[k v] rest IH]; intros lo H; cbn [app keyOrderedFrom] in *.
  - now rewrite Hn.
  - destruct (arrayIndex k) as [m|].
    + apply andb_true_iff in H as [H1 H2]. rewrite H1. cbn [andb]. now apply IH.
    + rewrite namedOnly_app, H. unfold namedOnly. cbn [forallb fst]. now rewrite Hn.
Qed.

Lemma arrayIndex_nonneg name n : arrayIndex name = Some n -> (0 <= n)%Z.
Proof.
  unfold arrayIndex. destruct name as [|c r]; [discriminate|].
  destruct (allChars isDigit (String c r)) eqn:D; [|discriminate]. cbn [andb].
  destruct (negb (c =? "0")%char || (r =? "")); [|discriminate].
  destruct (digitsValue 0 (String c r) <=? 4294967294)%Z; [|discriminate].
  intros E. injection E as <-. change (0 <= digitsValue 0 (String c r))%Z.
  apply digitsValue_nonneg; [exact D|lia].
Qed.

Lemma inStrings_ownUser users name :
  inStrings name (map fst users) = false <-> ownUser users name = None.
Proof.
  rewrite ownUser_None, <- inStrings_In. now destruct (inStrings name (map fst users)).
Qed.

Section AccountProperties.

Variable pbkdf2Hash : string -> list Byte.byte -> list Byte.byte.

(** X2: a password is accepted for a newly created account exactly when it
    derives the same key as the password the account was created with; in
    particular that password is accepted, and the check does not throw. *)
Theorem verifyUser_after_createUser users name password salt now users' :
  createUser pbkdf2Hash users name password salt now = inr users' ->
  verifyUser pbkdf2Hash users' name password = Some true
  /\ forall attempt, exists ok,
       verifyUser pbkdf2Hash users' name attempt = Some ok
       /\ (ok = true <-> pbkdf2Hash attempt salt = pbkdf2Hash password salt).
Proof.
  unfold createUser. destruct (getUser users name); try discriminate.
  intros E. injection E as <-.
  assert (A : forall attempt,
             verifyUser pbkdf2Hash
               (setUser users name
                  {| saltB64 := bytesToB64 salt;
                     hashB64 := bytesToB64 (pbkdf2Hash password salt);
                     createdAt := now |}) name attempt
             = Some (bytesToB64 (pbkdf2Hash attempt salt)
                     =? bytesToB64 (pbkdf2Hash password salt))).
  { intros attempt. unfold verifyUser, getUser. rewrite ownUser_setUser. cbn [saltB64 hashB64].
    now rewrite b64ToBytes_bytesToB64. }
  split.
  - rewrite A. now rewrite String.eqb_refl.
  - intros attempt. eexists. split; [apply A|].
    rewrite String.eqb_eq. split; [apply bytesToB64_inj|congruence].
Qed.

(** X3: [createUser] throws for a name that is stored already and for a
    name that every object inherits from its prototype ([constructor],
    [toString], ...), and stores nothing then.  For any other name it
    stores a record, the salt and the derived key in base64, under the
    name: the name is then found with that record and every other name as
    before.  The new name comes after the names that were stored, unless
    it is an array index (the numeral of an integer from 0 to 2^32 - 2):
    then it comes after the array indices below it and before all other
    names, the order in which an object lists its keys.  With the names 7
    and ada stored, 123 goes between them, and bob after them. *)
Theorem createUser_refuses users name password salt now :
  let new := {| saltB64 := bytesToB64 salt;
                hashB64 := bytesToB64 (pbkdf2Hash password salt);
                createdAt := now |} in
  (inStrings name (map fst users) || inStrings name objectPrototypeKeys = true ->
   createUser pbkdf2Hash users name password salt now = inl usernameExists)
  /\ (inStrings name (map fst users) || inStrings name objectPrototypeKeys = false ->
      exists users',
        createUser pbkdf2Hash users name password salt now = inr users'
        /\ ownUser users' name = Some new
        /\ (forall other, other <> name -> ownUser users' other = ownUser users other)
        /\ (arrayIndex name = None -> users' = (users ++ [(name, new)])%list)
        /\ (forall n, arrayIndex name = Some n -> keyOrdered users = true ->
              users' = (filter (indexBelow n) users
                        ++ (name, new) :: filter (fun kv => negb (indexBelow n kv)) users)%list)
        /\ (keyOrdered users = true -> keyOrdered users' = true))
  /\ (forall r7 ra,
        keyOrdered [("7", r7); ("ada", ra)] = true
        /\ createUser pbkdf2Hash [("7", r7); ("ada", ra)] "123" password salt now
           = inr [("7", r7); ("123", new); ("ada", ra)]
        /\ createUser pbkdf2Hash [("7", r7); ("ada", ra)] "bob" password salt now
           = inr [("7", r7); ("ada", ra); ("bob", new)]
        /\ createUser pbkdf2Hash [("7", r7); ("ada", ra)] "ada" password salt now
           = inl usernameExists
        /\ createUser pbkdf2Hash [("7", r7); ("ada", ra)] "toString" password salt now
           = inl usernameExists).
Proof.
  intros new. split; [|split].
  - intros H. unfold createUser, getUser.
    destruct (ownUser users name) as [u|] eqn:E; [reflexivity|].
    apply inStrings_ownUser in E. rewrite E in H. cbn [orb] in H. now rewrite H.
  - intros H. apply orb_false_iff in H as [H1 H2].
    apply inStrings_ownUser in H1.
    unfold createUser, getUser. rewrite H1, H2. fold new.
    eexists. split; [reflexivity|].
    split; [apply ownUser_setUser|].
    split; [intros other N; now apply ownUser_setUser_other|].
    unfold setUser. rewrite H1.
    split; [intros ->; reflexivity|]. split.
    + intros n Hn O. rewrite Hn.
      apply (insertIndex_ordered n name new users (-1) Hn); [|exact H1|exact O].
      pose proof (arrayIndex_nonneg name n Hn). lia.
    + intros O. destruct (arrayIndex name) as [n|] eqn:Hn.
      * apply (insertIndex_ordered n name new users (-1) Hn); [|exact H1|exact O].
        pose proof (arrayIndex_nonneg name n Hn). lia.
      * now apply keyOrderedFrom_append.
  - intros r7 ra. repeat split.
Qed.

(** X4: for a name that is not stored, [verifyUser] answers false, except
    that for a name inherited from the prototype it throws ([atob] rejects
    the missing salt). *)
Theorem verifyUser_unknown users name password :
  inStrings name (map fst users) = false ->
  verifyUser pbkdf2Hash users name password
  = if inStrings name objectPrototypeKeys then None else Some false.
Proof.
  intros H. unfold verifyUser, getUser.
  assert (E : ownUser users name = None).
  { apply ownUser_None. rewrite <- inStrings_In. congruence. }
  rewrite E. destruct (inStrings name objectPrototypeKeys); reflexivity.
Qed.

(** X5: creating an account leaves the check of every other name as it
    was. *)
Theorem createUser_other_accounts users name password salt now users' other attempt :
  createUser pbkdf2Hash users name password salt now = inr users' ->
  other <> name ->
  verifyUser pbkdf2Hash users' other attempt = verifyUser pbkdf2Hash users other attempt.
Proof.
  unfold createUser. destruct (getUser users name); try discriminate.
  intros E N. injection E as <-.
  unfold verifyUser, getUser. now rewrite ownUser_setUser_other.
Qed.

End AccountProperties.

Lemma verifyUser_after_createUser_witness :
  verifyUser demoHash [("ada", {| saltB64 := "AQI="; hashB64 := "c2VjcmV0AQI="; createdAt := "t" |})] "ada" "secret" = Some true
  /\ forall attempt, exists ok,
       verifyUser demoHash [("ada", {| saltB64 := "AQI="; hashB64 := "c2VjcmV0AQI="; createdAt := "t" |})] "ada" attempt = Some ok
       /\ (ok = true <-> demoHash attempt [Byte.x01; Byte.x02] = demoHash "secret" [Byte.x01; Byte.x02]).
Proof.
  apply (verifyUser_after_createUser demoHash [] "ada" "secret" [Byte.x01; Byte.x02] "t").
  reflexivity.
Defined.

Lemma verifyUser_unknown_witness :
  verifyUser demoHash [] "toString" "secret" = None
  /\ verifyUser demoHash [] "ada" "secret" = Some false.
Proof.
  split.
  - apply (verifyUser_unknown demoHash [] "toString" "secret"). reflexivity.
  - apply (verifyUser_unknown demoHash [] "ada" "secret"). reflexivity.
Defined.

Lemma createUser_other_accounts_witness :
  (verifyUser demoHash
     (bobStore ++ [("ada", {| saltB64 := "AQI="; hashB64 := "c2VjcmV0AQI=";
                              createdAt := "t" |})])%list "bob" "hunter2"
   = verifyUser demoHash bobStore "bob" "hunter2")
  /\ verifyUser demoHash bobStore "bob" "hunter2" = Some true
  /\ (verifyUser demoHash
        (bobStore ++ [("ada", {| saltB64 := "AQI="; hashB64 := "c2VjcmV0AQI=";
                                 createdAt := "t" |})])%list "bob" "guess"
      = verifyUser demoHash bobStore "bob" "guess")
  /\ verifyUser demoHash bobStore "bob" "guess" = Some false.
Proof.
  split; [|split; [reflexivity|split; [|reflexivity]]].
  - apply (createUser_other_accounts demoHash bobStore "ada" "secret"
             [Byte.x01; Byte.x02] "t" _ "bob" "hunter2").
    + reflexivity.
    + discriminate.
  - apply (createUser_other_accounts demoHash bobStore "ada" "secret"
             [Byte.x01; Byte.x02] "t" _ "bob" "guess").
    + reflexivity.
    + discriminate.
Defined.

(** ** CSV *)

Lemma append_assoc a b c : (a ++ b) ++ c = a ++ (b ++ c).
Proof. induction a as [|x a IH]; cbn; [reflexivity|]. now rewrite IH. Qed.

Lemma needsQuoting_head c r :
  needsQuoting (String c r) = false ->
  c <> dquote /\ c <> comma /\ c <> newline /\ needsQuoting r = false.
Proof.
  cbn. intros H. repeat (apply orb_false_iff in H as [H ?]).
  repeat split; try assumption; intros ->; discriminate.
Qed.

Lemma cellEnd_not_quote c r : cellEnd (String c r) -> c <> dquote.
Proof. intros [-> | ->]; discriminate. Qed.

Lemma raw_inj f1 : forall f2 r1 r2,
  needsQuoting f1 = false -> needsQuoting f2 = false ->
  cellEnd r1 -> cellEnd r2 ->
  f1 ++ r1 = f2 ++ r2 -> f1 = f2 /\ r1 = r2.
Proof.
  induction f1 as [|c f1 IH]; intros [|d f2] r1 r2 N1 N2 E1 E2 H; cbn in H.
  - now split.
  - subst r1. apply needsQuoting_head in N2 as (_ & A & B & _).
    destruct E1; contradiction.
  - subst r2. apply needsQuoting_head in N1 as (_ & A & B & _).
    destruct E2; contradiction.
  - injection H as -> H.
    apply needsQuoting_head in N1 as (_ & _ & _ & N1).
    apply needsQuoting_head in N2 as (_ & _ & _ & N2).
    destruct (IH _ _ _ N1 N2 E1 E2 H) as [-> ->]. now split.
Qed.

Lemma quoted_inj f1 : forall f2 r1 r2,
  cellEnd r1 -> cellEnd r2 ->
  doubleQuotes f1 ++ String dquote r1 = doubleQuotes f2 ++ String dquote r2 ->
  f1 = f2 /\ r1 = r2.
Proof.
  induction f1 as [|c f1 IH]; intros [|d f2] r1 r2 E1 E2 H; cbn in H.
  - injection H as ->. now split.
  - destruct (Ascii.eqb_spec d dquote) as [->|N]; cbn in H.
    + injection H as ->. now apply cellEnd_not_quote in E1.
    + injection H as <-. contradiction.
  - destruct (Ascii.eqb_spec c dquote) as [->|N]; cbn in H.
    + injection H as <-. now apply cellEnd_not_quote in E2.
    + injection H as ->. contradiction.
  - destruct (Ascii.eqb_spec c dquote) as [->|N1];
      destruct (Ascii.eqb_spec d dquote) as [->|N2]; cbn in H.
    + injection H as H. destruct (IH _ _ _ E1 E2 H) as [-> ->]. now split.
    + injection H as <-. contradiction.
    + injection H as ->. contradiction.
    + injection H as -> H. destruct (IH _ _ _ E1 E2 H) as [-> ->]. now split.
Qed.

Lemma raw_not_quoted f r s :
  needsQuoting f = false -> cellEnd r -> f ++ r <> String dquote s.
Proof.
  intros N E H. destruct f as [|c f]; cbn in H.
  - subst r. now apply cellEnd_not_quote in E.
  - injection H as -> _. now apply needsQuoting_head in N as (A & _).
Qed.

Lemma escText_inj f1 f2 r1 r2 :
  cellEnd r1 -> cellEnd r2 ->
  escText f1 ++ r1 = escText f2 ++ r2 -> f1 = f2 /\ r1 = r2.
Proof.
  intros E1 E2. unfold escText.
  destruct (needsQuoting f1) eqn:N1; destruct (needsQuoting f2) eqn:N2; cbn [append].
  - rewrite !append_assoc. cbn [append]. intros H. injection H as H.
    now apply quoted_inj.
  - intros H. symmetry in H. now apply raw_not_quoted in H.
  - intros H. now apply raw_not_quoted in H.
  - now apply raw_inj.
Qed.

Lemma lineEnd_cellEnd r : lineEnd r -> cellEnd r.
Proof. destruct r; cbn; [trivial|now right]. Qed.

Lemma csvLine_inj fs1 : forall fs2 r1 r2,
  List.length fs1 = List.length fs2 ->
  lineEnd r1 -> lineEnd r2 ->
  csvLine fs1 ++ r1 = csvLine fs2 ++ r2 -> fs1 = fs2 /\ r1 = r2.
Proof.
  unfold csvLine.
  induction fs1 as [|f fs1 IH]; intros [|g fs2] r1 r2 L E1 E2 H; try discriminate.
  - now split.
  - destruct fs1 as [|f' fs1]; destruct fs2 as [|g' fs2]; try discriminate.
    + cbn [map join] in H.
      apply escText_inj in H as [-> ->]; auto using lineEnd_cellEnd.
    + change (join "," (map escText (f :: f' :: fs1)))
        with (escText f ++ "," ++ join "," (map escText (f' :: fs1))) in H.
      change (join "," (map escText (g :: g' :: fs2)))
        with (escText g ++ "," ++ join "," (map escText (g' :: fs2))) in H.
      rewrite !append_assoc in H.
      apply escText_inj in H as [-> H]; [|cbn; now left|cbn; now left].
      apply append_inv_head in H.
      apply IH in H as [-> ->]; auto.
Qed.

Lemma join_cons2 sep x y l : join sep (x :: y :: l) = x ++ sep ++ join sep (y :: l).
Proof. reflexivity. Qed.

Lemma join_single sep x : join sep [x] = x.
Proof. reflexivity. Qed.

Ltac line_side := first [congruence | reflexivity | exact I].

Lemma csvLines_inj n ls1 : forall ls2 h1 h2,
  Forall (fun l => List.length l = n) (h1 :: ls1) ->
  Forall (fun l => List.length l = n) (h2 :: ls2) ->
  join (String newline "") (map csvLine (h1 :: ls1))
  = join (String newline "") (map csvLine (h2 :: ls2)) ->
  h1 :: ls1 = h2 :: ls2.
Proof.
  induction ls1 as [|l1 ls1 IH]; intros [|l2 ls2] h1 h2 F1 F2 H;
    inversion F1 as [|? ? L1 F1']; inversion F2 as [|? ? L2 F2']; subst;
    cbn [map] in H; rewrite ?join_cons2 in H.
  - rewrite !join_single in H.
    rewrite <- (append_nil_r (csvLine h1)), <- (append_nil_r (csvLine h2)) in H.
    apply csvLine_inj in H as [-> _]; [reflexivity|line_side..].
  - rewrite join_single in H. rewrite <- (append_nil_r (csvLine h1)) in H at 1.
    apply csvLine_inj in H as [_ H]; [discriminate|line_side..].
  - rewrite join_single in H. symmetry in H.
    rewrite <- (append_nil_r (csvLine h2)) in H at 1.
    apply csvLine_inj in H as [_ H]; [discriminate|line_side..].
  - apply csvLine_inj in H as [-> H]; [|line_side..].
    apply append_inv_head in H.
    apply (IH ls2 l1 l2) in H; [congruence|assumption..].
Qed.

Lemma toCSV_lines rows headers :
  toCSV rows headers
  = join (String newline "") (map csvLine (headers :: cellTexts rows headers)).
Proof.
  unfold toCSV, cellTexts, csvLine. cbn [map]. rewrite !map_map.
  f_equal. f_equal.
  apply map_ext. intros row. now rewrite map_map.
Qed.

(** X6: the file [toCSV] writes determines the text of every cell: two
    tables with the same headers give the same file only if their rows
    agree cell by cell.  So the quoting keeps commas, quotes and line feeds
    inside a cell apart from the separators. *)
Theorem toCSV_injective headers rows1 rows2 :
  toCSV rows1 headers = toCSV rows2 headers ->
  cellTexts rows1 headers = cellTexts rows2 headers.
Proof.
  rewrite !toCSV_lines. intros H.
  apply (csvLines_inj (List.length headers)) in H.
  - congruence.
  - constructor; [reflexivity|]. unfold cellTexts. apply Forall_forall.
    intros l Hl. apply in_map_iff in Hl as (row & <- & _). apply length_map.
  - constructor; [reflexivity|]. unfold cellTexts. apply Forall_forall.
    intros l Hl. apply in_map_iff in Hl as (row & <- & _). apply length_map.
Qed.

Lemma toCSV_injective_witness :
  (toCSV (oneRow (JStr "a,b") (JNum 7)) ["x"; "y"]
   = toCSV (oneRow (JStr "a,b") (JStr "7")) ["x"; "y"]
   /\ cellTexts (oneRow (JStr "a,b") (JNum 7)) ["x"; "y"]
      = cellTexts (oneRow (JStr "a,b") (JStr "7")) ["x"; "y"])
  /\ (cellTexts (oneRow (JStr "a,b") (JStr "c")) ["x"; "y"]
      <> cellTexts (oneRow (JStr "a") (JStr "b,c")) ["x"; "y"]
      /\ toCSV (oneRow (JStr "a,b") (JStr "c")) ["x"; "y"]
         <> toCSV (oneRow (JStr "a") (JStr "b,c")) ["x"; "y"]).
Proof.
  split.
  - split; [reflexivity|].
    apply (toCSV_injective ["x"; "y"] (oneRow (JStr "a,b") (JNum 7))
                           (oneRow (JStr "a,b") (JStr "7"))).
    reflexivity.
  - assert (N : cellTexts (oneRow (JStr "a,b") (JStr "c")) ["x"; "y"]
                <> cellTexts (oneRow (JStr "a") (JStr "b,c")) ["x"; "y"])
      by (intro H; vm_compute in H; discriminate H).
    split; [exact N|].
    intro E. apply N.
    exact (toCSV_injective ["x"; "y"] (oneRow (JStr "a,b") (JStr "c"))
                           (oneRow (JStr "a") (JStr "b,c")) E).
Defined.

(** ** Exports *)

Lemma needsQuoting_plain s : needsQuoting s = negb (allChars plainChar s).
Proof.
  induction s as [|c r IH]; cbn; [reflexivity|].
  rewrite IH. unfold plainChar.
  destruct (c =? dquote)%char, (c =? comma)%char, (c =? newline)%char; cbn;
    try reflexivity; now destruct (allChars _ r).
Qed.

Lemma plain_escText s : allChars plainChar s = true -> escText s = s.
Proof. intros H. unfold escText. now rewrite needsQuoting_plain, H. Qed.

Lemma isNumChar_plain c : isNumChar c = true -> plainChar c = true.
Proof. destruct c as [[] [] [] [] [] [] [] []]; cbn; intro H; first [reflexivity | discriminate]. Qed.

Lemma isDigit_plain c : isDigit c = true -> plainChar c = true.
Proof. intros H. now apply isNumChar_plain, isDigit_isNumChar. Qed.

Lemma digits_plain s : allChars isDigit s = true -> allChars plainChar s = true.
Proof. apply allChars_weaken, isDigit_plain. Qed.

Lemma numChars_plain s : allChars isNumChar s = true -> allChars plainChar s = true.
Proof. apply allChars_weaken, isNumChar_plain. Qed.

Lemma allChars_substring P s : forall n m,
  allChars P s = true -> allChars P (substring n m s) = true.
Proof.
  induction s as [|c r IH]; intros n m H; [destruct n, m; reflexivity|].
  cbn in H. apply andb_true_iff in H as [Hc Hr].
  destruct n as [|n]; destruct m as [|m]; cbn; auto.
  rewrite Hc. cbn. auto.
Qed.

Lemma zeros_plain n : allChars plainChar (zeros n) = true.
Proof. induction n; cbn; auto. Qed.

Lemma Number_toString_plain x : allChars plainChar (Number_toString x) = true.
Proof.
  unfold Number_toString.
  destruct (Prim2SF x) as [s|[]| |s m e]; try reflexivity.
  destruct (if (0 <=? e)%Z then _ else _) as [N D].
  destruct (digitsFrom _ N D _ 1 17) as [sd n].
  pose proof (digits_plain _ (natString_digits sd)) as Hd.
  rewrite allChars_app. apply andb_true_iff. split; [destruct s; reflexivity|].
  destruct (_ && _).
  { rewrite allChars_app, Hd. apply zeros_plain. }
  destruct (_ && _).
  { rewrite !allChars_app, !allChars_substring by exact Hd. reflexivity. }
  destruct (_ && _).
  { rewrite !allChars_app, Hd, zeros_plain. reflexivity. }
  pose proof (digits_plain _ (natString_digits (Z.abs (n - 1)))) as He.
  destruct (natString sd) as [|d ds]; [reflexivity|].
  cbn in Hd. apply andb_true_iff in Hd as [Hd Hds].
  destruct ds as [|d' ds'].
  - cbn [allChars]. rewrite Hd. cbn [andb]. rewrite !allChars_app, He.
    destruct (n - 1 <? 0)%Z; reflexivity.
  - cbn [allChars]. rewrite Hd. cbn [andb]. rewrite !allChars_app, Hds, He.
    destruct (n - 1 <? 0)%Z; reflexivity.
Qed.

Lemma Number_toFixed_plain f x : allChars plainChar (Number_toFixed f x) = true.
Proof.
  unfold Number_toFixed.
  destruct (Prim2SF x) as [s|[]| |s m e]; try reflexivity.
  - apply numChars_plain, fixedPoint_numChars.
  - rewrite allChars_app. apply andb_true_iff. split; [destruct s; reflexivity|].
    apply numChars_plain.
    destruct (_ <=? _)%float; [apply largeToString_numChars | apply fixedPoint_numChars].
Qed.

Lemma trackKey_plain m : allChars plainChar (trackKey m) = true.
Proof.
  unfold trackKey. destruct (_ || _); [reflexivity|apply Number_toFixed_plain].
Qed.

Lemma setupKey_plain r : allChars plainChar (setupKey r) = true.
Proof.
  unfold setupKey. rewrite !allChars_app, !Number_toFixed_plain. reflexivity.
Qed.

Lemma avgLabel_plain sk a n :
  allChars plainChar sk = true -> allChars plainChar (avgLabel sk a n) = true.
Proof.
  intros H. unfold avgLabel.
  rewrite !allChars_app, H, Number_toFixed_plain, (digits_plain _ (natString_digits _)).
  reflexivity.
Qed.

Lemma singleLabel_plain sk a :
  allChars plainChar sk = true -> allChars plainChar (singleLabel sk a) = true.
Proof.
  intros H. unfold singleLabel.
  rewrite !allChars_app, H, Number_toFixed_plain. reflexivity.
Qed.

Lemma setupStep_plain b e :
  plainBest b -> allChars plainChar (fst e) = true -> plainBest (setupStep b e).
Proof.
  intros [Ha Hs] Hk. destruct e as [sk sRuns]. cbn [fst] in Hk.
  unfold setupStep. destruct (finiteScores sRuns) as [|v vs]; [now split|].
  destruct (_ <? bestAvgVal b)%float; cbn [bestSingleVal bestSetupAvg bestSetupSingle];
    destruct (_ <? _)%float; split; cbn [bestSetupAvg bestSetupSingle];
    auto using avgLabel_plain, singleLabel_plain.
Qed.

Lemma rankSetups_plain m :
  Forall (fun e => allChars plainChar (fst e) = true) m -> plainBest (rankSetups m).
Proof.
  unfold rankSetups. assert (H0 : plainBest initBest) by (split; reflexivity).
  revert H0. generalize initBest.
  induction m as [|e m IH]; intros b Hb F; cbn [fold_left]; [exact Hb|].
  inversion F; subst. apply IH; [apply setupStep_plain|]; assumption.
Qed.

Lemma groupBy_setupKey_plain rs :
  Forall (fun e => allChars plainChar (fst e) = true) (groupBy setupKey rs).
Proof.
  apply Forall_forall. intros e He.
  assert (I : In (fst e) (map fst (groupBy setupKey rs))) by now apply in_map.
  apply keys_groupBy_In in I as (r & _ & <-). apply setupKey_plain.
Qed.

(** The cells of a summary row, as they are written when nothing needs
    quoting. *)
Lemma summary_cells_plain byTrack k :
  allChars plainChar k = true ->
  Forall (fun h => allChars plainChar
                     (cellText (getProp (summaryObject (fst (trackRow byTrack k))) h)) = true)
         summaryHeaders.
Proof.
  intros Hk. unfold trackRow. cbn [fst].
  destruct (rankSetups_plain _ (groupBy_setupKey_plain (mapGet k byTrack))) as [Ha Hs].
  repeat constructor; cbn [summaryObject getProp String.eqb Ascii.eqb Bool.eqb
                           trackGroupM runsCount avgScore bestScore bestSetupByAvg
                           bestSetupBySingle cellText nullish ToString];
    try assumption; try apply Number_toString_plain.
  - destruct (Number_isFinite _); cbn [nullish ToString];
      [apply Number_toString_plain|reflexivity].
  - destruct (Number_isFinite _); cbn [nullish ToString];
      [apply Number_toString_plain|reflexivity].
Qed.

Lemma csvLine_plain cells :
  Forall (fun t => allChars plainChar t = true) cells -> csvLine cells = join "," cells.
Proof.
  intros F. unfold csvLine. f_equal.
  induction F as [|t l Ht _ IH]; cbn [map]; [reflexivity|].
  now rewrite (plain_escText t Ht), IH.
Qed.

Lemma toCSV_plain rows headers :
  Forall (fun t => allChars plainChar t = true) headers ->
  Forall (Forall (fun t => allChars plainChar t = true)) (cellTexts rows headers) ->
  toCSV rows headers = plainCSV (headers :: cellTexts rows headers).
Proof.
  intros Hh Hc. rewrite toCSV_lines. unfold plainCSV. f_equal.
  assert (F : Forall (Forall (fun t => allChars plainChar t = true))
                     (headers :: cellTexts rows headers)) by now constructor.
  induction F as [|l ls Hl _ IH]; cbn [map]; [reflexivity|].
  now rewrite (csvLine_plain l Hl), IH.
Qed.

Lemma summary_rows_plain pg :
  Forall (Forall (fun t => allChars plainChar t = true))
         (cellTexts (map (fun r => getProp (summaryObject r))
                         (practiceSummary (renderPracticeSummary pg)))
                    summaryHeaders).
Proof.
  rewrite renderPracticeSummary_kept.
  destruct (keptRuns pg) as [|r0 rs] eqn:E; [constructor|].
  rewrite <- E. cbn zeta. cbn [practiceSummary].
  set (byTrack := groupBy _ _).
  unfold cellTexts. rewrite !map_map.
  apply Forall_forall. intros l Hl. apply in_map_iff in Hl as (k & <- & Hk).
  apply (Permutation_in _ (sortBy_perm trackCompare (map fst byTrack))) in Hk.
  apply keys_groupBy_In in Hk as (r & _ & <-).
  pose proof (summary_cells_plain byTrack _ (trackKey_plain (targetDistanceM r))) as F.
  apply Forall_forall. intros t Ht. apply in_map_iff in Ht as (h & <- & Hh).
  rewrite Forall_forall in F. now apply F.
Qed.

(** X7: the practice summary is exported without a single quoted cell: its
    file is the header line and one line per track group, each the six
    cells joined by commas as they are, and no cell holds a comma, a double
    quote or a line feed.  With no summary there is the message and no
    download. *)
Theorem exportPracticeSummaryCSV_plain pg :
  let rows := practiceSummary (renderPracticeSummary pg) in
  let cells := cellTexts (map (fun r => getProp (summaryObject r)) rows) summaryHeaders in
  exportPracticeSummaryCSV (Some rows) (currentUser pg)
  = match rows with
    | [] => inl nothingToExport
    | _ => inr {| fileName := "scrambler_practice_summary_" ++ currentUser pg ++ ".csv";
                  content := plainCSV (summaryHeaders :: cells);
                  mime := "text/csv" |}
    end
  /\ Forall (Forall (fun t => allChars plainChar t = true)) cells
  /\ exportPracticeSummaryCSV None (currentUser pg) = inl nothingToExport.
Proof.
  cbn zeta. split; [|split; [apply summary_rows_plain|reflexivity]].
  pose proof (summary_rows_plain pg) as F.
  unfold exportPracticeSummaryCSV.
  destruct (practiceSummary (renderPracticeSummary pg)) as [|r0 rows]; [reflexivity|].
  f_equal. f_equal.
  change (Object_keys (summaryObject r0)) with summaryHeaders.
  apply toCSV_plain; [repeat constructor|exact F].
Qed.

Lemma meetObject_keys row : Object_keys (meetObject row) = meetHeaders.
Proof. reflexivity. Qed.

Lemma meetObject_cells row :
  map (fun h => cellText (getProp (meetObject row) h)) meetHeaders
  = map (fun kv => cellText (snd kv)) (meetObject row).
Proof. reflexivity. Qed.

(** X8: with no team in the meet table the exported file holds the single
    header [team]; with teams its first line names the 22 columns, and
    then comes one line per team with the cells of its object. *)
Theorem exportMeetFile_header rows cur :
  content (exportMeetFile rows cur)
  = match rows with
    | [] => "team"
    | _ =>
        join (String newline "")
             (join "," meetHeaders
              :: map (fun row => csvLine (map (fun kv => cellText (snd kv)) (meetObject row)))
                     rows)
    end.
Proof.
  destruct rows as [|row rows]; [reflexivity|].
  unfold exportMeetFile. cbn [content]. rewrite toCSV_lines.
  change (map meetObject (row :: rows)) with (meetObject row :: map meetObject rows).
  cbv iota. rewrite meetObject_keys.
  cbn [map]. f_equal. f_equal.
  unfold cellTexts. cbn [map]. rewrite meetObject_cells. f_equal.
  rewrite !map_map. apply map_ext. intros r. now rewrite meetObject_cells.
Qed.

(** ** Meet *)

(** [Math.min] of two numbers is one of them and neither is below it. *)
Lemma Math_min_two s1 s2 :
  (Math_min [s1; s2] = s1 \/ Math_min [s1; s2] = s2)
  /\ (s1 <? Math_min [s1; s2])%float = false
  /\ (s2 <? Math_min [s1; s2])%float = false
  /\ (is_nan s1 = false -> is_nan s2 = false ->
      (Math_min [s1; s2] <=? s1)%float = true /\ (Math_min [s1; s2] <=? s2)%float = true).
Proof.
  unfold Math_min. cbn [fold_left]. rewrite Math_min2_infinity.
  destruct (is_nan s1) eqn:N1.
  { rewrite (Math_min2_nan s1 s2 (or_introl N1)).
    rewrite (is_nan_true _ N1). split; [now left|].
    split; [|split; [|discriminate]];
      apply not_true_is_false; intro H; apply ltb_not_nan in H;
      destruct H as [H1 H2];
      first [ vm_compute in H2; discriminate | vm_compute in H1; discriminate ]. }
  destruct (is_nan s2) eqn:N2.
  { rewrite (Math_min2_nan s1 s2 (or_intror N2)).
    rewrite (is_nan_true _ N2). split; [now right|].
    split; [|split; [|discriminate]];
      apply not_true_is_false; intro H; apply ltb_not_nan in H;
      destruct H as [H1 H2];
      first [ vm_compute in H2; discriminate | vm_compute in H1; discriminate ]. }
  destruct (Math_min2_spec s1 s2 N1 N2) as (Hor & L1 & L2).
  split; [exact Hor|].
  split; [|split; [|auto]];
    apply not_true_is_false; intro H; apply ltb_not_leb in H; congruence.
Qed.

Lemma exportMeetFile_lines rows cur :
  rows <> [] ->
  content (exportMeetFile rows cur)
  = join (String newline "")
         (join "," meetHeaders
          :: map (fun row =>
                    csvLine (map (fun h => cellText (getProp (meetObject row) h))
                                 meetHeaders))
                 rows).
Proof.
  destruct rows as [|row rows]; [congruence|]. intros _.
  unfold exportMeetFile. cbn [content]. rewrite toCSV_lines.
  change (map meetObject (row :: rows)) with (meetObject row :: map meetObject rows).
  cbv iota. rewrite meetObject_keys.
  cbn [map]. f_equal. f_equal.
  unfold cellTexts. cbn [map]. f_equal.
  rewrite !map_map. reflexivity.
Qed.

(** C10: [renderMeet] shows one line per team, in the order of the table.
    On the line of a team the two runs carry the totals [computeScore]
    gives each of them by itself; the best of two is one of the two
    totals and neither total is below it (it is at most both when neither
    is NaN); and the final score is the best of two plus 5000 when
    [notImpounded] is set and plus 0 (the same number) otherwise.  The
    object [exportMeetCSV] makes of the team holds the same two totals,
    the same best of two and the same final score, and the file has,
    after the line of the headers, one line per team with the texts of
    these properties.  Team A with 710 and 610, not impounded, gets 610
    and 5610; team B with 5100 and 754.17 gets 754.17 twice. *)
Theorem renderMeet_best_of_two :
  (forall rows : list MeetRow,
     List.length (renderMeet rows) = List.length rows
     /\ forall (i : nat) (row : MeetRow),
          nth_error rows i = Some row ->
          exists line : MeetLine,
            nth_error (renderMeet rows) i = Some line
            /\ m_r1 line = (total (computeScore (run1 row)), timeAvg (computeScore (run1 row)))
            /\ m_r2 line = (total (computeScore (run2 row)), timeAvg (computeScore (run2 row)))
            /\ (m_bestOf2 line = total (computeScore (run1 row))
                \/ m_bestOf2 line = total (computeScore (run2 row)))
            /\ (total (computeScore (run1 row)) <? m_bestOf2 line)%float = false
            /\ (total (computeScore (run2 row)) <? m_bestOf2 line)%float = false
            /\ (is_nan (total (computeScore (run1 row))) = false ->
                is_nan (total (computeScore (run2 row))) = false ->
                (m_bestOf2 line <=? total (computeScore (run1 row)))%float = true
                /\ (m_bestOf2 line <=? total (computeScore (run2 row)))%float = true)
            /\ ((ToBoolean (notImpounded row) = true
                 /\ m_final line = (m_bestOf2 line + 5000)%float)
                \/ (ToBoolean (notImpounded row) = false
                    /\ m_final line = (m_bestOf2 line + 0)%float
                    /\ (is_nan (m_bestOf2 line) = true
                        \/ (m_final line =? m_bestOf2 line)%float = true)))
            /\ getProp (meetObject row) "run1_score" = JNum (total (computeScore (run1 row)))
            /\ getProp (meetObject row) "run2_score" = JNum (total (computeScore (run2 row)))
            /\ getProp (meetObject row) "bestOf2" = JNum (m_bestOf2 line)
            /\ getProp (meetObject row) "finalMeetScore" = JNum (m_final line))
  /\ (forall (rows : list MeetRow) (cur : string),
        rows <> [] ->
        content (exportMeetFile rows cur)
        = join (String newline "")
               (join "," meetHeaders
                :: map (fun row =>
                          csvLine (map (fun h => cellText (getProp (meetObject row) h))
                                       meetHeaders))
                       rows))
  /\ map (fun line => (fst (m_r1 line), fst (m_r2 line), m_bestOf2 line, m_final line))
         (renderMeet [teamA; teamB])
     = [(710, 610, 610, 5610);
        (5100, 754.17, 754.17, 754.17)]%float
  /\ content (exportMeetFile [teamA; teamB] "ada") = teamsCSV.
Proof.
  split.
  { intro rows. unfold renderMeet. split; [apply length_map|].
    intros i row Hi. exists (renderMeetRow row).
    split; [now apply map_nth_error|].
    unfold renderMeetRow, meetRunScore, impoundPenalty.
    cbn [m_r1 m_r2 m_bestOf2 m_final fst snd].
    set (s1 := total (computeScore (run1 row))).
    set (s2 := total (computeScore (run2 row))).
    destruct (Math_min_two s1 s2) as (Hor & L1 & L2 & Hle).
    split; [reflexivity|]. split; [reflexivity|].
    split; [exact Hor|]. split; [exact L1|]. split; [exact L2|]. split; [exact Hle|].
    split.
    { destruct (ToBoolean (notImpounded row)).
      - left. split; reflexivity.
      - right. split; [reflexivity|]. split; [reflexivity|].
        destruct (is_nan (Math_min [s1; s2])) eqn:N; [now left|right].
        now apply add_zero_eqb. }
    repeat split. }
  split; [exact exportMeetFile_lines|].
  split; vm_compute; reflexivity.
Qed.

(** ** The timers *)

Ltac timer_simpl :=
  unfold Timer.stop, Timer.updateUI, Timer.clearInterval, Timer.setMsLeft,
    Timer.setStateText in *;
  cbn [Timer.msLeft Timer.interval Timer.running Timer.installed Timer.display
       Timer.stateText Timer.updateUI Timer.stop Timer.clearInterval
       Timer.closureLast Timer.setLast Timer.step filter fst negb app] in *.

Lemma fmtMMSS_zero : fmtMMSS 0 = "00:00".
Proof. vm_compute. reflexivity. Qed.


Lemma timer_create : timerInvariant Timer.create.
Proof. repeat split; reflexivity. Qed.

Lemma timer_step st ev : timerInvariant st -> timerInvariant (Timer.step st ev).
Proof.
  intros (Ht & Hd & Hi & Hm).
  destruct st as [ms iv rn ins dp tx]. timer_simpl.
  destruct ev as [now h| |now h| |h now]; timer_simpl.
  - unfold Timer.start. timer_simpl.
    destruct rn; [repeat split; assumption|].
    destruct iv as [k|]; [destruct Hi; discriminate|]. destruct Hi as [_ ->].
    repeat split; timer_simpl; eauto.
  - unfold Timer.pause. timer_simpl.
    destruct rn; [|repeat split; assumption].
    destruct iv as [k|]; [|destruct Hi; discriminate].
    destruct Hi as [_ [last ->]].
    unfold timerInvariant. timer_simpl. rewrite ?Pos.eqb_refl. timer_simpl. auto.
  - unfold Timer.resume. timer_simpl.
    destruct (negb rn && (0 <? ms)%float) eqn:E; [|repeat split; assumption].
    apply andb_true_iff in E as [E _]. apply negb_true_iff in E. subst rn.
    unfold Timer.start. timer_simpl.
    destruct iv as [k|]; [destruct Hi; discriminate|]. destruct Hi as [_ ->].
    repeat split; timer_simpl; eauto.
  - unfold Timer.restart, timerInvariant.
    destruct iv as [k|].
    + destruct Hi as [_ [last ->]]. timer_simpl. rewrite ?Pos.eqb_refl. timer_simpl.
      repeat split; reflexivity.
    + destruct Hi as [_ ->]. timer_simpl. repeat split; reflexivity.
  - unfold Timer.tick, timerInvariant. timer_simpl.
    destruct iv as [k|].
    + destruct Hi as [-> [last ->]]. timer_simpl.
      destruct (Pos.eqb_spec k h) as [->|N]; [|timer_simpl; eauto 10].
      timer_simpl. rewrite ?Pos.eqb_refl.
      destruct (ms - (now - last) <=? 0)%float eqn:E; timer_simpl.
      * rewrite ?Pos.eqb_refl. timer_simpl. repeat split; reflexivity.
      * repeat split; eauto.
        apply not_true_is_false. intros L. apply ltb_leb in L. congruence.
    + destruct Hi as [-> ->]. timer_simpl. auto.
Qed.

Lemma timer_run_from st evs :
  timerInvariant st -> timerInvariant (fold_left Timer.step evs st).
Proof.
  revert st. induction evs as [|ev evs IH]; intros st H; cbn [fold_left]; [exact H|].
  apply IH, timer_step, H.
Qed.

Lemma timer_reachable evs : timerInvariant (Timer.run evs).
Proof. apply timer_run_from, timer_create. Qed.

(** X9: whatever is clicked and whenever the interval fires, the label of a
    timer is Running while it runs and Paused/Ready otherwise (the texts
    Time! and Ready are always overwritten at once), the display shows the
    time left, the interval variable holds the only installed callback
    exactly while the timer runs, and the time left is never negative. *)
Theorem timer_invariant evs : timerInvariant (Timer.run evs).
Proof.
  unfold Timer.run. apply timer_run_from.
  apply timer_create.
Qed.

(** X10: [restart] brings a timer back to the state [createTimer] made,
    from wherever it is. *)
Theorem timer_restart evs : Timer.step (Timer.run evs) Timer.Restart = Timer.create.
Proof.
  destruct (timer_reachable evs) as (Ht & Hd & Hi & Hm).
  destruct (Timer.run evs) as [ms iv rn ins dp tx]. timer_simpl.
  unfold Timer.restart, Timer.create.
  destruct iv as [k|].
  - destruct Hi as [_ [last ->]]. timer_simpl. rewrite ?Pos.eqb_refl. reflexivity.
  - destruct Hi as [_ ->]. reflexivity.
Qed.

(** X11: when the interval fires and no time is left, the timer stops at
    00:00 with the label Paused/Ready, and Resume then does nothing. *)
Theorem timer_expiry evs h now last :
  Timer.installed (Timer.run evs) = [(h, last)] ->
  (Timer.msLeft (Timer.run evs) - (now - last) <=? 0)%float = true ->
  let st := Timer.step (Timer.run evs) (Timer.Tick h now) in
  st = {| Timer.msLeft := 0; Timer.interval := None; Timer.running := false;
          Timer.installed := []; Timer.display := "00:00";
          Timer.stateText := "Paused/Ready" |}
  /\ forall now' h', Timer.step st (Timer.Resume now' h') = st.
Proof.
  intros Hins Hle.
  destruct (timer_reachable evs) as (Ht & Hd & Hi & Hm).
  destruct (Timer.run evs) as [ms iv rn ins dp tx]. timer_simpl. subst ins.
  destruct iv as [k|]; [|destruct Hi; discriminate].
  destruct Hi as [-> [last' E]]. injection E as -> ->.
  unfold Timer.tick. timer_simpl. rewrite ?Pos.eqb_refl, Hle. timer_simpl.
  rewrite ?Pos.eqb_refl. timer_simpl. rewrite fmtMMSS_zero.
  split; [reflexivity|].
  intros now' h'. reflexivity.
Qed.

Lemma timer_expiry_witness :
  let st := Timer.step (Timer.run [Timer.Start 0 1]) (Timer.Tick 1 480000) in
  st = {| Timer.msLeft := 0; Timer.interval := None; Timer.running := false;
          Timer.installed := []; Timer.display := "00:00";
          Timer.stateText := "Paused/Ready" |}
  /\ forall now' h', Timer.step st (Timer.Resume now' h') = st.
Proof.
  apply (timer_expiry [Timer.Start 0 1] 1 480000 0); vm_compute; reflexivity.
Defined.

Lemma timer_run_app evs evs' :
  Timer.run (evs ++ evs') = fold_left Timer.step evs' (Timer.run evs).
Proof. unfold Timer.run. apply fold_left_app. Qed.

(** X12: the time a timer spends paused is not counted: after Pause, Resume
    at [t2] and the next firing of the interval at [t3], the time left has
    gone down by [t3 - t2] only (and stops at 0). *)
Theorem timer_paused_time evs t2 h2 t3 :
  (0 <? Timer.msLeft (Timer.run evs))%float = true ->
  Timer.msLeft
    (Timer.run (evs ++ [Timer.Pause; Timer.Resume t2 h2; Timer.Tick h2 t3]))
  = let left := (Timer.msLeft (Timer.run evs) - (t3 - t2))%float in
    if (left <=? 0)%float then 0%float else left.
Proof.
  intros Hpos. rewrite timer_run_app.
  destruct (timer_reachable evs) as (Ht & Hd & Hi & Hm).
  destruct (Timer.run evs) as [ms iv rn ins dp tx]. timer_simpl.
  cbn [fold_left Timer.step].
  assert (P : exists dp' tx',
             Timer.pause {| Timer.msLeft := ms; Timer.interval := iv; Timer.running := rn;
                            Timer.installed := ins; Timer.display := dp;
                            Timer.stateText := tx |}
             = {| Timer.msLeft := ms; Timer.interval := None; Timer.running := false;
                  Timer.installed := []; Timer.display := dp'; Timer.stateText := tx' |}).
  { unfold Timer.pause. timer_simpl. destruct iv as [k|].
    - destruct Hi as [-> [last ->]]. timer_simpl. rewrite ?Pos.eqb_refl. timer_simpl. eauto.
    - destruct Hi as [-> ->]. eauto. }
  destruct P as (dp' & tx' & ->).
  unfold Timer.resume. timer_simpl. rewrite Hpos. cbn [andb].
  unfold Timer.start. timer_simpl.
  unfold Timer.tick. timer_simpl. rewrite ?Pos.eqb_refl.
  destruct (ms - (t3 - t2) <=? 0)%float; reflexivity.
Qed.


Lemma timer_paused_time_witness :
  Timer.msLeft
    (Timer.run ([Timer.Start 0 1; Timer.Tick 1 1000]
                ++ [Timer.Pause; Timer.Resume 60000 2; Timer.Tick 2 60500]))
  = let left := (Timer.msLeft (Timer.run [Timer.Start 0 1; Timer.Tick 1 1000])
                 - (60500 - 60000))%float in
    if (left <=? 0)%float then 0%float else left.
Proof.
  apply (timer_paused_time [Timer.Start 0 1; Timer.Tick 1 1000] 60000 2 60500).
  vm_compute. reflexivity.
Defined.

(** ** The display of the time left *)

Section Signs.
Local Open Scope Z_scope.

Lemma binary_round_aux_sign s m e l :
  0 <= m -> hasSign s (binary_round_aux prec emax s m e l).
Proof.
  intro H. unfold hasSign, binary_round_aux.
  pose proof (shr_fexp_nonneg m e l H) as H1.
  destruct (shr_fexp prec emax m e l) as [r1 e1]. cbn [fst] in H1.
  pose proof (shr_fexp_nonneg _ e1 loc_Exact
                (round_nearest_even_nonneg _ (loc_of_shr_record r1) H1)) as H2.
  destruct (shr_fexp prec emax _ e1 loc_Exact) as [r2 e2]. cbn [fst] in H2.
  destruct (shr_m r2); try lia; [now left|].
  destruct (e2 <=? emax - prec); [right; left; eauto | now right; right].
Qed.

Lemma binary_round_sign s m e : hasSign s (binary_round prec emax s m e).
Proof.
  unfold binary_round. destruct (shl_align m e _) as [mz ez].
  apply binary_round_aux_sign. lia.
Qed.

Lemma SFdiv_core_nonneg m1 e1 m2 e2 :
  0 <= m1 -> 0 < m2 ->
  0 <= fst (fst (SFdiv_core_binary prec emax m1 e1 m2 e2)).
Proof.
  intros H1 H2. unfold SFdiv_core_binary.
  set (m' := match _ with Z0 => m1 | Zpos _ => Z.shiftl m1 _ | Zneg _ => 0 end).
  assert (Hm : 0 <= m').
  { unfold m'. destruct (_ - _); try lia. apply Z.shiftl_nonneg. lia. }
  clearbody m'.
  pose proof (Z.div_pos m' m2 Hm H2) as Hq. unfold Z.div in Hq.
  destruct (Z.div_eucl m' m2) as [q r]. exact Hq.
Qed.

Lemma SFdiv_finite_sign sx mx ex sy my ey :
  hasSign (xorb sx sy)
    (SFdiv prec emax (S754_finite sx mx ex) (S754_finite sy my ey)).
Proof.
  cbn [SFdiv].
  pose proof (SFdiv_core_nonneg (Zpos mx) ex (Zpos my) ey ltac:(lia) ltac:(lia)) as H.
  destruct (SFdiv_core_binary prec emax (Zpos mx) ex (Zpos my) ey) as [[q e] l].
  cbn [fst] in H. now apply binary_round_aux_sign.
Qed.

End Signs.

Lemma hasSign_true_nonpos r : hasSign true r -> SFleb r (S754_zero false) = true.
Proof. intros [->|[(m & e & ->)| ->]]; reflexivity. Qed.

(** The quotient of a number that is not positive by 1000 is not positive. *)
Lemma div_1000_nonpos ms : (ms <=? 0)%float = true -> (ms / 1000 <=? 0)%float = true.
Proof.
  rewrite !leb_spec, div_spec. change (Prim2SF 0) with (S754_zero false).
  destruct (Prim2SF 1000) as [| | |sy my ey] eqn:E; try discriminate E.
  assert (sy = false) as -> by (vm_compute in E; congruence).
  destruct (Prim2SF ms) as [s|s| |s m e]; try discriminate.
  - intros _. destruct s; reflexivity.
  - destruct s; [reflexivity|discriminate].
  - destruct s; [|discriminate]. intros _.
    apply hasSign_true_nonpos. apply (SFdiv_finite_sign true m e false my ey).
Qed.

Lemma SF2Prim_nonpos r : hasSign true r -> (SF2Prim r <=? 0)%float = true.
Proof.
  intros [->|[(m & e & ->)| ->]]; [reflexivity| |reflexivity].
  cbn [SF2Prim]. rewrite leb_spec, opp_spec, Z_ldexp_spec, of_uint63_spec.
  change (Prim2SF 0) with (S754_zero false).
  set (D := Uint63Axioms.to_Z _).
  assert (HD : (0 <= D)%Z) by (unfold D; apply Uint63.to_Z_bounded).
  clearbody D.
  assert (H : hasSign false (SFldexp prec emax (binary_normalize prec emax D 0 false) e)).
  { destruct D as [|p|p]; [now left| |lia]. cbn [binary_normalize].
    destruct (binary_round_sign false p 0) as [->|[(m' & e' & ->)| ->]];
      cbn [SFldexp]; [now left|apply binary_round_sign|now right; right]. }
  destruct H as [->|[(m' & e' & ->)| ->]]; reflexivity.
Qed.

Lemma Z2Prim_nonpos n : (n < 0)%Z -> (Z2Prim n <=? 0)%float = true.
Proof.
  intros H. unfold Z2Prim. apply SF2Prim_nonpos.
  destruct n as [|p|p]; try lia. cbn [binary_normalize]. apply binary_round_sign.
Qed.

Lemma Math_ceil_nonpos x : (x <=? 0)%float = true -> (Math_ceil x <=? 0)%float = true.
Proof.
  intros H. unfold Math_ceil.
  destruct (Prim2SF x) as [s|s| |s m e] eqn:E; try exact H.
  destruct (Z.leb_spec 0 e) as [_|He]; [exact H|].
  assert (s = true) as ->.
  { rewrite leb_spec, E in H. destruct s; [reflexivity|discriminate]. }
  cbn [cond_Zopp]. rewrite Z.opp_involutive.
  destruct (Z.eqb_spec (- (Zpos m / 2 ^ (- e))) 0) as [_|N]; [reflexivity|].
  apply Z2Prim_nonpos.
  assert (0 <= Zpos m / 2 ^ (- e))%Z by (apply Z.div_pos; [lia|apply Z.pow_pos_nonneg; lia]).
  lia.
Qed.

Lemma Math_max2_zero y : (y <=? 0)%float = true -> Math_max2 0 y = 0%float.
Proof.
  intros H. unfold Math_max2.
  destruct (leb_not_nan _ _ H) as [Hy _]. rewrite Hy. cbn [is_nan orb].
  change (is_nan 0) with false. cbn [orb].
  destruct (0 <? y)%float eqn:L.
  - apply ltb_not_leb in L. congruence.
  - destruct (y <? 0)%float; reflexivity.
Qed.

Lemma totalSec_nonpos ms : (ms <=? 0)%float = true -> totalSec ms = 0%float.
Proof.
  intros H. unfold totalSec.
  apply Math_max2_zero, Math_ceil_nonpos, div_1000_nonpos, H.
Qed.

(** X13: when no time is left (the time left is zero or below), the display
    is 00:00. *)
Theorem fmtMMSS_nonpos ms : (ms <=? 0)%float = true -> fmtMMSS ms = "00:00".
Proof.
  intros H. unfold fmtMMSS. rewrite (totalSec_nonpos ms H). vm_compute. reflexivity.
Qed.

Lemma fmtMMSS_nonpos_witness : fmtMMSS (-5) = "00:00".
Proof. apply (fmtMMSS_nonpos (-5)). vm_compute. reflexivity. Defined.

Lemma fmtCheck_all : forallb fmtCheck (map Z.of_nat (seq 0 481)) = true.
Proof. vm_compute. reflexivity. Qed.

(** With [T] whole seconds, the display is the two digits of the minutes, a
    colon and the two digits of the seconds below 60. *)
Lemma fmtMMSS_whole ms T :
  (0 <= T <= 480)%Z -> totalSec ms = Z2Prim T ->
  fmtMMSS ms = fixedDigits 2 (T / 60) ++ ":" ++ fixedDigits 2 (T mod 60).
Proof.
  intros HT E. unfold fmtMMSS. rewrite E.
  pose proof fmtCheck_all as A. rewrite forallb_forall in A.
  specialize (A T). apply String.eqb_eq. apply A.
  apply in_map_iff. exists (Z.to_nat T). split; [lia|]. apply in_seq. lia.
Qed.

(** ** The time average is a number that is not negative *)

Lemma hasSign_false_nonneg r : hasSign false r -> SFleb (S754_zero false) r = true.
Proof. intros [->|[(m & e & ->)| ->]]; reflexivity. Qed.

Lemma SFnonneg_cases r :
  SFleb (S754_zero false) r = true ->
  (exists s, r = S754_zero s) \/ (exists m e, r = S754_finite false m e)
  \/ r = S754_infinity false.
Proof.
  destruct r as [s|[]| |[] m e]; try discriminate; intros _; eauto.
Qed.

Lemma SFadd_nonneg X Y :
  SFleb (S754_zero false) X = true -> SFleb (S754_zero false) Y = true ->
  SFleb (S754_zero false) (SFadd prec emax X Y) = true.
Proof.
  intros HX HY.
  destruct (SFnonneg_cases X HX) as [[sx ->]|[(mx & ex & ->)| ->]];
    destruct (SFnonneg_cases Y HY) as [[sy ->]|[(my & ey & ->)| ->]];
    cbn [SFadd]; try reflexivity; try (destruct sx; reflexivity);
    try (destruct sy; reflexivity); try (destruct sx, sy; reflexivity).
  cbn [cond_Zopp].
    set (a := fst (shl_align mx ex _)). set (b := fst (shl_align my ey _)).
  change (Z.pos a + Z.pos b)%Z with (Z.pos (a + b)). cbn [binary_normalize].
  apply hasSign_false_nonneg, binary_round_sign.
Qed.

Lemma SFdiv_nonneg X my ey :
  SFleb (S754_zero false) X = true ->
  SFleb (S754_zero false) (SFdiv prec emax X (S754_finite false my ey)) = true.
Proof.
  intros HX.
  destruct (SFnonneg_cases X HX) as [[sx ->]|[(mx & ex & ->)| ->]].
  - destruct sx; reflexivity.
  - apply hasSign_false_nonneg. apply (SFdiv_finite_sign false mx ex false my ey).
  - reflexivity.
Qed.

Lemma SFmul_nonneg X my ey :
  SFleb (S754_zero false) X = true ->
  SFleb (S754_zero false) (SFmul prec emax X (S754_finite false my ey)) = true.
Proof.
  intros HX.
  destruct (SFnonneg_cases X HX) as [[sx ->]|[(mx & ex & ->)| ->]].
  - destruct sx; reflexivity.
  - cbn [SFmul xorb]. apply hasSign_false_nonneg, binary_round_aux_sign. lia.
  - reflexivity.
Qed.

Lemma leb_zero_SF x : (0 <=? x)%float = SFleb (S754_zero false) (Prim2SF x).
Proof. now rewrite leb_spec. Qed.

Lemma add_nonneg a b :
  (0 <=? a)%float = true -> (0 <=? b)%float = true -> (0 <=? a + b)%float = true.
Proof. rewrite !leb_zero_SF, add_spec. apply SFadd_nonneg. Qed.

Lemma div_nonneg a d my ey :
  Prim2SF d = S754_finite false my ey ->
  (0 <=? a)%float = true -> (0 <=? a / d)%float = true.
Proof. intros E. rewrite !leb_zero_SF, div_spec, E. apply SFdiv_nonneg. Qed.

Lemma mul_nonneg a d my ey :
  Prim2SF d = S754_finite false my ey ->
  (0 <=? a)%float = true -> (0 <=? a * d)%float = true.
Proof. intros E. rewrite !leb_zero_SF, mul_spec, E. apply SFmul_nonneg. Qed.

Lemma SF2Prim_nonneg r : hasSign false r -> (0 <=? SF2Prim r)%float = true.
Proof.
  intros [->|[(m & e & ->)| ->]]; [reflexivity| |reflexivity].
  cbn [SF2Prim]. rewrite leb_spec, Z_ldexp_spec, of_uint63_spec.
  change (Prim2SF 0) with (S754_zero false).
  set (D := Uint63Axioms.to_Z _).
  assert (HD : (0 <= D)%Z) by (unfold D; apply Uint63.to_Z_bounded).
  clearbody D.
  destruct D as [|p|p]; [reflexivity| |lia]. cbn [binary_normalize].
  destruct (binary_round_sign false p 0) as [->|[(m' & e' & ->)| ->]];
    cbn [SFldexp]; [reflexivity| |reflexivity].
  apply hasSign_false_nonneg, binary_round_sign.
Qed.

Lemma Z2Prim_nonneg n : (0 <= n)%Z -> (0 <=? Z2Prim n)%float = true.
Proof.
  intros H. unfold Z2Prim. apply SF2Prim_nonneg.
  destruct n as [|p|p]; try lia; [now left|]. cbn [binary_normalize]. apply binary_round_sign.
Qed.

Lemma Math_round_nonneg x : (0 <=? x)%float = true -> (0 <=? Math_round x)%float = true.
Proof.
  intros H. unfold Math_round.
  destruct (Prim2SF x) as [s|s| |s m e] eqn:E; try exact H.
  destruct (Z.leb_spec 0 e) as [_|He]; [exact H|].
  assert (s = false) as ->.
  { rewrite leb_spec, E in H. destruct s; [discriminate|reflexivity]. }
  cbn [cond_Zopp].
  destruct (Z.eqb_spec ((2 * Zpos m + 2 ^ (- e)) / 2 ^ (1 - e)) 0) as [_|N]; [reflexivity|].
  apply Z2Prim_nonneg. apply Z.div_pos; [|apply Z.pow_pos_nonneg; lia].
  assert (0 < 2 ^ (- e))%Z by (apply Z.pow_pos_nonneg; lia). lia.
Qed.

Lemma round2_nonneg x : (0 <=? x)%float = true -> (0 <=? round2 x)%float = true.
Proof.
  intros H. unfold round2.
  destruct (Prim2SF 100) as [| | |[] m e] eqn:E; try (vm_compute in E; discriminate E).
  apply (div_nonneg _ _ m e E), Math_round_nonneg, (mul_nonneg _ _ m e E), H.
Qed.

Lemma arraySum_nonneg xs :
  Forall (fun v => (0 <=? v)%float = true) xs -> (0 <=? arraySum xs)%float = true.
Proof.
  unfold arraySum. assert (H0 : (0 <=? zero)%float = true) by reflexivity.
  revert H0. generalize zero.
  induction xs as [|v xs IH]; intros acc Ha F; cbn [fold_left]; [exact Ha|].
  inversion F; subst. apply IH; [apply add_nonneg|]; assumption.
Qed.

Lemma avgOfTimes_nonneg t1 t2 t3 : (0 <=? avgOfTimes t1 t2 t3)%float = true.
Proof.
  unfold avgOfTimes.
  set (arr := filter _ _).
  assert (F : Forall (fun v => (0 <=? v)%float = true) arr).
  { apply Forall_forall. intros v Hv. apply filter_In in Hv as [_ Hv].
    now apply andb_true_iff in Hv as [_ Hv]. }
  assert (L : (1 <= List.length arr <= 3)%nat \/ arr = []).
  { unfold arr. cbn [map filter].
    repeat match goal with |- context [if ?b then _ else _] => destruct b end;
      cbn; first [now right | left; lia]. }
  destruct L as [L| ->]; [|reflexivity].
  pose proof (arraySum_nonneg arr F) as S.
  destruct arr as [|v vs]; [cbn in L; lia|].
  set (n := List.length (v :: vs)) in *.
  assert (C : n = 1%nat \/ n = 2%nat \/ n = 3%nat) by lia.
  destruct C as [-> |[-> | ->]].
  - destruct (Prim2SF (Z2Prim (Z.of_nat 1))) as [| | |[] m e] eqn:E;
      try (vm_compute in E; discriminate E). exact (div_nonneg _ _ m e E S).
  - destruct (Prim2SF (Z2Prim (Z.of_nat 2))) as [| | |[] m e] eqn:E;
      try (vm_compute in E; discriminate E). exact (div_nonneg _ _ m e E S).
  - destruct (Prim2SF (Z2Prim (Z.of_nat 3))) as [| | |[] m e] eqn:E;
      try (vm_compute in E; discriminate E). exact (div_nonneg _ _ m e E S).
Qed.

(** X14: the time average is never NaN and never negative, whatever the
    three fields hold: neither the average [avgOfTimes] computes nor the
    rounded one [computeScore] reports, in [timeAvg] and in the breakdown. *)
Theorem timeAvg_nonneg (t1 t2 t3 : JSValue) (inp : RunInput) :
  (0 <=? avgOfTimes t1 t2 t3)%float = true
  /\ is_nan (avgOfTimes t1 t2 t3) = false
  /\ (0 <=? timeAvg (computeScore inp))%float = true
  /\ is_nan (timeAvg (computeScore inp)) = false
  /\ b_timeAvg (breakdown (computeScore inp)) = timeAvg (computeScore inp).
Proof.
  assert (A : (0 <=? timeAvg (computeScore inp))%float = true).
  { unfold computeScore. cbn [timeAvg]. apply round2_nonneg.
    destruct (ToBoolean (failedRun inp)); [reflexivity|apply avgOfTimes_nonneg]. }
  pose proof (avgOfTimes_nonneg t1 t2 t3) as B.
  repeat split; try assumption.
  - now apply leb_not_nan in B.
  - now apply leb_not_nan in A.
Qed.

(** ** Rounding does not cross a number of the format *)

Section NoCrossing.
Local Open Scope Z_scope.

Lemma shr_1_exact k r : 0 <= k -> exactRecord (k + 1) r -> exactRecord k (shr_1 r).
Proof.
  intros Hk (Hr & Hs & Hm & [c Hc]).
  destruct r as [m rb sb]. cbn in Hr, Hs, Hm, Hc. subst rb sb.
  rewrite Z.pow_add_r, Z.pow_1_r in Hc by lia.
  assert (E : m = 2 * (c * 2 ^ k)) by lia.
  assert (P : 0 < 2 ^ k) by (apply Z.pow_pos_nonneg; lia).
  destruct m as [|[p|p|]|p]; unfold exactRecord; cbn [shr_1 shr_m shr_r shr_s orb];
    try lia.
  - repeat split; try lia. exists 0. lia.
  - repeat split; try lia. exists c. lia.
Qed.

Lemma iter_shr_1_exact n : forall k r,
  0 <= k -> exactRecord (k + Zpos n) r -> exactRecord k (iter_pos shr_1 n r).
Proof.
  induction n as [n IH|n IH|]; intros k r Hk H; cbn [iter_pos].
  - apply IH; [lia|]. apply IH; [lia|]. apply shr_1_exact; [lia|].
    replace (k + Z.pos n + Z.pos n + 1) with (k + Z.pos n~1) by lia. exact H.
  - apply IH; [lia|]. apply IH; [lia|].
    replace (k + Z.pos n + Z.pos n) with (k + Z.pos n~0) by lia. exact H.
  - apply shr_1_exact; [lia|exact H].
Qed.

Lemma exactRecord_loc k r : exactRecord k r -> loc_of_shr_record r = loc_Exact.
Proof. intros (Hr & Hs & _). destruct r as [m rb sb]. cbn in *. now subst. Qed.

Lemma round_nearest_even_le m l : round_nearest_even m l <= m + 1.
Proof. destruct l as [|[]]; cbn; try destruct (Z.even m); lia. Qed.

Lemma round_nearest_even_ge m l : m <= round_nearest_even m l.
Proof. destruct l as [|[]]; cbn; try destruct (Z.even m); lia. Qed.

(** What [shr_fexp] gives: the mantissa cut down to the exponent
    [max e (fexp (digits m + e))]. *)
Lemma shr_fexp_spec m e l :
  0 <= m ->
  let e1 := Z.max e (fexp prec emax (Zdigits2 m + e)) in
  snd (shr_fexp prec emax m e l) = e1
  /\ shr_m (fst (shr_fexp prec emax m e l)) = m / 2 ^ (e1 - e)
  /\ (l = loc_Exact -> (2 ^ (e1 - e) | m) ->
      loc_of_shr_record (fst (shr_fexp prec emax m e l)) = loc_Exact).
Proof.
  intros Hm. cbn zeta. unfold shr_fexp, shr.
  destruct (fexp prec emax (Zdigits2 m + e) - e) as [|p|p] eqn:En; cbn [fst snd].
  - replace (Z.max e _) with e by lia. rewrite Z.sub_diag, shr_record_of_loc_m.
    change (2 ^ 0) with 1. rewrite Z.div_1_r. repeat split. now intros ->.
  - replace (Z.max e _) with (e + Z.pos p) by lia.
    replace (e + Z.pos p - e) with (Z.pos p) by lia.
    rewrite shr_m_iter by (rewrite shr_record_of_loc_m; lia).
    rewrite shr_record_of_loc_m. repeat split.
    intros -> D. apply (exactRecord_loc 0). apply iter_shr_1_exact; [lia|].
    unfold exactRecord. cbn [shr_record_of_loc shr_m shr_r shr_s].
    rewrite Z.add_0_l. repeat split; [exact Hm|exact D].
  - replace (Z.max e _) with e by lia. rewrite Z.sub_diag, shr_record_of_loc_m.
    change (2 ^ 0) with 1. rewrite Z.div_1_r. repeat split. now intros ->.
Qed.

(** The exponent of a number below [2^(E + prec)] is at most [E]. *)
Lemma fexp_le m e E B :
  0 <= m -> emin <= e -> e <= E ->
  m * 2 ^ (e - emin) <= B -> B < 2 ^ (E + prec - emin) ->
  fexp prec emax (Zdigits2 m + e) <= E.
Proof.
  intros Hm He HE H1 H2. rewrite emin_value in *. unfold fexp.
  change (SpecFloat.emin prec emax) with (-1074). change prec with 53 in *.
  destruct m as [|p|p]; [cbn [Zdigits2]; lia| |lia]. cbn [Zdigits2].
  pose proof (digits2_bounds p) as [D _].
  destruct (Z.le_gt_cases (Zpos (digits2_pos p) + e) (E + 53)) as [L|G]; [lia|exfalso].
  assert (A : 2 ^ (E + 53 - -1074) <= 2 ^ (Zpos (digits2_pos p) - 1) * 2 ^ (e - -1074)).
  { rewrite <- Z.pow_add_r by lia. apply Z.pow_le_mono_r; lia. }
  assert (P : 0 < 2 ^ (e - -1074)) by (apply Z.pow_pos_nonneg; lia).
  nia.
Qed.

(** Rounding a number that is at most [B], a multiple of [2^E] with [E] at
    least the exponent of the number, gives at most [B]. *)
Lemma binary_round_aux_upper s q e l K E :
  0 <= q -> emin <= e -> e <= E -> E <= emax - prec ->
  0 <= K -> K * 2 ^ (E - emin) < 2 ^ (E + prec - emin) ->
  q * 2 ^ (e - emin) <= K * 2 ^ (E - emin) ->
  (l <> loc_Exact -> q * 2 ^ (e - emin) < K * 2 ^ (E - emin)) ->
  binary_round_aux prec emax s q e l = S754_zero s
  \/ exists m3 e3,
       binary_round_aux prec emax s q e l = S754_finite s m3 e3
       /\ e3 <= E /\ Zpos m3 * 2 ^ (e3 - emin) <= K * 2 ^ (E - emin).
Proof.
  intros Hq He HeE HE HK HB H1 H2.
  set (B := K * 2 ^ (E - emin)) in *.
  unfold binary_round_aux.
  destruct (shr_fexp_spec q e l Hq) as (S1e & S1m & S1l).
  destruct (shr_fexp prec emax q e l) as [r1 e1]. cbn [fst snd] in S1e, S1m, S1l.
  rewrite <- S1e in S1m, S1l.
  set (m1 := shr_m r1) in *.
  assert (F1 : fexp prec emax (Zdigits2 q + e) <= E)
    by (apply (fexp_le q e E B); lia).
  assert (He1 : e <= e1 <= E) by lia.
  assert (P1 : 0 < 2 ^ (e1 - e)) by (apply Z.pow_pos_nonneg; lia).
  assert (Pe : 0 < 2 ^ (e - emin)) by (apply Z.pow_pos_nonneg; lia).
  assert (Pe1 : 2 ^ (e1 - emin) = 2 ^ (e1 - e) * 2 ^ (e - emin))
    by (rewrite <- Z.pow_add_r by lia; f_equal; lia).
  assert (PE : 2 ^ (E - emin) = 2 ^ (E - e1) * 2 ^ (e1 - emin))
    by (rewrite <- Z.pow_add_r by lia; f_equal; lia).
  assert (PE1 : 0 < 2 ^ (E - e1)) by (apply Z.pow_pos_nonneg; lia).
  assert (Hm1 : 0 <= m1) by (rewrite S1m; apply Z.div_pos; lia).
  assert (Dq : q = 2 ^ (e1 - e) * m1 + q mod 2 ^ (e1 - e))
    by (rewrite S1m; apply Z.div_mod; lia).
  pose proof (Z.mod_pos_bound q (2 ^ (e1 - e)) P1) as Rq.
  set (M := K * 2 ^ (E - e1)).
  assert (HBM : B = M * 2 ^ (e1 - emin)) by (unfold B, M; rewrite PE; ring).
  assert (Pe1' : 0 < 2 ^ (e1 - emin)) by (apply Z.pow_pos_nonneg; lia).
  assert (Hm1M : m1 <= M) by nia.
  set (m2 := round_nearest_even m1 (loc_of_shr_record r1)).
  assert (Hm2 : 0 <= m2 <= M).
  { split; [unfold m2; pose proof (round_nearest_even_ge m1 (loc_of_shr_record r1)); lia|].
    destruct (Z.eq_dec m1 M) as [Eq|Ne].
    - assert (Hex : q * 2 ^ (e - emin) = B) by nia.
      assert (Hl : l = loc_Exact).
      { destruct l as [|c]; [reflexivity|]. exfalso.
        assert (q * 2 ^ (e - emin) < B) by (apply H2; discriminate). lia. }
      assert (Hdiv : (2 ^ (e1 - e) | q)).
      { exists m1. nia. }
      unfold m2. rewrite (S1l Hl Hdiv). cbn. lia.
    - unfold m2. pose proof (round_nearest_even_le m1 (loc_of_shr_record r1)). lia. }
  clearbody m2.
  destruct (shr_fexp_spec m2 e1 loc_Exact (proj1 Hm2)) as (S2e & S2m & _).
  destruct (shr_fexp prec emax m2 e1 loc_Exact) as [r2 e2]. cbn [fst snd] in S2e, S2m.
  rewrite <- S2e in S2m.
  assert (F2 : fexp prec emax (Zdigits2 m2 + e1) <= E)
    by (apply (fexp_le m2 e1 E B); nia).
  assert (He2 : e1 <= e2 <= E) by lia.
  assert (P2 : 0 < 2 ^ (e2 - e1)) by (apply Z.pow_pos_nonneg; lia).
  assert (Pe2 : 2 ^ (e2 - emin) = 2 ^ (e2 - e1) * 2 ^ (e1 - emin))
    by (rewrite <- Z.pow_add_r by lia; f_equal; lia).
  assert (D2 : m2 = 2 ^ (e2 - e1) * shr_m r2 + m2 mod 2 ^ (e2 - e1))
    by (rewrite S2m; apply Z.div_mod; lia).
  pose proof (Z.mod_pos_bound m2 (2 ^ (e2 - e1)) P2) as R2.
  assert (H3 : 0 <= shr_m r2) by (rewrite S2m; apply Z.div_pos; lia).
  destruct (shr_m r2) as [|m3|m3] eqn:E3; [now left| |lia].
  right. exists m3, e2.
  destruct (Z.leb_spec e2 (emax - prec)) as [_|G]; [|lia].
  split; [reflexivity|]. split; [lia|]. nia.
Qed.

End NoCrossing.

Section Scaled.
Local Open Scope Z_scope.

Lemma scaled_pos m e : emin <= e -> 0 < scaled m e.
Proof.
  intros H. unfold scaled.
  assert (0 < 2 ^ (e - emin)) by (apply Z.pow_pos_nonneg; lia). nia.
Qed.

Lemma scaled_canonical_lt mx ex my ey :
  bounded prec emax mx ex = true -> bounded prec emax my ey = true ->
  ey < ex -> scaled my ey < scaled mx ex.
Proof.
  intros Bx By L. pose proof (canonical_lt _ _ _ _ Bx By L) as C.
  apply bounded_canonical in By as (Ey & _).
  unfold scaled.
  replace (ex - emin) with ((ex - ey) + (ey - emin)) by lia.
  rewrite Z.pow_add_r by lia.
  assert (0 < 2 ^ (ey - emin)) by (apply Z.pow_pos_nonneg; lia). nia.
Qed.

(** Valid positive numbers compare as their values do. *)
Lemma SFleb_scaled mx ex my ey :
  bounded prec emax mx ex = true -> bounded prec emax my ey = true ->
  SFleb (S754_finite false mx ex) (S754_finite false my ey) = true
  <-> scaled mx ex <= scaled my ey.
Proof.
  intros Bx By. unfold SFleb, SFcompare.
  pose proof (bounded_canonical _ _ Bx) as (Ex & _).
  destruct (Z.compare_spec ex ey) as [->|L|G].
  - change (Pos.compare_cont Eq mx my) with (Pos.compare mx my).
    unfold scaled.
    assert (0 < 2 ^ (ey - emin)) by (apply Z.pow_pos_nonneg; lia).
    destruct (Pos.compare_spec mx my); split; intros; try reflexivity; try discriminate;
      try nia.
  - pose proof (scaled_canonical_lt _ _ _ _ By Bx L). split; [lia|reflexivity].
  - pose proof (scaled_canonical_lt _ _ _ _ Bx By G). split; [discriminate|lia].
Qed.

End Scaled.

Section DivideBy1000.
Local Open Scope Z_scope.

Lemma Prim2SF_1000 : Prim2SF 1000 = S754_finite false 8796093022208000 (-43).
Proof. reflexivity. Qed.

Lemma Prim2SF_480000 : Prim2SF 480000 = S754_finite false 8246337208320000 (-34).
Proof. reflexivity. Qed.

Lemma digits_exponent_le m e b :
  emin <= e -> 0 <= b -> scaled m e < 2 ^ (b - emin) -> Zpos (digits2_pos m) + e <= b.
Proof.
  intros He Hb H. unfold scaled in H. rewrite emin_value in *.
  pose proof (digits2_bounds m) as [D _].
  destruct (Z.le_gt_cases (Zpos (digits2_pos m) + e) b) as [L|G]; [exact L|exfalso].
  assert (A : 2 ^ (b - -1074) <= 2 ^ (Zpos (digits2_pos m) - 1) * 2 ^ (e - -1074)).
  { rewrite <- Z.pow_add_r by lia. apply Z.pow_le_mono_r; lia. }
  assert (P : 0 < 2 ^ (e - -1074)) by (apply Z.pow_pos_nonneg; lia).
  nia.
Qed.

(** A number of at most 480000, divided by 1000, is at most 480. *)
Lemma SFdiv_1000_upper m e :
  bounded prec emax m e = true ->
  scaled m e <= 480000 * 2 ^ 1074 ->
  let r := SFdiv prec emax (S754_finite false m e)
                 (S754_finite false 8796093022208000 (-43)) in
  r = S754_zero false
  \/ exists m3 e3, r = S754_finite false m3 e3 /\ e3 <= -44
                   /\ scaled m3 e3 <= 480 * 2 ^ 1074.
Proof.
  intros Bm Hm. cbn zeta. cbn [SFdiv xorb].
  pose proof (bounded_canonical _ _ Bm) as (Ee & _).
  rewrite emin_value in Ee.
  assert (Hd : Zpos (digits2_pos m) + e <= 19).
  { apply digits_exponent_le; [rewrite ?emin_value; lia|lia|].
    eapply Z.le_lt_trans; [exact Hm|]. rewrite emin_value. vm_compute. reflexivity. }
  unfold SFdiv_core_binary.
  change (Zdigits2 (Zpos m)) with (Zpos (digits2_pos m)).
  change (Zdigits2 8796093022208000) with 53.
  set (e' := Z.min _ _).
  assert (He' : -1074 <= e' <= -44 /\ e' <= e + 43).
  { unfold e', fexp. change (SpecFloat.emin prec emax) with (-1074).
    change prec with 53. lia. }
  set (s := e - -43 - e').
  set (m' := match s with Z0 => Zpos m | Zpos _ => Z.shiftl (Zpos m) s | Zneg _ => 0 end).
  assert (Em' : m' = Zpos m * 2 ^ s).
  { unfold m'. destruct s as [|p|p] eqn:Es; [lia| |lia].
    rewrite Z.shiftl_mul_pow2 by lia. reflexivity. }
  clearbody m'.
  pose proof (Z_div_mod m' 8796093022208000 ltac:(lia)) as DM.
  destruct (Z.div_eucl m' 8796093022208000) as [q r]. destruct DM as [DM Hr].
  set (P := 2 ^ 1074) in *. assert (HP : 0 < P) by (unfold P; apply Z.pow_pos_nonneg; lia).
  set (a := 2 ^ (e' - emin)). set (b := 2 ^ (e - emin)) in *. set (c := 2 ^ s) in *.
  assert (Ha : 0 < a) by (unfold a; apply Z.pow_pos_nonneg; rewrite ?emin_value; lia).
  assert (Hb : 0 < b) by (unfold b; apply Z.pow_pos_nonneg; rewrite ?emin_value; lia).
  assert (Hc : 0 < c) by (unfold c; apply Z.pow_pos_nonneg; unfold s; lia).
  assert (Hca : c * a = b * 8796093022208).
  { unfold a, b, c, s. rewrite emin_value. change 8796093022208 with (2 ^ 43).
    rewrite <- !Z.pow_add_r by lia. f_equal. lia. }
  unfold scaled in Hm. fold b in Hm.
  assert (Hq : 0 <= q) by nia.
  assert (H1 : 1000 * (q * a) <= Zpos m * b).
  { apply (Z.mul_le_mono_pos_l _ _ 8796093022208); [lia|]. nia. }
  assert (Hstrict : r <> 0 -> 1000 * (q * a) < Zpos m * b).
  { intros Hr0. apply (Z.mul_lt_mono_pos_l 8796093022208); [lia|]. nia. }
  assert (HK : 480 * 2 ^ 44 * 2 ^ (-44 - emin) = 480 * P).
  { rewrite emin_value. unfold P. vm_compute. reflexivity. }
  assert (HB : 480 * 2 ^ 44 * 2 ^ (-44 - emin) < 2 ^ (-44 + prec - emin)).
  { rewrite emin_value. vm_compute. reflexivity. }
  assert (HE : -44 <= emax - prec) by (vm_compute; discriminate).
  assert (H2 : q * 2 ^ (e' - emin) <= 480 * 2 ^ 44 * 2 ^ (-44 - emin)).
  { fold a. rewrite HK. lia. }
  assert (H3 : new_location 8796093022208000 r <> loc_Exact ->
               q * 2 ^ (e' - emin) < 480 * 2 ^ 44 * 2 ^ (-44 - emin)).
  { intros Hl. fold a. rewrite HK.
    assert (Hr0 : r <> 0).
    { intros ->. apply Hl. reflexivity. }
    specialize (Hstrict Hr0). lia. }
  assert (He1 : emin <= e') by (rewrite emin_value; lia).
  destruct (binary_round_aux_upper false q e' (new_location 8796093022208000 r)
              (480 * 2 ^ 44) (-44) Hq He1 ltac:(lia) HE ltac:(lia) HB H2 H3)
    as [Z|(m3 & e3 & E3 & Le & Lv)].
  - now left.
  - right. exists m3, e3. rewrite HK in Lv. unfold scaled. fold P. auto.
Qed.

End DivideBy1000.

Section DisplayRange.
Local Open Scope Z_scope.

(** A number between 0 and 480000 is a zero or a positive finite number of
    value at most 480000. *)
Lemma range_480000 ms :
  (0 <=? ms)%float = true -> (ms <=? 480000)%float = true ->
  (exists s, Prim2SF ms = S754_zero s)
  \/ exists m e, Prim2SF ms = S754_finite false m e
                 /\ bounded prec emax m e = true
                 /\ scaled m e <= 480000 * 2 ^ 1074.
Proof.
  rewrite !leb_spec. change (Prim2SF 0) with (S754_zero false).
  rewrite Prim2SF_480000.
  pose proof (Prim2SF_valid ms) as V.
  destruct (Prim2SF ms) as [s|s| |s m e]; try discriminate.
  - intros _ _. left. eauto.
  - destruct s; discriminate.
  - destruct s; [discriminate|]. intros _ L. right. exists m, e.
    cbn [valid_binary] in V. split; [reflexivity|]. split; [exact V|].
    apply SFleb_scaled in L; [|exact V|reflexivity].
    replace (480000 * 2 ^ 1074) with (scaled 8246337208320000 (-34))
      by (vm_compute; reflexivity).
    exact L.
Qed.

Lemma div_1000_range ms :
  (0 <=? ms)%float = true -> (ms <=? 480000)%float = true ->
  (exists s, Prim2SF (ms / 1000) = S754_zero s)
  \/ exists m e, Prim2SF (ms / 1000) = S754_finite false m e
                 /\ emin <= e <= -44
                 /\ scaled m e <= 480 * 2 ^ 1074.
Proof.
  intros L U. pose proof (Prim2SF_valid (ms / 1000)) as V. revert V.
  rewrite div_spec, Prim2SF_1000. unfold SF64div.
  destruct (range_480000 ms L U) as [(s & ->)|(m & e & -> & B & S)].
  - intros _. left. exists (xorb s false). reflexivity.
  - pose proof (SFdiv_1000_upper m e B S) as D. cbv zeta in D.
    destruct D as [Z|(m3 & e3 & E3 & Le & Lv)].
    + intros _. left. rewrite Z. eauto.
    + rewrite E3. intros V. right. exists m3, e3.
      cbn [valid_binary] in V. apply bounded_canonical in V as (Ee & _).
      repeat split; auto.
Qed.

Lemma Z2Prim_pos_all :
  forallb (fun n => (0 <? Z2Prim n)%float) (map Z.of_nat (seq 1 480)) = true.
Proof. vm_compute. reflexivity. Qed.

Lemma Math_max2_pos y : (0 <? y)%float = true -> Math_max2 0 y = y.
Proof.
  intros H. unfold Math_max2.
  destruct (ltb_not_nan _ _ H) as [_ Hy]. rewrite Hy, H.
  change (is_nan 0) with false. reflexivity.
Qed.

Lemma totalSec_range ms :
  (0 <=? ms)%float = true -> (ms <=? 480000)%float = true ->
  exists T, 0 <= T <= 480 /\ totalSec ms = Z2Prim T.
Proof.
  intros L U. unfold totalSec.
  destruct (div_1000_range ms L U) as [(s & E)|(m & e & E & (He1 & He2) & S)].
  - exists 0. split; [lia|].
    unfold Math_ceil. rewrite E. apply Math_max2_zero.
    rewrite leb_spec, E. destruct s; reflexivity.
  - unfold Math_ceil. rewrite E.
    destruct (Z.leb_spec 0 e) as [G|_]; [lia|].
    cbn [cond_Zopp].
    set (d := 2 ^ (- e)).
    assert (Hd : 0 < d) by (unfold d; apply Z.pow_pos_nonneg; lia).
    unfold scaled in S. rewrite emin_value in *.
    assert (P : 2 ^ 1074 = d * 2 ^ (e - -1074)).
    { unfold d. rewrite <- Z.pow_add_r by lia. f_equal. lia. }
    assert (Q : 0 < 2 ^ (e - -1074)) by (apply Z.pow_pos_nonneg; lia).
    assert (M : Zpos m <= 480 * d) by nia.
    set (n := - (- Zpos m / d)).
    assert (Hn : 1 <= n <= 480).
    { unfold n. split.
      - assert (- Zpos m / d < 0) by (apply Z.div_lt_upper_bound; lia). lia.
      - assert (- 480 <= - Zpos m / d) by (apply Z.div_le_lower_bound; lia). lia. }
    destruct (Z.eqb_spec n 0) as [N|_]; [lia|].
    exists n. split; [lia|]. apply Math_max2_pos.
    pose proof Z2Prim_pos_all as A. rewrite forallb_forall in A.
    apply (A n). apply in_map_iff. exists (Z.to_nat n). split; [lia|].
    apply in_seq. lia.
Qed.

(** X15: while between 0 and 8 minutes are left, the display is the two
    digits of the minutes, a colon and the two digits of the seconds, for a
    whole number of seconds between 0 and 480: it runs from 00:00 to 08:00,
    with the seconds below 60. *)
Theorem fmtMMSS_range ms :
  (0 <=? ms)%float = true -> (ms <=? 480000)%float = true ->
  exists T, 0 <= T <= 480
    /\ totalSec ms = Z2Prim T
    /\ fmtMMSS ms = fixedDigits 2 (T / 60) ++ ":" ++ fixedDigits 2 (T mod 60).
Proof.
  intros L U. destruct (totalSec_range ms L U) as (T & HT & E).
  exists T. split; [exact HT|]. split; [exact E|].
  apply fmtMMSS_whole; assumption.
Qed.

Lemma fmtMMSS_range_witness :
  exists T, 0 <= T <= 480
    /\ totalSec 61500 = Z2Prim T
    /\ fmtMMSS 61500 = fixedDigits 2 (T / 60) ++ ":" ++ fixedDigits 2 (T mod 60).
Proof. apply (fmtMMSS_range 61500); vm_compute; reflexivity. Defined.

End DisplayRange.

(** ** The time left stays between 0 and 8 minutes *)

Section Subtraction.
Local Open Scope Z_scope.

Lemma SFltb_SFleb x y : SFltb x y = true -> SFleb x y = true.
Proof. unfold SFltb, SFleb. destruct (SFcompare x y) as [[]|]; congruence. Qed.

Lemma SFcompare_Eq_finite sx mx ex sy my ey :
  SFcompare (S754_finite sx mx ex) (S754_finite sy my ey) = Some Eq ->
  sx = sy /\ mx = my /\ ex = ey.
Proof.
  cbn [SFcompare]. destruct sx, sy; try discriminate.
  - destruct (Z.compare_spec ex ey) as [->|L|G]; try discriminate.
    change (Pos.compare_cont Eq mx my) with (Pos.compare mx my).
    destruct (Pos.compare_spec mx my) as [->|L|G]; try discriminate. auto.
  - destruct (Z.compare_spec ex ey) as [->|L|G]; try discriminate.
    change (Pos.compare_cont Eq mx my) with (Pos.compare mx my).
    destruct (Pos.compare_spec mx my) as [->|L|G]; try discriminate. auto.
Qed.

(** The difference of two finite numbers in order is not negative. *)
Lemma SFsub_nonneg X Y :
  valid_binary X = true -> valid_binary Y = true ->
  (forall s, X <> S754_infinity s) -> (forall s, Y <> S754_infinity s) ->
  SFleb Y X = true ->
  SFleb (S754_zero false) (SFsub prec emax X Y) = true.
Proof.
  intros VX VY FX FY L.
  destruct (SFltb Y X) eqn:Lt.
  - apply SFltb_SFleb. rewrite SFsub_sign; assumption.
  - assert (E : SFcompare Y X = Some Eq).
    { unfold SFltb in Lt. unfold SFleb in L.
      destruct (SFcompare Y X) as [[]|]; congruence. }
    destruct X as [sx|sx| |sx mx ex], Y as [sy|sy| |sy my ey];
      try discriminate E;
      try (destruct (FX sx); reflexivity); try (destruct (FY sy); reflexivity).
    + destruct sx, sy; reflexivity.
    + cbn [SFcompare] in E. destruct sy; discriminate.
    + cbn [SFcompare] in E. destruct sx; discriminate.
    + apply SFcompare_Eq_finite in E as (-> & -> & ->).
      cbn [SFsub]. rewrite Z.min_id, Z.sub_diag. reflexivity.
Qed.

Lemma not_infinity x s : is_finite x = true -> Prim2SF x <> S754_infinity s.
Proof.
  unfold is_finite, is_infinity. intros H E.
  assert (A : (abs x =? infinity)%float = true).
  { rewrite eqb_spec, abs_spec, E. reflexivity. }
  rewrite A, orb_true_r in H. discriminate.
Qed.

(** An interval of time is not negative when the clock has not gone
    back. *)
Lemma sub_nonneg now last :
  is_finite now = true -> is_finite last = true ->
  (last <=? now)%float = true -> (0 <=? now - last)%float = true.
Proof.
  intros Fn Fl L. rewrite leb_spec in *. rewrite sub_spec.
  change (Prim2SF 0) with (S754_zero false).
  apply SFsub_nonneg; try apply Prim2SF_valid; auto.
  - intros s. now apply not_infinity.
  - intros s. now apply not_infinity.
Qed.

(** What is left of at most 480000 after taking off a number that is not
    negative: a zero, a negative number, or a positive number of value at
    most 480000. *)
Lemma SFsub_upper m e D :
  bounded prec emax m e = true ->
  scaled m e <= 480000 * 2 ^ 1074 ->
  valid_binary D = true ->
  SFleb (S754_zero false) D = true ->
  let r := SFsub prec emax (S754_finite false m e) D in
  SFleb r (S754_zero false) = true
  \/ exists m3 e3, r = S754_finite false m3 e3 /\ scaled m3 e3 <= 480000 * 2 ^ 1074.
Proof.
  intros Bm Hm VD HD. cbv zeta.
  destruct (SFnonneg_cases D HD) as [[sd ->]|[(md & ed & ->)| ->]].
  - right. exists m, e. split; [reflexivity|exact Hm].
  - cbn [valid_binary] in VD.
    pose proof (bounded_canonical _ _ Bm) as (Ee & _).
    pose proof (bounded_canonical _ _ VD) as (Eed & _).
    assert (Hd : Zpos (digits2_pos m) + e <= 19).
    { apply digits_exponent_le; [exact Ee|lia|].
      eapply Z.le_lt_trans; [exact Hm|]. rewrite emin_value. vm_compute. reflexivity. }
    assert (He34 : e <= -34).
    { unfold bounded, canonical_mantissa in Bm.
      apply andb_true_iff in Bm as [Bm _]. apply Z.eqb_eq in Bm.
      unfold fexp in Bm. change (SpecFloat.emin prec emax) with (-1074) in Bm.
      change prec with 53 in Bm. lia. }
    cbn [SFsub cond_Zopp]. rewrite !shl_align_fst by lia.
    set (ez := Z.min e ed).
    set (Dz := Zpos m * 2 ^ (e - ez) - Zpos md * 2 ^ (ed - ez)).
    assert (Hez : emin <= ez <= e) by (unfold ez; lia).
    assert (Px : 0 < 2 ^ (ed - ez)) by (apply Z.pow_pos_nonneg; unfold ez; lia).
    assert (Pz : 0 < 2 ^ (ez - emin)) by (apply Z.pow_pos_nonneg; lia).
    assert (Hval : Dz * 2 ^ (ez - emin) <= scaled m e).
    { unfold Dz, scaled. replace (e - emin) with ((e - ez) + (ez - emin)) by lia.
      rewrite Z.pow_add_r by lia. nia. }
    destruct Dz as [|p|p] eqn:EDz; cbn [binary_normalize].
    + left. reflexivity.
    + unfold binary_round.
      pose proof (shl_align_snd p ez (fexp prec emax (Zpos (digits2_pos p) + ez))) as Hs.
      pose proof (fexp_ge_emin (Zpos (digits2_pos p) + ez)) as Hf.
      pose proof (shl_align_fst p ez (Z.min ez (fexp prec emax (Zpos (digits2_pos p) + ez))))
        as Hv.
      assert (Hsame : shl_align p ez (fexp prec emax (Zpos (digits2_pos p) + ez))
                      = shl_align p ez
                          (Z.min ez (fexp prec emax (Zpos (digits2_pos p) + ez)))).
      { unfold shl_align.
        destruct (Z.le_gt_cases ez (fexp prec emax (Zpos (digits2_pos p) + ez))) as [A|A].
        - rewrite Z.min_l by lia. rewrite Z.sub_diag.
          destruct (fexp prec emax (Zpos (digits2_pos p) + ez) - ez) eqn:EE;
            try reflexivity; lia.
        - rewrite Z.min_r by lia. reflexivity. }
      rewrite Hsame in *. specialize (Hv ltac:(lia)).
      destruct (shl_align p ez _) as [mz ez']. cbn [fst snd] in Hs, Hv.
      assert (Hez' : emin <= ez' <= ez) by lia.
      assert (Pz' : 0 < 2 ^ (ez' - emin)) by (apply Z.pow_pos_nonneg; lia).
      assert (Hv' : Zpos mz * 2 ^ (ez' - emin) = Zpos p * 2 ^ (ez - emin)).
      { rewrite Hv. replace (ez - emin) with ((ez - Z.min ez
                      (fexp prec emax (Zpos (digits2_pos p) + ez))) + (ez' - emin)) by lia.
        rewrite Z.pow_add_r by lia. ring. }
      assert (HK : 8246337208320000 * 2 ^ (-34 - emin) = 480000 * 2 ^ 1074).
      { rewrite emin_value. vm_compute. reflexivity. }
      assert (HE : -34 <= emax - prec) by (vm_compute; discriminate).
      assert (HB : 8246337208320000 * 2 ^ (-34 - emin) < 2 ^ (-34 + prec - emin)).
      { rewrite emin_value. vm_compute. reflexivity. }
      assert (H2 : Zpos mz * 2 ^ (ez' - emin) <= 8246337208320000 * 2 ^ (-34 - emin)).
      { rewrite HK. lia. }
      assert (H3 : loc_Exact <> loc_Exact ->
                   Zpos mz * 2 ^ (ez' - emin) < 8246337208320000 * 2 ^ (-34 - emin)).
      { intros N. congruence. }
      destruct (binary_round_aux_upper false (Zpos mz) ez' loc_Exact
                  8246337208320000 (-34) ltac:(lia) ltac:(lia) ltac:(lia) HE
                  ltac:(lia) HB H2 H3) as [Z|(m3 & e3 & E3 & Le & Lv)].
      * left. rewrite Z. reflexivity.
      * right. exists m3, e3. split; [exact E3|]. unfold scaled. rewrite HK in Lv. exact Lv.
    + left. apply hasSign_true_nonpos. apply binary_round_sign.
  - left. reflexivity.
Qed.

(** Taking a number that is not negative off a time left between 0 and
    480000 leaves nothing, or again a time left between 0 and 480000. *)
Lemma sub_range x d :
  (0 <=? x)%float = true -> (x <=? 480000)%float = true ->
  (0 <=? d)%float = true ->
  (x - d <=? 0)%float = true
  \/ ((0 <=? x - d)%float = true /\ (x - d <=? 480000)%float = true).
Proof.
  intros L U Hd. pose proof (Prim2SF_valid (x - d)) as V. revert V.
  rewrite !leb_spec, sub_spec. unfold SF64sub.
  rewrite leb_spec in Hd. change (Prim2SF 0) with (S754_zero false) in *.
  rewrite Prim2SF_480000.
  pose proof (Prim2SF_valid d) as VD.
  destruct (range_480000 x L U) as [(s & ->)|(m & e & -> & B & S)].
  - intros _. left.
    destruct (SFnonneg_cases _ Hd) as [[sd ->]|[(md & ed & ->)| ->]];
      [destruct s, sd; reflexivity|reflexivity|reflexivity].
  - pose proof (SFsub_upper m e (Prim2SF d) B S VD Hd) as R. cbv zeta in R.
    destruct R as [R|(m3 & e3 & E3 & Lv)]; [intros _; now left|].
    rewrite E3. intros V. right. split; [reflexivity|].
    cbn [valid_binary] in V. apply SFleb_scaled; [exact V|reflexivity|].
    replace (scaled 8246337208320000 (-34)) with (480000 * 2 ^ 1074)
      by (vm_compute; reflexivity).
    exact Lv.
Qed.

End Subtraction.

Section TimerRange.

Lemma range_later t t' st :
  (t <=? t')%float = true -> rangeInvariant t st -> rangeInvariant t' st.
Proof.
  intros L (H0 & H1 & H2). repeat split; try assumption.
  eapply Forall_impl; [|exact H2]. cbn beta. intros c [F Hc].
  split; [exact F|]. eapply leb_trans; eassumption.
Qed.

Lemma closureLast_In h l last :
  Timer.closureLast h l = Some last -> In (h, last) l.
Proof.
  induction l as [|[k x] l IH]; cbn [Timer.closureLast]; [discriminate|].
  destruct (Pos.eqb_spec k h) as [->|N].
  - intros [= ->]. now left.
  - intros H. right. auto.
Qed.

Lemma setLast_Forall (Q : float -> Prop) h now l :
  Q now -> Forall (fun c => Q (snd c)) l ->
  Forall (fun c => Q (snd c)) (Timer.setLast h now l).
Proof.
  intros Hn. induction 1 as [|[k x] l Hx Hl IH]; cbn [Timer.setLast]; [constructor|].
  destruct (Pos.eqb k h); constructor; auto.
Qed.

Lemma clearInterval_Forall (P : positive * float -> Prop) h l :
  Forall P l -> Forall P (Timer.clearInterval h l).
Proof.
  intros H. unfold Timer.clearInterval. rewrite Forall_forall in *.
  intros c Hc. apply filter_In in Hc as [Hc _]. auto.
Qed.

Lemma range_stop t st : rangeInvariant t st -> rangeInvariant t (Timer.stop st).
Proof.
  intros (H0 & H1 & H2). destruct st as [ms iv rn ins dp tx].
  unfold rangeInvariant in *. timer_simpl.
  repeat split; try assumption.
  destruct iv as [k|]; [apply clearInterval_Forall|]; assumption.
Qed.

Lemma range_start t now h st :
  is_finite now = true -> (t <=? now)%float = true ->
  rangeInvariant t st -> rangeInvariant now (Timer.start now h st).
Proof.
  intros F L H. unfold Timer.start.
  destruct (Timer.running st); [now apply (range_later t)|].
  apply (range_later t now) in H; [|exact L]. destruct H as (H0 & H1 & H2).
  unfold rangeInvariant. timer_simpl. repeat split; try assumption.
  apply Forall_app. split; [exact H2|].
  constructor; [|constructor]. cbn [snd]. split; [exact F|].
  apply leb_refl, is_finite_not_nan, F.
Qed.

Lemma range_tick t now h st :
  is_finite now = true -> (t <=? now)%float = true ->
  rangeInvariant t st -> rangeInvariant now (Timer.tick h now st).
Proof.
  intros F L H. unfold Timer.tick.
  destruct (Timer.closureLast h (Timer.installed st)) as [last|] eqn:E;
    [|now apply (range_later t)].
  pose proof H as (H0 & H1 & H2).
  apply closureLast_In in E. rewrite Forall_forall in H2.
  destruct (H2 _ E) as [Fl Ll]. cbn [snd] in Fl, Ll.
  assert (Hdt : (0 <=? now - last)%float = true).
  { apply sub_nonneg; [exact F|exact Fl|]. eapply leb_trans; eassumption. }
  assert (Hins : Forall (fun c => is_finite (snd c) = true /\ (snd c <=? now)%float = true)
                   (Timer.setLast h now (Timer.installed st))).
  { apply (setLast_Forall (fun x => is_finite x = true /\ (x <=? now)%float = true)).
    - split; [exact F|]. apply leb_refl, is_finite_not_nan, F.
    - apply Forall_forall. intros c Hc. destruct (H2 c Hc) as [Fc Lc].
      split; [exact Fc|]. eapply leb_trans; eassumption. }
  destruct st as [ms iv rn ins dp tx]. timer_simpl. cbv zeta. timer_simpl.
  destruct (ms - (now - last) <=? 0)%float eqn:Le; unfold rangeInvariant; timer_simpl.
  - repeat split; try reflexivity.
    destruct iv as [k|]; [apply clearInterval_Forall|]; exact Hins.
  - destruct (sub_range ms (now - last) H0 H1 Hdt) as [C|[A B]]; [congruence|].
    repeat split; assumption.
Qed.

Lemma range_step t st ev :
  rangeInvariant t st ->
  match eventTime ev with
  | Some now =>
      is_finite now = true -> (t <=? now)%float = true ->
      rangeInvariant now (Timer.step st ev)
  | None => rangeInvariant t (Timer.step st ev)
  end.
Proof.
  intros H. destruct ev as [now h| |now h| |h now]; cbn [eventTime Timer.step].
  - intros F L. now apply (range_start t).
  - unfold Timer.pause. destruct (Timer.running st); [now apply range_stop|exact H].
  - intros F L. unfold Timer.resume.
    destruct (negb (Timer.running st) && (0 <? Timer.msLeft st)%float);
      [now apply (range_start t)|now apply (range_later t)].
  - apply range_stop in H. destruct H as (H0 & H1 & H2).
    unfold Timer.restart. destruct (Timer.stop st) as [ms iv rn ins dp tx].
    unfold rangeInvariant in *. timer_simpl. repeat split; try reflexivity. exact H2.
  - intros F L. now apply (range_tick t).
Qed.

Lemma range_run_from t st evs :
  rangeInvariant t st -> clockFrom t evs ->
  exists t', rangeInvariant t' (fold_left Timer.step evs st).
Proof.
  revert t st. induction evs as [|ev evs IH]; intros t st H C; cbn [fold_left].
  - exists t. exact H.
  - cbn [clockFrom] in C. pose proof (range_step t st ev H) as S.
    destruct (eventTime ev) as [now|].
    + destruct C as (F & L & C). apply (IH now); auto.
    + apply (IH t); auto.
Qed.

Lemma range_create t : rangeInvariant t Timer.create.
Proof. repeat split; try reflexivity. constructor. Qed.

(** X16: as long as the clock does not run backwards, whatever is clicked
    and whenever the interval fires, the time left stays between 0 and 8
    minutes, and the display is the two digits of the minutes, a colon and
    the two digits of the seconds, between 00:00 and 08:00. *)
Theorem timer_range t0 evs :
  clockFrom t0 evs ->
  (0 <=? Timer.msLeft (Timer.run evs))%float = true
  /\ (Timer.msLeft (Timer.run evs) <=? 480000)%float = true
  /\ exists T, (0 <= T <= 480)%Z
       /\ Timer.display (Timer.run evs)
          = fixedDigits 2 (T / 60) ++ ":" ++ fixedDigits 2 (T mod 60).
Proof.
  intros C.
  destruct (range_run_from t0 Timer.create evs (range_create t0) C) as (t & H0 & H1 & _).
  fold (Timer.run evs) in H0, H1.
  split; [exact H0|]. split; [exact H1|].
  destruct (timer_reachable evs) as (_ & Hd & _).
  destruct (totalSec_range _ H0 H1) as (T & HT & E).
  exists T. split; [exact HT|]. rewrite Hd. now apply fmtMMSS_whole.
Qed.

Lemma timer_range_witness :
  let evs := [Timer.Start 0 1; Timer.Tick 1 1500; Timer.Pause;
              Timer.Resume 9000 2; Timer.Tick 2 9100] in
  (0 <=? Timer.msLeft (Timer.run evs))%float = true
  /\ (Timer.msLeft (Timer.run evs) <=? 480000)%float = true
  /\ exists T, (0 <= T <= 480)%Z
       /\ Timer.display (Timer.run evs)
          = fixedDigits 2 (T / 60) ++ ":" ++ fixedDigits 2 (T mod 60).
Proof.
  apply (timer_range 0 [Timer.Start 0 1; Timer.Tick 1 1500; Timer.Pause;
                        Timer.Resume 9000 2; Timer.Tick 2 9100]).
  cbn [clockFrom eventTime]. repeat split.
Defined.

End TimerRange.

(** ** Removing runs *)

Lemma filterRuns_filter p targetStr tolStr runs :
  filterRuns targetStr tolStr (filter p runs) = filter p (filterRuns targetStr tolStr runs).
Proof.
  unfold filterRuns.
  destruct (nonEmpty targetStr); [|reflexivity].
  destruct (nonEmpty tolStr); [destruct (0 <? _)%float|]; apply filter_comm.
Qed.

Lemma getUserRuns_clearMyRuns v u all :
  getUserRuns v (clearMyRuns true u all) = if (v =? u) then [] else getUserRuns v all.
Proof.
  unfold getUserRuns, clearMyRuns.
  induction all as [|r rs IH]; cbn [filter].
  - now destruct (v =? u).
  - destruct (String.eqb_spec (user r) u) as [E|N]; cbn [negb filter].
    + rewrite IH. destruct (String.eqb_spec v u) as [->|N']; [reflexivity|].
      destruct (String.eqb_spec (user r) v); [congruence|reflexivity].
    + destruct (String.eqb_spec (user r) v) as [E|N'].
      * rewrite IH. destruct (String.eqb_spec v u); [congruence|reflexivity].
      * exact IH.
Qed.

(** X17: after [clearMyRuns] the signed-in user has no run left, so the
    summary is the empty one whatever the filter; the runs of every other
    user are as before; and nothing changes when the question is answered
    with no. *)
Theorem clearMyRuns_spec u all :
  (forall v, getUserRuns v (clearMyRuns true u all)
             = if (v =? u) then [] else getUserRuns v all)
  /\ (forall tgt tol,
        renderPracticeSummary (pageFor u tgt tol (clearMyRuns true u all)) = emptyView)
  /\ clearMyRuns false u all = all.
Proof.
  split; [intros v; apply getUserRuns_clearMyRuns|]. split; [|reflexivity].
  intros tgt tol. rewrite renderPracticeSummary_kept. unfold keptRuns, pageFor.
  cbn [storedRuns currentUser filterTrackM filterToleranceM].
  rewrite getUserRuns_clearMyRuns, String.eqb_refl, filterRuns_nil. reflexivity.
Qed.

(** X18: deleting a run takes the runs with that id, and no other, out of
    what the summary works on, whoever is signed in and whatever the
    filter; the order of the others stays.  Nothing changes when the
    question is answered with no. *)
Theorem deleteRun_spec id u tgt tol all :
  keptRuns (pageFor u tgt tol (deleteRun true id all))
  = filter (fun r => negb (runId r =? id)) (keptRuns (pageFor u tgt tol all))
  /\ deleteRun false id all = all.
Proof.
  split; [|reflexivity].
  unfold keptRuns, pageFor, deleteRun, getUserRuns.
  cbn [storedRuns currentUser filterTrackM filterToleranceM].
  now rewrite filter_comm, filterRuns_filter.
Qed.

(** ** The rows of the meet table *)

Lemma findIndex_app_fresh {A : Type} (p : A -> bool) pre x post :
  forallb (fun y => negb (p y)) pre = true -> p x = true ->
  findIndex p (pre ++ x :: post) = Some (List.length pre).
Proof.
  intros Hpre Hx. induction pre as [|y pre IH]; cbn in *; [now rewrite Hx|].
  apply andb_true_iff in Hpre as [Hy Hpre]. apply negb_true_iff in Hy.
  now rewrite Hy, (IH Hpre).
Qed.

Lemma spliceOne_app {A : Type} (pre : list A) x post :
  spliceOne (List.length pre) (pre ++ x :: post) = (pre ++ post)%list.
Proof.
  unfold spliceOne. f_equal.
  - rewrite firstn_app, firstn_all, Nat.sub_diag. cbn. apply app_nil_r.
  - induction pre as [|y pre IH]; [reflexivity|exact IH].
Qed.

(** X19: the Remove button takes out the first row with the id of its row,
    and only that one; so removing a row that was just added, under an id
    no other row has, gives back the table as it was. *)
Theorem removeMeetRow_first id pre :
  forallb (fun r => negb (entryId r =? id)) pre = true ->
  (forall e post, entryId e = id ->
                  removeMeetRow id (pre ++ e :: post) = (pre ++ post)%list)
  /\ removeMeetRow id (addMeetTeam id pre) = pre.
Proof.
  intros Hpre.
  assert (R : forall e post, entryId e = id ->
                             removeMeetRow id (pre ++ e :: post) = (pre ++ post)%list).
  { intros e post He. unfold removeMeetRow.
    rewrite (findIndex_app_fresh _ pre e post Hpre) by (rewrite He; apply String.eqb_refl).
    apply spliceOne_app. }
  split; [exact R|].
  unfold addMeetTeam. rewrite R by reflexivity. apply app_nil_r.
Qed.

Lemma removeMeetRow_first_witness :
  (forall e post, entryId e = "t2" ->
     removeMeetRow "t2" (addMeetTeam "t1" [] ++ e :: post)
     = (addMeetTeam "t1" [] ++ post)%list)
  /\ removeMeetRow "t2" (addMeetTeam "t2" (addMeetTeam "t1" [])) = addMeetTeam "t1" [].
Proof. apply (removeMeetRow_first "t2" (addMeetTeam "t1" [])). reflexivity. Defined.

(** X20: a team that was just added shows 100.00 four times: both runs
    score the base 100 with a time average of 0, and so do the best of two
    and the final score; the lines of the other teams are as before. *)
Theorem addMeetTeam_render id rows :
  renderMeet (map entryRow (addMeetTeam id rows))
  = (renderMeet (map entryRow rows)
     ++ [ {| m_r1 := (100, 0); m_r2 := (100, 0);
             m_bestOf2 := 100; m_final := 100 |} ])%list%float.
Proof.
  unfold addMeetTeam, renderMeet. rewrite !map_app. f_equal.
Qed.

(** ** Recording a run *)

Lemma num_finite v : is_finite (num v) = true.
Proof.
  unfold num. cbn [Number_isFinite].
  destruct (is_finite (Number v)) eqn:E; [exact E|reflexivity].
Qed.

(** A saved target distance is grouped as what was typed would be. *)
Lemma trackKey_saved t : trackKey (jsonNumber (num (JStr t))) = trackKey (JStr t).
Proof.
  unfold jsonNumber. rewrite num_finite.
  unfold num, trackKey. cbn [Number Number_isFinite].
  destruct (is_finite (StringToNumber t)) eqn:F; cbn [negb orb].
  - unfold is_zero. change zero with 0%float.
    destruct (StringToNumber t =? 0)%float eqn:Z; cbn [Number].
    + reflexivity.
    + now rewrite F, Z.
  - reflexivity.
Qed.

Lemma getUserRuns_app u a b :
  getUserRuns u (a ++ b) = (getUserRuns u a ++ getUserRuns u b)%list.
Proof. unfold getUserRuns. apply filter_app. Qed.

(** X21: nothing is saved while nobody is signed in.  Otherwise the stored
    runs are followed by one new run of the signed-in user; read back and
    summarised without a filter it is counted with that user's earlier
    runs, under the track group of the target distance that was typed, and
    its score is the total [computeScore] gives the form (or [null] when
    that is not finite). *)
Theorem saveRun_summary u f newId now all :
  saveRun None f newId now all = None
  /\ exists run msg,
       saveRun (Some u) f newId now all = Some ((all ++ [run])%list, msg)
       /\ let pg := pageFor u "" "" (map storedRun (all ++ [run])) in
          keptRuns pg = (getUserRuns u (map storedRun all) ++ [storedRun run])%list
          /\ practiceMsg (renderPracticeSummary pg)
             = showingMsg (S (List.length (getUserRuns u (map storedRun all))))
          /\ trackOf (storedRun run) = trackKey (JStr (Dom.targetDistanceM f))
          /\ In (trackKey (JStr (Dom.targetDistanceM f))) (summaryKeys pg)
          /\ score (storedRun run)
             = jsonNumber (total (computeScore (inputRun (readPracticeForm f)))).
Proof.
  split; [reflexivity|].
  eexists. eexists. split; [reflexivity|].
  cbn zeta.
  set (run := {| Saved.id := newId |}).
  assert (K : keptRuns (pageFor u "" "" (map storedRun (all ++ [run])))
              = (getUserRuns u (map storedRun all) ++ [storedRun run])%list).
  { unfold keptRuns, pageFor.
    cbn [storedRuns currentUser filterTrackM filterToleranceM].
    change (trim "") with "". rewrite filterRuns_inactive, map_app, getUserRuns_app.
    f_equal. unfold getUserRuns. cbn [map filter storedRun user Saved.user run].
    now rewrite String.eqb_refl. }
  assert (T : trackOf (storedRun run) = trackKey (JStr (Dom.targetDistanceM f))).
  { unfold trackOf. cbn [storedRun targetDistanceM run Saved.targetDistanceM].
    unfold readPracticeForm. cbn [Inp.targetDistanceM]. apply trackKey_saved. }
  split; [exact K|]. split; [|split; [exact T|split; [|reflexivity]]].
  - rewrite renderPracticeSummary_kept, K.
    destruct (getUserRuns u (map storedRun all)) as [|r0 rs]; cbn [app];
      cbn zeta; cbn [practiceMsg]; f_equal; cbn [List.length]; rewrite ?length_app; cbn; lia.
  - apply (Permutation_in _ (Permutation_sym (summaryKeys_perm _))).
    rewrite K. apply keys_groupBy_In. exists (storedRun run).
    split; [apply in_or_app; right; now left|exact T].
Qed.

(** X22: deleting the run that was just saved, under an id no other run has,
    leaves the runs that were stored before. *)
Theorem saveRun_deleteRun u f newId now all stored msg :
  saveRun (Some u) f newId now all = Some (stored, msg) ->
  forallb (fun r => negb (Saved.id r =? newId)) all = true ->
  deleteRun true newId (map storedRun stored) = map storedRun all.
Proof.
  intros E F. cbn in E. injection E as <- _.
  unfold deleteRun. rewrite map_app, filter_app.
  cbn [map filter storedRun runId Saved.id]. rewrite String.eqb_refl. cbn [negb].
  rewrite app_nil_r.
  induction all as [|r rs IH]; [reflexivity|].
  cbn [forallb] in F. apply andb_true_iff in F as [Hr Hrs].
  cbn [map filter storedRun runId]. rewrite Hr. f_equal. exact (IH Hrs).
Qed.

Lemma saveRun_deleteRun_witness :
  exists stored msg,
    saveRun (Some "ada") demoForm "r1" "t1" [] = Some (stored, msg)
    /\ deleteRun true "r1" (map storedRun stored) = map storedRun [].
Proof.
  eexists. eexists. split; [reflexivity|].
  apply (saveRun_deleteRun "ada" demoForm "r1" "t1" [] _ _ eq_refl). reflexivity.
Defined.
